(** * sptsong: a terminal "now playing" display

    Shallow embedding of [src/main.go] and of its compact variant
    [src/unnamed/part_000], and the properties of the specification
    checked against them.

    Conventions of the embedding:
    - Go's [int] and [int64] are 64-bit two's-complement integers, modelled
      as [Z] with the wrap-around of every arithmetic operation written out;
    - Go strings are byte sequences, modelled as [string] (one [ascii] per
      byte);
    - [float64] is IEEE 754 binary64, modelled by the Standard Library's
      [SpecFloat] with [prec = 53] and [emax = 1024];
    - terminal, bus, network and file system are outside the program: what
      they answer on one call is an input of the model, what the program
      sends them is an output (a list of effects). *)

From Stdlib Require Import ZArith Lia List Bool Ascii String.
From Stdlib Require Import Floats.SpecFloat.
From Stdlib Require Import DecimalString.
Import ListNotations.

Local Open Scope string_scope.
Local Open Scope list_scope.
Local Open Scope Z_scope.

(** ** Go machine integers *)

Module GoInt.

Definition min_int64 : Z := - 2 ^ 63.
Definition max_int64 : Z := 2 ^ 63 - 1.
Definition max_uint64 : Z := 2 ^ 64 - 1.

Definition in_int64 (z : Z) : Prop := min_int64 <= z <= max_int64.
Definition in_uint64 (z : Z) : Prop := 0 <= z <= max_uint64.

Definition in_int64b (z : Z) : bool := (min_int64 <=? z) && (z <=? max_int64).

(** Two's-complement reduction of a mathematical integer to 64 bits. *)
Definition wrap64 (z : Z) : Z := (z + 2 ^ 63) mod 2 ^ 64 - 2 ^ 63.

Definition add (a b : Z) : Z := wrap64 (a + b).
Definition sub (a b : Z) : Z := wrap64 (a - b).

(** Go's [/] and [%] on integers truncate toward zero.  The divisors of
    the program are the non-zero constants 2, 60 and 1000000. *)
Definition quo (a b : Z) : Z := wrap64 (Z.quot a b).
Definition rem (a b : Z) : Z := Z.rem a b.

(** [int64(v)] for [v] a [uint64]: the same 64 bits read as signed. *)
Definition int64_of_uint64 (v : Z) : Z := wrap64 v.

End GoInt.

(** ** Go strings: the functions of package [strings] the program calls *)

Module GoStrings.

(** [len(s)]: the number of bytes. *)
Definition len (s : string) : Z := Z.of_nat (String.length s).

(** [strings.HasPrefix(s, p)]. *)
Definition HasPrefix (s p : string) : bool := String.prefix p s.

(** [s[n:]] for [n <= len(s)]. *)
Fixpoint drop (n : nat) (s : string) : string :=
  match n, s with
  | O, _ => s
  | S n', String _ s' => drop n' s'
  | S _, EmptyString => EmptyString
  end.

(** [strings.TrimPrefix(s, p)]. *)
Definition TrimPrefix (s p : string) : string :=
  if HasPrefix s p then drop (String.length p) s else s.

Fixpoint trimLeftByte (s : string) (c : ascii) : string :=
  match s with
  | EmptyString => EmptyString
  | String a s' => if Ascii.eqb a c then trimLeftByte s' c else s
  end.

Fixpoint trimRightByte (s : string) (c : ascii) : string :=
  match s with
  | EmptyString => EmptyString
  | String a s' =>
      match trimRightByte s' c with
      | EmptyString => if Ascii.eqb a c then EmptyString else String a EmptyString
      | t => String a t
      end
  end.

(** [strings.Trim(s, cutset)] for a cutset of one ASCII byte, the only
    use in the program: the library trims the right end, then the left. *)
Definition Trim1 (s : string) (c : ascii) : string :=
  trimLeftByte (trimRightByte s c) c.

(** [strings.Repeat(s, count)] for [count >= 0]; a negative count panics
    in Go, the callers clamp the count to [0, 40] or pass the constant 60. *)
Fixpoint repeat_nat (s : string) (n : nat) : string :=
  match n with
  | O => EmptyString
  | S n' => s ++ repeat_nat s n'
  end.

Definition Repeat (s : string) (count : Z) : string :=
  repeat_nat s (Z.to_nat count).

End GoStrings.

(** ** Go formatting: the verbs of package [fmt] the program uses *)

Module Fmt.

(** Decimal digits of a natural number, most significant first. *)
Definition digits (n : N) : string := NilZero.string_of_uint (N.to_uint n).

(** [%d] of an integer. *)
Definition d (z : Z) : string :=
  if z <? 0 then "-" ++ digits (Z.to_N (- z)) else digits (Z.to_N z).

(** Zero padding on the left up to [w] bytes. *)
Definition zpad (w : nat) (s : string) : string :=
  GoStrings.repeat_nat "0" (w - String.length s) ++ s.

(** [%02d]: width 2, padded with zeros; a sign takes one of the two
    columns, and the zeros come after it. *)
Definition d02 (z : Z) : string :=
  if z <? 0 then "-" ++ zpad 1 (digits (Z.to_N (- z)))
  else zpad 2 (digits (Z.to_N z)).

End Fmt.

(** ** float64

    IEEE 754 binary64 with round-to-nearest-even, as specified by
    [SpecFloat].  Converting a float that is NaN, infinite or outside the
    range of the integer type to an integer is implementation-dependent in
    Go: the value the platform produces there is the parameter [unrep]. *)

Module GoFloat.

Definition prec : Z := 53.
Definition emax : Z := 1024.

Definition float64 : Type := spec_float.

(** [float64(n)] for an integer [n]. *)
Definition of_int (n : Z) : float64 := binary_normalize prec emax n 0 false.

Definition div (x y : float64) : float64 := SFdiv prec emax x y.
Definition mul (x y : float64) : float64 := SFmul prec emax x y.

(** The integer part of a finite float (its fraction discarded). *)
Definition trunc (f : float64) : option Z :=
  match f with
  | S754_zero _ => Some 0
  | S754_finite s m e =>
      let a := if 0 <=? e then Z.pos m * 2 ^ e
               else Z.pos m / 2 ^ (- e) in
      Some (if s then - a else a)
  | S754_infinity _ | S754_nan => None
  end.

(** [int(f)], with [int] of 64 bits. *)
Definition to_int (unrep : float64 -> Z) (f : float64) : Z :=
  match trunc f with
  | Some z => if GoInt.in_int64b z then z else unrep f
  | None => unrep f
  end.

(** Two platforms.  On amd64 the conversion instruction answers the
    "integer indefinite" value [-2^63] for every unrepresentable input; on
    arm64 it saturates, and NaN gives 0. *)
Definition unrep_amd64 (f : float64) : Z := GoInt.min_int64.

Definition unrep_arm64 (f : float64) : Z :=
  match f with
  | S754_nan | S754_zero _ => 0
  | S754_infinity s | S754_finite s _ _ =>
      if s then GoInt.min_int64 else GoInt.max_int64
  end.

End GoFloat.

(** ** Display state (struct [SpotifyDisplay])

    [bus] and [spotifyObject] are handles of the session bus and carry no
    data of their own; [lastMetadata] of [src/main.go] is never read or
    written.  In [src/unnamed/part_000] the five layout fields sit in an
    embedded struct [Config], whose fields Go promotes, so [sd.minWidth]
    reads the same in both files. *)

Record SpotifyDisplay : Type := mkSpotifyDisplay {
  cacheDir        : string;
  minWidth        : Z;
  contentHeight   : Z;
  margin          : Z;
  horizontalAlign : string;
  verticalAlign   : string;
  currentArtURL   : string
}.

Record TerminalSize : Type := mkTerminalSize {
  width  : Z;
  height : Z;
  startX : Z;
  startY : Z
}.

(** The display built by [NewSpotifyDisplay] for a given cache directory. *)
Definition NewSpotifyDisplay (dir : string) : SpotifyDisplay :=
  {| cacheDir := dir;
     minWidth := 60;
     contentHeight := 9;
     margin := 2;
     horizontalAlign := "center";
     verticalAlign := "bottom";
     currentArtURL := "" |}.

(** Struct [Metadata].  [src/unnamed/part_000] has no [Album] field; its
    records carry the empty string there. *)
Record Metadata : Type := mkMetadata {
  Title    : string;
  Artist   : string;
  Album    : string;
  Length   : Z;
  Position : Z;
  ArtURL   : string
}.

(** ** The outside world

    *** Values of the session bus

    A [dbus.Variant] holds a dynamically typed value and has a textual
    rendering ([String()]), computed by the bus library; the model carries
    the rendering with the value.  [VOther] stands for every dynamic type
    the program does not look into and records the name [%T] prints. *)

Inductive DValue : Type :=
| VNil
| VInt64 (v : Z)
| VUint64 (v : Z)
| VStrings (l : list string)
| VDict (m : list (string * Variant))
| VOther (tyname : string)
with Variant : Type :=
| MkVariant (value : DValue) (rendering : string).

Definition Value (v : Variant) : DValue :=
  match v with MkVariant x _ => x end.

Definition rendering (v : Variant) : string :=
  match v with MkVariant _ r => r end.

(** What [%T] prints for a dynamic value. *)
Definition typeName (x : DValue) : string :=
  match x with
  | VNil => "<nil>"
  | VInt64 _ => "int64"
  | VUint64 _ => "uint64"
  | VStrings _ => "[]string"
  | VDict _ => "map[string]dbus.Variant"
  | VOther t => t
  end.

(** Well-formed values: the integers fit their type. *)
Definition wf_value (x : DValue) : Prop :=
  match x with
  | VInt64 v => GoInt.in_int64 v
  | VUint64 v => GoInt.in_uint64 v
  | _ => True
  end.

(** [m[k]] on a [map[string]dbus.Variant]: [None] is the zero [Variant],
    which Go returns for an absent key. *)
Fixpoint lookup (m : list (string * Variant)) (k : string) : option Variant :=
  match m with
  | [] => None
  | (k', v) :: m' => if String.eqb k' k then Some v else lookup m' k
  end.

(** [.Value()] of a looked-up variant; the zero [Variant] holds [nil]. *)
Definition valueOf (o : option Variant) : DValue :=
  match o with
  | Some v => Value v
  | None => VNil
  end.

(** *** Results

    A Go call either returns a value, returns a non-nil [error] (here its
    message), or panics. *)

Inductive Result (A : Type) : Type :=
| Ok (a : A)
| Err (e : string)
| Panic.

Arguments Ok {A} a.
Arguments Err {A} e.
Arguments Panic {A}.

Definition bind {A B : Type} (r : Result A) (k : A -> Result B) : Result B :=
  match r with
  | Ok a => k a
  | Err e => Err e
  | Panic => Panic
  end.

Notation "x <- r ;; k" := (bind r (fun x => k))
  (at level 61, r at next level, right associativity).

(** *** Runtime parameters

    Two behaviours are fixed by the platform and by the bus library, not
    by the program: the integer a float-to-int conversion gives for an
    unrepresentable float, and what [String()] does on the zero [Variant]. *)
Record Runtime : Type := mkRuntime {
  unrep : GoFloat.float64 -> Z;
  zeroVariantString : option string
}.

(** [.String()] of a looked-up variant.  For the zero [Variant] the
    library's answer is [zeroVariantString]: a string, or [None] when the
    call panics. *)
Definition VariantString (rt : Runtime) (o : option Variant) : Result string :=
  match o with
  | Some v => Ok (rendering v)
  | None =>
      match rt.(zeroVariantString) with
      | Some s => Ok s
      | None => Panic
      end
  end.

(** *** Replies of one tick

    [GetProperty] answers a variant or an error.  The transfer of the
    artwork into the cache slot (open and copy, or build the request, send
    it and save the body) succeeds or fails with a message.  When it
    fails, [requestNil] tells whether the failure is that of
    [http.NewRequest], which then hands back a nil request:
    [src/main.go] returns that error like any other, while
    [src/unnamed/part_000] drops it and uses the request.  [displayImage]
    asks the file system for the cached file and the path of the renderer,
    and runs it. *)

Inductive Reply : Type :=
| ReplyErr (e : string)
| ReplyVal (v : Variant).

Record DisplayEnv : Type := mkDisplayEnv {
  statErr  : option string;
  fileSize : Z;
  lookPath : option string;
  runErr   : option string
}.

Record TickEnv : Type := mkTickEnv {
  termSize     : Z * Z;
  metadataProp : Reply;
  positionProp : Reply;
  transferErr  : option string;
  requestNil   : bool;
  displayEnv   : DisplayEnv
}.

(** *** Effects: what the program sends out

    [CopyFile src dst] and [HttpGet url dst] stand for the local and the
    remote branch of [downloadArtwork] at work on a reference, with the
    cache file as destination; how the transfer ends is the [transferErr]
    of the tick. *)

Inductive Effect : Type :=
| Stdout (s : string)
| Log (s : string)
| CopyFile (src dst : string)
| HttpGet (url dst : string)
| Exec (cmd : string) (args : list string)
| TermboxInit
| TermboxClose.

Definition isStdout (e : Effect) : bool :=
  match e with Stdout _ => true | _ => false end.

Definition isFetch (e : Effect) : bool :=
  match e with CopyFile _ _ | HttpGet _ _ => true | _ => false end.

(** *** Terminal events *)

Inductive EventType : Type := EventKey | EventOtherType.

Inductive Key : Type :=
| KeyArrowUp | KeyArrowDown | KeyArrowLeft | KeyArrowRight | KeyOther.

Record TermboxEvent : Type := mkEvent {
  evType : EventType;
  evKey  : Key;
  evCh   : ascii
}.

(** *** Terminal control sequences *)

Definition ESC : string := String (ascii_of_nat 27) EmptyString.
Definition quoteChar : ascii := ascii_of_nat 34.

Definition clearScreen : list Effect := [Stdout (ESC ++ "[2J" ++ ESC ++ "[H")].
Definition hideCursor : list Effect := [Stdout (ESC ++ "[?25l")].
Definition showCursor : list Effect := [Stdout (ESC ++ "[?25h")].

(** [fmt.Printf("\033[%d;%dH", row, col)]. *)
Definition cursorTo (row col : Z) : string :=
  ESC ++ "[" ++ Fmt.d row ++ ";" ++ Fmt.d col ++ "H".

Definition moveCursor (x y : Z) : list Effect :=
  [Stdout (cursorTo (GoInt.add y 1) (GoInt.add x 1))].

Definition cdnPrefix : string := "https://i.scdn.co/image/".
Definition filePrefix : string := "file://".

(** [filepath.Join(sd.cacheDir, "current_artwork.png")], the cache slot. *)
Definition artworkPath (sd : SpotifyDisplay) : string :=
  sd.(cacheDir) ++ "/current_artwork.png".

Definition setArtURL (sd : SpotifyDisplay) (u : string) : SpotifyDisplay :=
  {| cacheDir := sd.(cacheDir); minWidth := sd.(minWidth);
     contentHeight := sd.(contentHeight); margin := sd.(margin);
     horizontalAlign := sd.(horizontalAlign);
     verticalAlign := sd.(verticalAlign); currentArtURL := u |}.

Definition setHorizontal (sd : SpotifyDisplay) (a : string) : SpotifyDisplay :=
  {| cacheDir := sd.(cacheDir); minWidth := sd.(minWidth);
     contentHeight := sd.(contentHeight); margin := sd.(margin);
     horizontalAlign := a;
     verticalAlign := sd.(verticalAlign);
     currentArtURL := sd.(currentArtURL) |}.

Definition setVertical (sd : SpotifyDisplay) (a : string) : SpotifyDisplay :=
  {| cacheDir := sd.(cacheDir); minWidth := sd.(minWidth);
     contentHeight := sd.(contentHeight); margin := sd.(margin);
     horizontalAlign := sd.(horizontalAlign);
     verticalAlign := a;
     currentArtURL := sd.(currentArtURL) |}.

(** State of the event loop. *)
Inductive Status : Type := Running | Terminating | Crashed.

Inductive LoopEvent : Type :=
| Keyboard (e : TermboxEvent)
| Tick (env : TickEnv)
| Signal.

(** *** Replies at start-up

    Whether [pgrep spotify] finds the player, the errors of the home
    directory, cache directory, session bus, terminal and log file, and the
    path [filepath.Join(homeDir, ".cache", "spotify-display")] gives. *)
Record StartupEnv : Type := mkStartupEnv {
  spotifyRunning : bool;
  homeDirErr     : option string;
  cachePath      : string;
  mkdirErr       : option string;
  busErr         : option string;
  termboxErr     : option string;
  logFileErr     : option string
}.

(** How the process stands after the events seen so far: still in the
    loop, exited with a code, or brought down by a panic. *)
Inductive Exit : Type :=
| StillRunning
| Exited (code : Z)
| Panicked.

Definition newline : string := String (ascii_of_nat 10) EmptyString.

(** The type switch [case int64: x = v; case uint64: x = int64(v)] of
    [getMetadata], common to both files; [None] is "no case matched". *)
Definition int64Of (x : DValue) : option Z :=
  match x with
  | VInt64 v => Some v
  | VUint64 v => Some (GoInt.int64_of_uint64 v)
  | _ => None
  end.

(** The art-URL normalisation of [getMetadata] ([src/main.go] lines 161 to
    174, [src/unnamed/part_000] lines 107 to 113), on the rendering of the
    [mpris:artUrl] variant. *)
Definition normalizeArtURL (raw : string) : string :=
  let rawURL := GoStrings.Trim1 raw quoteChar in
  if GoStrings.HasPrefix rawURL cdnPrefix then rawURL
  else if GoStrings.HasPrefix rawURL filePrefix
       then GoStrings.TrimPrefix rawURL filePrefix
  else "".

(** ** [src/main.go] *)

Module MainGo.

Definition getTerminalSize (sd : SpotifyDisplay) (w h : Z) : TerminalSize :=
  let x :=
    if String.eqb sd.(horizontalAlign) "left" then sd.(margin)
    else if String.eqb sd.(horizontalAlign) "right"
         then GoInt.sub (GoInt.sub w sd.(minWidth)) sd.(margin)
    else GoInt.quo (GoInt.sub w sd.(minWidth)) 2 in
  let y :=
    if String.eqb sd.(verticalAlign) "top" then sd.(margin)
    else if String.eqb sd.(verticalAlign) "bottom"
         then GoInt.sub (GoInt.sub h sd.(contentHeight)) sd.(margin)
    else GoInt.quo (GoInt.sub h sd.(contentHeight)) 2 in
  {| width := w; height := h; startX := x; startY := y |}.

(** The log lines of the art-URL block, in the order written. *)
Definition artURLLog (raw : string) : list Effect :=
  let rawURL := GoStrings.Trim1 raw quoteChar in
  Log ("Raw art URL: " ++ rawURL) ::
  (if GoStrings.HasPrefix rawURL cdnPrefix
   then [Log ("Using Spotify CDN URL: " ++ normalizeArtURL raw)]
   else if GoStrings.HasPrefix rawURL filePrefix
        then [Log ("Using local file path: " ++ normalizeArtURL raw)]
   else [Log ("Unknown URL format: " ++ rawURL)]).

(** [artURL] after the block [if artURLVar, ok := metadata["mpris:artUrl"]]. *)
Definition artURLOf (o : option Variant) : string :=
  match o with
  | Some v => normalizeArtURL (rendering v)
  | None => ""
  end.

Definition getMetadata (rt : Runtime) (env : TickEnv)
  : list Effect * Result Metadata :=
  match env.(metadataProp) with
  | ReplyErr e => ([], Err e)
  | ReplyVal variant =>
  match Value variant with
  | VDict metadata =>
  match env.(positionProp) with
  | ReplyErr e => ([], Err e)
  | ReplyVal position =>
  let lv := valueOf (lookup metadata "mpris:length") in
  match int64Of lv with
  | None => ([], Err ("unexpected length type: " ++ typeName lv))
  | Some length =>
  match int64Of (Value position) with
  | None =>
      ([], Err ("unexpected position type: " ++ typeName (Value position)))
  | Some pos =>
  match valueOf (lookup metadata "xesam:artist") with
  | VStrings artists =>
      let artistName :=
        match artists with
        | a :: _ => a
        | [] => "Unknown Artist"
        end in
      let art := lookup metadata "mpris:artUrl" in
      let logs :=
        match art with
        | Some v => artURLLog (rendering v)
        | None => []
        end in
      (logs,
       title <- VariantString rt (lookup metadata "xesam:title") ;;
       album <- VariantString rt (lookup metadata "xesam:album") ;;
       Ok {| Title := title;
             Artist := artistName;
             Album := album;
             Length := GoInt.quo length 1000000;
             Position := GoInt.quo pos 1000000;
             ArtURL := artURLOf art |})
  | _ => ([], Err "invalid artist format")
  end end end end
  | _ => ([], Err "invalid metadata format")
  end end.

Definition downloadArtwork (env : TickEnv) (sd : SpotifyDisplay)
  (artURL : string) : list Effect * Result string :=
  if String.eqb artURL "" then ([], Err "no artwork URL provided")
  else
    let imagePath := artworkPath sd in
    let start := Log ("Downloading artwork from: " ++ artURL) in
    if GoStrings.HasPrefix artURL "/" then
      let fx := [start; Log ("Handling local file: " ++ artURL);
                 CopyFile artURL imagePath] in
      match env.(transferErr) with
      | Some e => (fx, Err e)
      | None => (fx, Ok imagePath)
      end
    else
      let fx := [start; Log ("Handling remote URL: " ++ artURL);
                 HttpGet artURL imagePath] in
      match env.(transferErr) with
      | Some e => (fx, Err e)
      | None =>
          (fx ++ [Log ("Successfully downloaded artwork to: " ++ imagePath)],
           Ok imagePath)
      end.

Definition chafaArgs (imagePath : string) : list string :=
  ["--size=18x18"; "--symbols=block"; "--colors=256"; imagePath].

Definition displayImage (env : TickEnv) (imagePath : string) (x y : Z)
  : list Effect * Result unit :=
  let de := env.(displayEnv) in
  if String.eqb imagePath "" then ([], Err "no image path provided")
  else match de.(statErr) with
  | Some e => ([], Err ("artwork file error: " ++ e))
  | None =>
  if de.(fileSize) =? 0 then ([], Err "artwork file is empty")
  else match de.(lookPath) with
  | None => ([], Err "chafa is not installed")
  | Some chafaPath =>
      let pre := [Log ("Found chafa at: " ++ chafaPath); Stdout (ESC ++ "7")]
                 ++ moveCursor x y
                 ++ [Exec chafaPath (chafaArgs imagePath)] in
      match de.(runErr) with
      | Some e =>
          (pre ++ [Log ("Chafa error: " ++ e); Stdout (ESC ++ "8")], Err e)
      | None => (pre ++ [Stdout (ESC ++ "8")], Ok tt)
      end
  end end.

Definition formatTime (seconds : Z) : string :=
  let minutes := GoInt.quo seconds 60 in
  let remainingSeconds := GoInt.rem seconds 60 in
  Fmt.d02 minutes ++ ":" ++ Fmt.d02 remainingSeconds.

Definition barWidth : Z := 40.

(** The local [progress] of [drawProgressBar] when the bar is built. *)
Definition progress (rt : Runtime) (metadata : Metadata) : Z :=
  if 0 <? metadata.(Length) then
    let p0 := GoFloat.to_int rt.(unrep)
                (GoFloat.mul
                   (GoFloat.div (GoFloat.of_int metadata.(Position))
                                (GoFloat.of_int metadata.(Length)))
                   (GoFloat.of_int barWidth)) in
    let p1 := if p0 <? 0 then 0 else p0 in
    if barWidth <? p1 then barWidth else p1
  else 0.

Definition filledGlyph : string := "━".
Definition emptyGlyph : string := "─".

Definition bar (rt : Runtime) (metadata : Metadata) : string :=
  GoStrings.Repeat filledGlyph (progress rt metadata)
  ++ GoStrings.Repeat emptyGlyph (GoInt.sub barWidth (progress rt metadata)).

Definition timeText (metadata : Metadata) : string :=
  formatTime metadata.(Position) ++ "/" ++ formatTime metadata.(Length).

Definition drawProgressBar (rt : Runtime) (metadata : Metadata)
  (term : TerminalSize) : list Effect :=
  let x := GoInt.add term.(startX) 20 in
  let y4 := GoInt.add term.(startY) 4 in
  let y5 := GoInt.add term.(startY) 5 in
  let tt := timeText metadata in
  moveCursor x y4 ++ [Stdout (GoStrings.Repeat " " 60)]
  ++ moveCursor x y5 ++ [Stdout (GoStrings.Repeat " " 60)]
  ++ moveCursor x y4 ++ [Stdout (bar rt metadata)]
  ++ moveCursor
       (GoInt.add x (GoInt.quo (GoInt.sub barWidth (GoStrings.len tt)) 2)) y5
  ++ [Stdout tt].

Definition handleKeyboard (sd : SpotifyDisplay) (event : TermboxEvent)
  : SpotifyDisplay * bool :=
  let '(sd1, redraw1) :=
    match event.(evKey) with
    | KeyArrowUp => (setVertical sd "top", true)
    | KeyArrowDown => (setVertical sd "bottom", true)
    | KeyArrowLeft => (setHorizontal sd "left", true)
    | KeyArrowRight => (setHorizontal sd "right", true)
    | KeyOther => (sd, false)
    end in
  if Ascii.eqb event.(evCh) "c"%char
  then (setVertical (setHorizontal sd1 "center") "center", true)
  else (sd1, redraw1).

(** The three text lines of the [ticker.C] case. *)
Definition drawTrackInfo (metadata : Metadata) (term : TerminalSize)
  : list Effect :=
  let x := GoInt.add term.(startX) 20 in
  moveCursor x term.(startY) ++ [Stdout "♫ Now Playing"]
  ++ moveCursor x (GoInt.add term.(startY) 1) ++ [Stdout metadata.(Title)]
  ++ moveCursor x (GoInt.add term.(startY) 2)
  ++ [Stdout ("by " ++ metadata.(Artist))].

(** The block "Update artwork if changed", entered when [artworkDue]. *)
Definition artworkDue (sd : SpotifyDisplay) (metadata : Metadata) : bool :=
  negb (String.eqb metadata.(ArtURL) sd.(currentArtURL))
  && negb (String.eqb metadata.(ArtURL) "").

Definition updateArtwork (env : TickEnv) (sd : SpotifyDisplay)
  (metadata : Metadata) (term : TerminalSize)
  : SpotifyDisplay * list Effect :=
  let sd' := setArtURL sd metadata.(ArtURL) in
  let '(fx, r) := downloadArtwork env sd' metadata.(ArtURL) in
  match r with
  | Ok imagePath =>
      if String.eqb imagePath "" then (sd', fx)
      else
        let '(fx2, r2) :=
          displayImage env imagePath term.(startX) term.(startY) in
        match r2 with
        | Err e => (sd', fx ++ fx2 ++ [Log ("Display error: " ++ e)])
        | _ => (sd', fx ++ fx2)
        end
  | Err e => (sd', fx ++ [Log ("Artwork error: " ++ e)])
  | Panic => (sd', fx)
  end.

(** One iteration of the loop on [case <-ticker.C]. *)
Definition tick (rt : Runtime) (env : TickEnv) (sd : SpotifyDisplay)
  : SpotifyDisplay * list Effect * Status :=
  let term := getTerminalSize sd (fst env.(termSize)) (snd env.(termSize)) in
  let '(logs, r) := getMetadata rt env in
  match r with
  | Panic => (sd, logs, Crashed)
  | Err e => (sd, logs ++ [Log ("Error getting metadata: " ++ e)], Running)
  | Ok metadata =>
      let draw := drawTrackInfo metadata term
                  ++ drawProgressBar rt metadata term in
      if artworkDue sd metadata then
        let '(sd', fx) := updateArtwork env sd metadata term in
        (sd', logs ++ draw ++ fx, Running)
      else (sd, logs ++ draw, Running)
  end.

(** One iteration of the [for { select { ... } }] loop of [Run]. *)
Definition step (rt : Runtime) (sd : SpotifyDisplay) (ev : LoopEvent)
  : SpotifyDisplay * list Effect * Status :=
  match ev with
  | Keyboard event =>
      match event.(evType) with
      | EventKey =>
          if Ascii.eqb event.(evCh) "q"%char then (sd, [], Terminating)
          else
            let '(sd', redraw) := handleKeyboard sd event in
            if redraw then (setArtURL sd' "", clearScreen, Running)
            else (sd', [], Running)
      | EventOtherType => (sd, [], Running)
      end
  | Tick env => tick rt env sd
  | Signal => (sd, [], Terminating)
  end.

(** The loop on a finite prefix of the events the [select] receives. *)
Fixpoint loop (rt : Runtime) (sd : SpotifyDisplay) (evs : list LoopEvent)
  : SpotifyDisplay * list Effect * Status :=
  match evs with
  | [] => (sd, [], Running)
  | ev :: evs' =>
      let '(sd', fx, st) := step rt sd ev in
      match st with
      | Running =>
          let '(sd'', fx', st') := loop rt sd' evs' in
          (sd'', fx ++ fx', st')
      | _ => (sd', fx, st)
      end
  end.

(** [Run]: start-up, the loop, and the deferred calls in reverse order. *)
Definition Run (rt : Runtime) (initErr logErr : option string)
  (sd : SpotifyDisplay) (evs : list LoopEvent)
  : SpotifyDisplay * list Effect * Status :=
  match initErr with
  | Some _ => (sd, [TermboxInit], Terminating)
  | None =>
      let pre := [TermboxInit] ++ hideCursor ++ clearScreen in
      let post := showCursor ++ [TermboxClose] in
      match logErr with
      | Some _ => (sd, pre ++ post, Terminating)
      | None =>
          let '(sd', fx, st) := loop rt sd evs in
          match st with
          | Running => (sd', pre ++ fx, Running)
          | _ => (sd', pre ++ fx ++ post, st)
          end
      end
  end.

(** [NewSpotifyDisplay] with its three failures. *)
Definition NewSpotifyDisplay (env : StartupEnv) : Result SpotifyDisplay :=
  match env.(homeDirErr) with
  | Some e => Err ("failed to get home directory: " ++ e)
  | None =>
  match env.(mkdirErr) with
  | Some e => Err ("failed to create cache directory: " ++ e)
  | None =>
  match env.(busErr) with
  | Some e => Err ("failed to connect to session bus: " ++ e)
  | None => Ok (NewSpotifyDisplay env.(cachePath))
  end end end.

(** The error [Run] returns, if any. *)
Definition runError (env : StartupEnv) : option string :=
  match env.(termboxErr) with
  | Some e => Some ("failed to initialize termbox: " ++ e)%string
  | None =>
      match env.(logFileErr) with
      | Some e => Some ("failed to open log file: " ++ e)%string
      | None => None
      end
  end.

Definition pgrep : Effect := Exec "pgrep" ["spotify"].

(** [main]: [log.Fatalf] logs and exits with code 1. *)
Definition main (rt : Runtime) (env : StartupEnv) (evs : list LoopEvent)
  : list Effect * Exit :=
  if negb env.(spotifyRunning) then
    ([pgrep;
      Stdout ("Spotify is not running. Please start Spotify first."
              ++ newline)], Exited 0)
  else
    match NewSpotifyDisplay env with
    | Err e =>
        ([pgrep; Log ("Failed to initialize display: " ++ e)], Exited 1)
    | Panic => ([pgrep], Panicked)
    | Ok display =>
        let '(_, fx, st) :=
          Run rt env.(termboxErr) env.(logFileErr) display evs in
        match runError env with
        | Some e => (pgrep :: fx ++ [Log ("Display error: " ++ e)], Exited 1)
        | None =>
            match st with
            | Running => (pgrep :: fx, StillRunning)
            | Terminating =>
                (pgrep :: fx ++ clearScreen ++ showCursor, Exited 0)
            | Crashed => (pgrep :: fx, Panicked)
            end
        end
    end.

End MainGo.

(** ** [src/unnamed/part_000], the compact variant

    It logs nothing, asserts dynamic types without the [ok] test (a
    mismatch panics), ignores the error of the position query, has no
    [default] in its type switches (the integer stays 0), and ignores the
    error of [http.NewRequest] (the nil request then panics the tick). *)

Module Part000.

Definition getTerminalSize (sd : SpotifyDisplay) (w h : Z) : TerminalSize :=
  let x0 := GoInt.quo (GoInt.sub w sd.(minWidth)) 2 in
  let y0 := GoInt.sub (GoInt.sub h sd.(contentHeight)) sd.(margin) in
  let x :=
    if String.eqb sd.(horizontalAlign) "left" then sd.(margin)
    else if String.eqb sd.(horizontalAlign) "right"
         then GoInt.sub (GoInt.sub w sd.(minWidth)) sd.(margin)
    else x0 in
  let y :=
    if String.eqb sd.(verticalAlign) "top" then sd.(margin)
    else if String.eqb sd.(verticalAlign) "center"
         then GoInt.quo (GoInt.sub h sd.(contentHeight)) 2
    else y0 in
  {| width := w; height := h; startX := x; startY := y |}.

(** The type switch without [default]: the variable keeps its zero. *)
Definition int64OrZero (x : DValue) : Z :=
  match int64Of x with
  | Some v => v
  | None => 0
  end.

Definition getMetadata (rt : Runtime) (env : TickEnv) : Result Metadata :=
  match env.(metadataProp) with
  | ReplyErr e => Err e
  | ReplyVal variant =>
  match Value variant with
  | VDict metadata =>
      let position :=
        match env.(positionProp) with
        | ReplyVal v => Some v
        | ReplyErr _ => None
        end in
      match valueOf (lookup metadata "xesam:artist") with
      | VStrings artists =>
          let artist :=
            match artists with
            | a :: _ => a
            | [] => "Unknown Artist"
            end in
          raw <- VariantString rt (lookup metadata "mpris:artUrl") ;;
          let artURL := normalizeArtURL raw in
          let length := int64OrZero (valueOf (lookup metadata "mpris:length")) in
          let pos := int64OrZero (valueOf position) in
          title <- VariantString rt (lookup metadata "xesam:title") ;;
          Ok {| Title := title;
                Artist := artist;
                Album := "";
                Length := GoInt.quo length 1000000;
                Position := GoInt.quo pos 1000000;
                ArtURL := artURL |}
      | _ => Panic
      end
  | _ => Panic
  end end.

(** The remote branch sets a header on the request before it looks at
    anything: [req, _ := http.NewRequest(...)], [req.Header.Set(...)].  When
    the request could not be built, [req] is nil and the call panics, with
    nothing sent. *)
Definition downloadArtwork (env : TickEnv) (sd : SpotifyDisplay)
  (artURL : string) : list Effect * Result string :=
  if String.eqb artURL "" then ([], Ok "")
  else
    let imagePath := artworkPath sd in
    let finish (fx : list Effect) :=
      match env.(transferErr) with
      | Some e => (fx, Err e)
      | None => (fx, Ok imagePath)
      end in
    if GoStrings.HasPrefix artURL "/"
    then finish [CopyFile artURL imagePath]
    else
      match env.(transferErr), env.(requestNil) with
      | Some _, true => ([], Panic)
      | _, _ => finish [HttpGet artURL imagePath]
      end.

Definition displayImage (env : TickEnv) (imagePath : string) (x y : Z)
  : list Effect * Result unit :=
  match env.(displayEnv).(lookPath) with
  | None => ([], Err "chafa is not installed")
  | Some chafaPath =>
      ([Stdout (ESC ++ "7");
        Stdout (cursorTo (GoInt.add y 1) (GoInt.add x 1));
        Exec chafaPath (MainGo.chafaArgs imagePath);
        Stdout (ESC ++ "8")], Ok tt)
  end.

Definition barWidth : Z := 40.

(** The local [progress] of [drawProgressBar]: no test of [Length]. *)
Definition progress (rt : Runtime) (metadata : Metadata) : Z :=
  let p0 := GoFloat.to_int rt.(unrep)
              (GoFloat.mul
                 (GoFloat.div (GoFloat.of_int metadata.(Position))
                              (GoFloat.of_int metadata.(Length)))
                 (GoFloat.of_int barWidth)) in
  if p0 <? 0 then 0 else if barWidth <? p0 then barWidth else p0.

Definition bar (rt : Runtime) (metadata : Metadata) : string :=
  GoStrings.Repeat MainGo.filledGlyph (progress rt metadata)
  ++ GoStrings.Repeat MainGo.emptyGlyph
       (GoInt.sub barWidth (progress rt metadata)).

(** [fmt.Sprintf("%02d:%02d/%02d:%02d", ...)]. *)
Definition timeText (metadata : Metadata) : string :=
  Fmt.d02 (GoInt.quo metadata.(Position) 60) ++ ":"
  ++ Fmt.d02 (GoInt.rem metadata.(Position) 60) ++ "/"
  ++ Fmt.d02 (GoInt.quo metadata.(Length) 60) ++ ":"
  ++ Fmt.d02 (GoInt.rem metadata.(Length) 60).

Definition drawProgressBar (rt : Runtime) (metadata : Metadata)
  (term : TerminalSize) : list Effect :=
  let col := GoInt.add term.(startX) 20 in
  let r5 := GoInt.add term.(startY) 5 in
  let r6 := GoInt.add term.(startY) 6 in
  let tt := timeText metadata in
  [Stdout (cursorTo r5 col ++ GoStrings.Repeat " " 60);
   Stdout (cursorTo r6 col ++ GoStrings.Repeat " " 60);
   Stdout (cursorTo r5 col ++ bar rt metadata);
   Stdout (cursorTo r6
             (GoInt.add col
                (GoInt.quo (GoInt.sub barWidth (GoStrings.len tt)) 2))
           ++ tt)].

Definition handleKeyboard (sd : SpotifyDisplay) (event : TermboxEvent)
  : SpotifyDisplay * bool :=
  match event.(evKey) with
  | KeyArrowUp => (setVertical sd "top", true)
  | KeyArrowDown => (setVertical sd "bottom", true)
  | KeyArrowLeft => (setHorizontal sd "left", true)
  | KeyArrowRight => (setHorizontal sd "right", true)
  | KeyOther =>
      if Ascii.eqb event.(evCh) "c"%char
      then (setVertical (setHorizontal sd "center") "center", true)
      else (sd, false)
  end.

Definition drawTrackInfo (metadata : Metadata) (term : TerminalSize)
  : list Effect :=
  let col := GoInt.add term.(startX) 20 in
  [Stdout (cursorTo (GoInt.add term.(startY) 1) col ++ "♫ Now Playing");
   Stdout (cursorTo (GoInt.add term.(startY) 2) col ++ metadata.(Title));
   Stdout (cursorTo (GoInt.add term.(startY) 3) col
           ++ "by " ++ metadata.(Artist))].

Definition artworkDue (sd : SpotifyDisplay) (metadata : Metadata) : bool :=
  negb (String.eqb metadata.(ArtURL) sd.(currentArtURL))
  && negb (String.eqb metadata.(ArtURL) "").

(** The block [if metadata.ArtURL != sd.currentArtURL && ...]: an error
    of the download is dropped, a panic brings the tick down. *)
Definition updateArtwork (env : TickEnv) (sd : SpotifyDisplay)
  (metadata : Metadata) (term : TerminalSize)
  : SpotifyDisplay * list Effect * Status :=
  let sd' := setArtURL sd metadata.(ArtURL) in
  let '(fx, r) := downloadArtwork env sd' metadata.(ArtURL) in
  match r with
  | Ok imagePath =>
      (sd', fx ++ fst (displayImage env imagePath
                         term.(startX) term.(startY)), Running)
  | Err _ => (sd', fx, Running)
  | Panic => (sd', fx, Crashed)
  end.

Definition tick (rt : Runtime) (env : TickEnv) (sd : SpotifyDisplay)
  : SpotifyDisplay * list Effect * Status :=
  let term := getTerminalSize sd (fst env.(termSize)) (snd env.(termSize)) in
  match getMetadata rt env with
  | Panic => (sd, [], Crashed)
  | Err _ => (sd, [], Running)
  | Ok metadata =>
      let draw := drawTrackInfo metadata term
                  ++ drawProgressBar rt metadata term in
      if artworkDue sd metadata then
        let '(sd', fx, st) := updateArtwork env sd metadata term in
        (sd', draw ++ fx, st)
      else (sd, draw, Running)
  end.

Definition step (rt : Runtime) (sd : SpotifyDisplay) (ev : LoopEvent)
  : SpotifyDisplay * list Effect * Status :=
  match ev with
  | Keyboard event =>
      match event.(evType) with
      | EventKey =>
          if Ascii.eqb event.(evCh) "q"%char then (sd, [], Terminating)
          else
            let '(sd', redraw) := handleKeyboard sd event in
            if redraw then (setArtURL sd' "", clearScreen, Running)
            else (sd', [], Running)
      | EventOtherType => (sd, [], Running)
      end
  | Tick env => tick rt env sd
  | Signal => (sd, [], Terminating)
  end.

Fixpoint loop (rt : Runtime) (sd : SpotifyDisplay) (evs : list LoopEvent)
  : SpotifyDisplay * list Effect * Status :=
  match evs with
  | [] => (sd, [], Running)
  | ev :: evs' =>
      let '(sd', fx, st) := step rt sd ev in
      match st with
      | Running =>
          let '(sd'', fx', st') := loop rt sd' evs' in
          (sd'', fx ++ fx', st')
      | _ => (sd', fx, st)
      end
  end.

(** [Run]: no log file in this file. *)
Definition Run (rt : Runtime) (initErr : option string)
  (sd : SpotifyDisplay) (evs : list LoopEvent)
  : SpotifyDisplay * list Effect * Status :=
  match initErr with
  | Some _ => (sd, [TermboxInit], Terminating)
  | None =>
      let pre := [TermboxInit] ++ hideCursor ++ clearScreen in
      let post := showCursor ++ [TermboxClose] in
      let '(sd', fx, st) := loop rt sd evs in
      match st with
      | Running => (sd', pre ++ fx, Running)
      | _ => (sd', pre ++ fx ++ post, st)
      end
  end.

(** [NewSpotifyDisplay]: only the session bus can make it fail. *)
Definition NewSpotifyDisplay (env : StartupEnv) : Result SpotifyDisplay :=
  match env.(busErr) with
  | Some e => Err e
  | None => Ok (NewSpotifyDisplay env.(cachePath))
  end.

Definition main (rt : Runtime) (env : StartupEnv) (evs : list LoopEvent)
  : list Effect * Exit :=
  if negb env.(spotifyRunning) then
    ([MainGo.pgrep;
      Stdout ("Spotify is not running. Please start Spotify first."
              ++ newline)], Exited 0)
  else
    match NewSpotifyDisplay env with
    | Err e => ([MainGo.pgrep; Log e], Exited 1)
    | Panic => ([MainGo.pgrep], Panicked)
    | Ok display =>
        let '(_, fx, st) := Run rt env.(termboxErr) display evs in
        match env.(termboxErr) with
        | Some e => (MainGo.pgrep :: fx ++ [Log e], Exited 1)
        | None =>
            match st with
            | Running => (MainGo.pgrep :: fx, StillRunning)
            | Terminating =>
                (MainGo.pgrep :: fx ++ clearScreen ++ showCursor, Exited 0)
            | Crashed => (MainGo.pgrep :: fx, Panicked)
            end
        end
    end.

End Part000.

(** * Specification-level definitions

    The predicates and reference functions the properties are stated
    with, and sample inputs. *)

(** ** Layout laws *)

(** Integers far enough from the ends of the 64-bit range for a difference
    of three of them not to wrap. *)
Definition small (z : Z) : Prop := - 2 ^ 61 <= z <= 2 ^ 61.

Definition hAligned (sd : SpotifyDisplay) : Prop :=
  sd.(horizontalAlign) = "left" \/ sd.(horizontalAlign) = "center"
  \/ sd.(horizontalAlign) = "right".

Definition vAligned (sd : SpotifyDisplay) : Prop :=
  sd.(verticalAlign) = "top" \/ sd.(verticalAlign) = "center"
  \/ sd.(verticalAlign) = "bottom".

(** The layout of the specification, on mathematical integers. *)
Definition originX_spec (sd : SpotifyDisplay) (w : Z) : Z :=
  if String.eqb sd.(horizontalAlign) "left" then sd.(margin)
  else if String.eqb sd.(horizontalAlign) "right"
       then w - sd.(minWidth) - sd.(margin)
  else Z.quot (w - sd.(minWidth)) 2.

Definition originY_spec (sd : SpotifyDisplay) (h : Z) : Z :=
  if String.eqb sd.(verticalAlign) "top" then sd.(margin)
  else if String.eqb sd.(verticalAlign) "bottom"
       then h - sd.(contentHeight) - sd.(margin)
  else Z.quot (h - sd.(contentHeight)) 2.

(** The laws of the layout for a computed geometry [t]: the origin of each
    axis is the margin, the far edge less the margin, or the truncated half
    of the free space, as the alignment says, and nothing lifts a negative
    origin to zero. *)
Definition origin_laws (sd : SpotifyDisplay) (w h : Z) (t : TerminalSize)
  : Prop :=
  (sd.(horizontalAlign) = "left" -> t.(startX) = sd.(margin))
  /\ (sd.(horizontalAlign) = "right" ->
      t.(startX) = w - sd.(minWidth) - sd.(margin))
  /\ (sd.(horizontalAlign) = "center" ->
      t.(startX) = Z.quot (w - sd.(minWidth)) 2)
  /\ (sd.(verticalAlign) = "top" -> t.(startY) = sd.(margin))
  /\ (sd.(verticalAlign) = "bottom" ->
      t.(startY) = h - sd.(contentHeight) - sd.(margin))
  /\ (sd.(verticalAlign) = "center" ->
      t.(startY) = Z.quot (h - sd.(contentHeight)) 2)
  /\ (sd.(horizontalAlign) = "right" ->
      w < sd.(minWidth) + sd.(margin) -> t.(startX) < 0)
  /\ (sd.(horizontalAlign) = "center" ->
      w <= sd.(minWidth) - 2 -> t.(startX) < 0)
  /\ (sd.(verticalAlign) = "bottom" ->
      h < sd.(contentHeight) + sd.(margin) -> t.(startY) < 0)
  /\ (sd.(verticalAlign) = "center" ->
      h <= sd.(contentHeight) - 2 -> t.(startY) < 0).

(** The alignments the keyboard handler can produce. *)
Definition aligned (sd : SpotifyDisplay) : Prop := hAligned sd /\ vAligned sd.

(** ** Time labels and quote runs *)

Definition digitChar (n : Z) : ascii := ascii_of_nat (48 + Z.to_nat n).

(** The two decimal digits of a number below 100. *)
Definition twoDigits (n : Z) : string :=
  String (digitChar (n / 10)) (String (digitChar (n mod 10)) EmptyString).

(** A run of [n] bytes [c]. *)
Definition run (c : ascii) (n : nat) : string :=
  GoStrings.repeat_nat (String c EmptyString) n.

Definition firstIsNot (c : ascii) (s : string) : Prop :=
  match s with
  | String a _ => a <> c
  | EmptyString => True
  end.

Fixpoint lastIsNot (c : ascii) (s : string) : Prop :=
  match s with
  | EmptyString => True
  | String a EmptyString => a <> c
  | String _ s' => lastIsNot c s'
  end.

(** ** Delivered values and sample replies *)

(** The 64 bits of a delivered integer read as a signed number. *)
Definition signed64 (x : DValue) : option Z :=
  match x with
  | VInt64 v => Some v
  | VUint64 v => Some (if v <? 2 ^ 63 then v else v - 2 ^ 64)
  | _ => None
  end.

(** The length and position values the bus delivered on a tick. *)
Definition deliveredLength (env : TickEnv) : DValue :=
  match env.(metadataProp) with
  | ReplyVal (MkVariant (VDict metadata) _) =>
      valueOf (lookup metadata "mpris:length")
  | _ => VNil
  end.

Definition deliveredPosition (env : TickEnv) : DValue :=
  match env.(positionProp) with
  | ReplyVal v => Value v
  | ReplyErr _ => VNil
  end.

(** Sample replies: a track with the given length, position, art-URL
    rendering and outcome of the artwork transfer. *)
Definition quoted (s : string) : string :=
  String quoteChar (s ++ String quoteChar EmptyString).

Definition sampleDict (lengthV : DValue) (art : string)
  : list (string * Variant) :=
  [("xesam:title", MkVariant (VOther "string") (quoted "Song"));
   ("xesam:album", MkVariant (VOther "string") (quoted "Album"));
   ("xesam:artist", MkVariant (VStrings ["Band"]) "[Band]");
   ("mpris:length", MkVariant lengthV "");
   ("mpris:artUrl", MkVariant (VOther "string") art)].

Definition sampleDisplayEnv : DisplayEnv :=
  {| statErr := None; fileSize := 1024;
     lookPath := Some "/usr/bin/chafa"; runErr := None |}.

Definition sampleEnv (lengthV posV : DValue) (art : string)
  (terr : option string) : TickEnv :=
  {| termSize := (80, 24);
     metadataProp := ReplyVal (MkVariant (VDict (sampleDict lengthV art)) "");
     positionProp := ReplyVal (MkVariant posV "");
     transferErr := terr;
     requestNil := false;
     displayEnv := sampleDisplayEnv |}.

Definition failingEnv : TickEnv :=
  {| termSize := (80, 24);
     metadataProp := ReplyErr "no reply";
     positionProp := ReplyErr "no reply";
     transferErr := None;
     requestNil := false;
     displayEnv := sampleDisplayEnv |}.

Definition rt_amd64 : Runtime :=
  {| unrep := GoFloat.unrep_amd64; zeroVariantString := None |}.

Definition rt_arm64 : Runtime :=
  {| unrep := GoFloat.unrep_arm64; zeroVariantString := None |}.

(** A record with the given length and position. *)
Definition sampleTrack (len pos : Z) : Metadata :=
  {| Title := "Song"; Artist := "Band"; Album := "Album";
     Length := len; Position := pos; ArtURL := "" |}.

(** The claim of non-negative seconds, on the outcome of [getMetadata]. *)
Definition secondsNonneg (r : Result Metadata) : Prop :=
  match r with
  | Ok md => 0 <= md.(Length) /\ 0 <= md.(Position)
  | _ => True
  end.

(** ** Effects of a tick *)

(** The two events that end the loop: a termination signal and the quit key. *)
Definition isQuit (ev : LoopEvent) : Prop :=
  ev = Signal
  \/ exists e, ev = Keyboard e /\ e.(evType) = EventKey
                /\ e.(evCh) = "q"%char.

Definition drawing (fx : list Effect) : list Effect := filter isStdout fx.

Definition fetchCount (fx : list Effect) : nat := List.length (filter isFetch fx).

(** The claim that a failed fetch leaves the cache slot as it was, for one
    tick of [src/main.go]. *)
Definition slotUnchangedOnFailedFetch (rt : Runtime) (env : TickEnv)
  (sd : SpotifyDisplay) : Prop :=
  forall md,
    snd (MainGo.getMetadata rt env) = Ok md ->
    MainGo.artworkDue sd md = true ->
    (exists e, snd (MainGo.downloadArtwork env (setArtURL sd md.(ArtURL))
                      md.(ArtURL)) = Err e) ->
    (fst (fst (MainGo.tick rt env sd))).(currentArtURL) = sd.(currentArtURL).

(** A tick whose metadata fetch succeeds with art reference [u]. *)
Definition presents (rt : Runtime) (u : string) (env : TickEnv) : Prop :=
  exists logs md, MainGo.getMetadata rt env = (logs, Ok md) /\ md.(ArtURL) = u.

(** The same for [src/unnamed/part_000]. *)
Definition presentsPart (rt : Runtime) (u : string) (env : TickEnv) : Prop :=
  exists md, Part000.getMetadata rt env = Ok md /\ md.(ArtURL) = u.

(** ** Rounding to binary64 *)

(** Values are compared as integers on a fixed-point scale: a float of
    mantissa [m] and exponent [e >= -bias] has the value [fval m e / 2^bias]. *)
Definition bias : Z := 200.

Definition ulp (e : Z) : Z := 2 ^ (e + bias).

Definition fval (m e : Z) : Z := m * ulp e.

Definition fixedOne : Z := 2 ^ bias.

Definition B52 : Z := 2 ^ 52.

(** [located N D m e r s]: the positive rational [N / D] lies in
    [[m, m+1)] units of exponent [e], and the round bit [r] and sticky bit
    [s] tell where: on [m], below the middle, on it, or above it. *)
Definition located (N D m e : Z) (r s : bool) : Prop :=
  0 <= N * fixedOne - m * (ulp e * D) < ulp e * D
  /\ match r, s with
     | false, false => N * fixedOne - m * (ulp e * D) = 0
     | false, true => 0 < 2 * (N * fixedOne - m * (ulp e * D)) < ulp e * D
     | true, false => 2 * (N * fixedOne - m * (ulp e * D)) = ulp e * D
     | true, true => ulp e * D < 2 * (N * fixedOne - m * (ulp e * D))
     end.

(** The rounding decision of [binary_round_aux] on a shifted mantissa. *)
Definition rounded (m : Z) (r s : bool) : Z :=
  round_nearest_even m (loc_of_shr_record (Build_shr_record m r s)).

(** [rne_val N D m e]: the float of mantissa [m] and exponent [e] is the
    rounding to nearest, ties to even, of the positive rational [N / D] to
    53 significant bits. *)
Definition rne_val (N D m e : Z) : Prop :=
  exists m0 e0 r s,
    - bias <= e0 /\ B52 <= m0 < 2 * B52 /\ located N D m0 e0 r s
    /\ - bias <= e /\ fval m e = fval (rounded m0 r s) e0.

(** A canonical positive float: 53 significant bits. *)
Definition canonical (m : positive) : Prop := B52 <= Z.pos m < 2 * B52.

(** The float of the fill count: [float64(a) / float64(b) * float64(40)]. *)
Definition fillFloat (a b : Z) : GoFloat.float64 :=
  GoFloat.mul (GoFloat.div (GoFloat.of_int a) (GoFloat.of_int b))
              (GoFloat.of_int 40).

(** The nearest integer to [a / b], for [a >= 0] and [b > 0]. *)
Definition nearest (a b : Z) : Z := (2 * a + b) / (2 * b).

(** The fill count the claim of rounding would give: the nearest integer
    to [40 * Position / Length], clamped to the bar. *)
Definition roundedFill (md : Metadata) : Z :=
  Z.max 0 (Z.min 40 (nearest (40 * md.(Position)) md.(Length))).

(** ** Replies on which the two files part

    A metadata reply without an art-URL entry; a tick on which the
    metadata query succeeds and the position query fails; a metadata reply
    that is no dictionary; a CDN address the HTTP library cannot parse. *)

Definition noArtEnv : TickEnv :=
  {| termSize := (80, 24);
     metadataProp :=
       ReplyVal (MkVariant
         (VDict [("xesam:title", MkVariant (VOther "string") (quoted "Song"));
                 ("xesam:album", MkVariant (VOther "string") (quoted "Album"));
                 ("xesam:artist", MkVariant (VStrings ["Band"]) "[Band]");
                 ("mpris:length", MkVariant (VInt64 240000000) "")]) "");
     positionProp := ReplyVal (MkVariant (VInt64 0) "");
     transferErr := None;
     requestNil := false;
     displayEnv := sampleDisplayEnv |}.

Definition positionFailsEnv : TickEnv :=
  {| termSize := (80, 24);
     metadataProp :=
       ReplyVal (MkVariant (VDict (sampleDict (VInt64 240000000) "")) "");
     positionProp := ReplyErr "no reply";
     transferErr := None;
     requestNil := false;
     displayEnv := sampleDisplayEnv |}.

Definition badShapeEnv : TickEnv :=
  {| termSize := (80, 24);
     metadataProp := ReplyVal (MkVariant (VOther "string") (quoted "none"));
     positionProp := ReplyVal (MkVariant (VInt64 0) "");
     transferErr := None;
     requestNil := false;
     displayEnv := sampleDisplayEnv |}.

Definition nilRequestEnv : TickEnv :=
  {| termSize := (80, 24);
     metadataProp :=
       ReplyVal (MkVariant
         (VDict (sampleDict (VInt64 240000000)
                   (quoted "https://i.scdn.co/image/%zz"))) "");
     positionProp := ReplyVal (MkVariant (VInt64 0) "");
     transferErr := Some "invalid URL escape";
     requestNil := true;
     displayEnv := sampleDisplayEnv |}.

(** A start-up on which every step succeeds. *)
Definition sampleStartup : StartupEnv :=
  {| spotifyRunning := true; homeDirErr := None; cachePath := "/c";
     mkdirErr := None; busErr := None; termboxErr := None;
     logFileErr := None |}.

(** ** The request that could not be built *)

(** The tick's transfer is the remote one and fails in [http.NewRequest]:
    the case in which [src/unnamed/part_000] panics. *)
Definition nilRequest (env : TickEnv) (artURL : string) : bool :=
  negb (GoStrings.HasPrefix artURL "/")
  && match env.(transferErr) with
     | Some _ => env.(requestNil)
     | None => false
     end.

(** The transfer a due tick attempts for the reference [artURL]. *)
Definition fetchOf (sd : SpotifyDisplay) (artURL : string) : Effect :=
  if GoStrings.HasPrefix artURL "/"
  then CopyFile artURL (artworkPath sd)
  else HttpGet artURL (artworkPath sd).

(** The renderer [displayImage] of [src/main.go] would run on the cached
    file: the file is there and not empty, and chafa is found. *)
Definition mainRenderer (env : TickEnv) : option string :=
  match env.(displayEnv).(statErr) with
  | Some _ => None
  | None =>
      if env.(displayEnv).(fileSize) =? 0 then None
      else env.(displayEnv).(lookPath)
  end.

(** ** Events, effects and start-up

    Sample key events, selections among the effects, and the predicates
    the properties of the loop, of the transfers and of [main] are stated
    with. *)

(** A key event of an arrow or other key, and of a character. *)
Definition keyPress (k : Key) : TermboxEvent :=
  {| evType := EventKey; evKey := k; evCh := zero |}.

Definition charPress (c : ascii) : TermboxEvent :=
  {| evType := EventKey; evKey := KeyOther; evCh := c |}.

(** Events the loop has no case for: events that are not key events, and
    keys other than the arrows, [c] and [q]. *)
Definition inert (ev : LoopEvent) : bool :=
  match ev with
  | Keyboard e =>
      match e.(evType) with
      | EventOtherType => true
      | EventKey =>
          match e.(evKey) with
          | KeyOther =>
              negb (Ascii.eqb e.(evCh) "c") && negb (Ascii.eqb e.(evCh) "q")
          | _ => false
          end
      end
  | _ => false
  end.

(** The file an artwork transfer writes. *)
Definition fetchDst (e : Effect) : option string :=
  match e with
  | CopyFile _ d | HttpGet _ d => Some d
  | _ => None
  end.

Definition writesOnly (path : string) (e : Effect) : Prop :=
  match fetchDst e with
  | Some d => d = path
  | None => True
  end.

(** The fields a loop iteration never writes. *)
Definition sameInstallation (a b : SpotifyDisplay) : Prop :=
  a.(cacheDir) = b.(cacheDir) /\ a.(minWidth) = b.(minWidth)
  /\ a.(contentHeight) = b.(contentHeight) /\ a.(margin) = b.(margin).

Definition transfers (fx : list Effect) : list Effect := filter isFetch fx.

Definition isExec (e : Effect) : bool :=
  match e with Exec _ _ => true | _ => false end.

(** The external commands among the effects. *)
Definition commands (fx : list Effect) : list Effect := filter isExec fx.

(** What reaches the terminal when the renderer is run at [(x, y)]: save
    the cursor, go to the origin of the block, restore the cursor. *)
Definition renderBracket (x y : Z) : list Effect :=
  [Stdout (ESC ++ "7"); Stdout (cursorTo (GoInt.add y 1) (GoInt.add x 1));
   Stdout (ESC ++ "8")].

(** The dictionary of the metadata reply has an entry [mpris:artUrl]. *)
Definition hasArtUrl (env : TickEnv) : Prop :=
  match env.(metadataProp) with
  | ReplyVal (MkVariant (VDict metadata) _) =>
      lookup metadata "mpris:artUrl" <> None
  | _ => False
  end.

Definition withoutAlbum (md : Metadata) : Metadata :=
  {| Title := md.(Title); Artist := md.(Artist); Album := "";
     Length := md.(Length); Position := md.(Position);
     ArtURL := md.(ArtURL) |}.

(** The bytes the effects send to the terminal, in order. *)
Fixpoint stdoutBytes (fx : list Effect) : string :=
  match fx with
  | [] => ""
  | Stdout s :: fx' => s ++ stdoutBytes fx'
  | _ :: fx' => stdoutBytes fx'
  end.

(** The same geometry, one column further right. *)
Definition shiftRight (term : TerminalSize) : TerminalSize :=
  {| width := term.(width); height := term.(height);
     startX := GoInt.add term.(startX) 1; startY := term.(startY) |}.

(** An external command is the renderer on the file [path]. *)
Definition rendersOnly (path : string) (e : Effect) : Prop :=
  match e with
  | Exec _ args =>
      args = ["--size=18x18"; "--symbols=block"; "--colors=256"; path]
  | TermboxInit | TermboxClose => False
  | _ => True
  end.

(** Some start-up step of [src/main.go] fails. *)
Definition startupFails (env : StartupEnv) : Prop :=
  env.(homeDirErr) <> None \/ env.(mkdirErr) <> None
  \/ env.(busErr) <> None \/ env.(termboxErr) <> None
  \/ env.(logFileErr) <> None.

Definition isTermbox (e : Effect) : bool :=
  match e with TermboxInit | TermboxClose => true | _ => false end.

(** The run of spaces [drawProgressBar] prints to blank a row. *)
Definition blankRun : string := GoStrings.Repeat " " 60.

(** * Properties *)

(** ** Machine integers *)

Lemma wrap64_small (z : Z) : GoInt.in_int64 z -> GoInt.wrap64 z = z.
Proof.
  unfold GoInt.in_int64, GoInt.min_int64, GoInt.max_int64, GoInt.wrap64.
  intros H. rewrite Z.mod_small; lia.
Qed.

Lemma wrap64_range (z : Z) : GoInt.in_int64 (GoInt.wrap64 z).
Proof.
  unfold GoInt.in_int64, GoInt.min_int64, GoInt.max_int64, GoInt.wrap64.
  pose proof (Z.mod_pos_bound (z + 2 ^ 63) (2 ^ 64) ltac:(lia)). lia.
Qed.

Lemma quo_small (a b : Z) :
  GoInt.in_int64 a -> 0 < b -> GoInt.quo a b = Z.quot a b.
Proof.
  intros Ha Hb. unfold GoInt.quo. apply wrap64_small.
  unfold GoInt.in_int64, GoInt.min_int64, GoInt.max_int64 in *.
  destruct (Z.le_gt_cases 0 a) as [H0 | H0].
  - pose proof (Z.quot_pos a b H0 Hb).
    assert (Z.quot a b <= a) by (apply Z.quot_le_upper_bound; nia). lia.
  - assert (Hq : Z.quot a b = - Z.quot (- a) b).
    { rewrite Z.quot_opp_l by lia. lia. }
    pose proof (Z.quot_pos (- a) b ltac:(lia) Hb).
    assert (Z.quot (- a) b <= - a) by (apply Z.quot_le_upper_bound; nia). lia.
Qed.

Lemma sub_small (a b : Z) :
  GoInt.in_int64 (a - b) -> GoInt.sub a b = a - b.
Proof. apply wrap64_small. Qed.

(** ** Layout *)

Lemma main_startX_math (sd : SpotifyDisplay) (w h : Z) :
  small w -> small sd.(minWidth) -> small sd.(margin) ->
  (MainGo.getTerminalSize sd w h).(startX) = originX_spec sd w.
Proof.
  unfold small, originX_spec, MainGo.getTerminalSize. cbn [startX].
  intros Hw Hm Hg.
  assert (H1 : GoInt.sub w sd.(minWidth) = w - sd.(minWidth)).
  { apply sub_small. unfold GoInt.in_int64, GoInt.min_int64, GoInt.max_int64. lia. }
  rewrite H1.
  destruct (String.eqb _ "left"); [reflexivity|].
  destruct (String.eqb _ "right").
  - apply sub_small. unfold GoInt.in_int64, GoInt.min_int64, GoInt.max_int64. lia.
  - apply quo_small; [|lia].
    unfold GoInt.in_int64, GoInt.min_int64, GoInt.max_int64. lia.
Qed.

Lemma main_startY_math (sd : SpotifyDisplay) (w h : Z) :
  small h -> small sd.(contentHeight) -> small sd.(margin) ->
  (MainGo.getTerminalSize sd w h).(startY) = originY_spec sd h.
Proof.
  unfold small, originY_spec, MainGo.getTerminalSize. cbn [startY].
  intros Hw Hm Hg.
  assert (H1 : GoInt.sub h sd.(contentHeight) = h - sd.(contentHeight)).
  { apply sub_small. unfold GoInt.in_int64, GoInt.min_int64, GoInt.max_int64. lia. }
  rewrite H1.
  destruct (String.eqb _ "top"); [reflexivity|].
  destruct (String.eqb _ "bottom").
  - apply sub_small. unfold GoInt.in_int64, GoInt.min_int64, GoInt.max_int64. lia.
  - apply quo_small; [|lia].
    unfold GoInt.in_int64, GoInt.min_int64, GoInt.max_int64. lia.
Qed.

(** The two files compute the same horizontal origin on every input. *)
Lemma startX_agree (sd : SpotifyDisplay) (w h : Z) :
  (MainGo.getTerminalSize sd w h).(startX)
  = (Part000.getTerminalSize sd w h).(startX).
Proof. reflexivity. Qed.

Lemma startY_agree (sd : SpotifyDisplay) (w h : Z) :
  vAligned sd ->
  (MainGo.getTerminalSize sd w h).(startY)
  = (Part000.getTerminalSize sd w h).(startY).
Proof.
  unfold vAligned, MainGo.getTerminalSize, Part000.getTerminalSize.
  cbn [startY]. intros [H | [H | H]]; rewrite H; reflexivity.
Qed.

Lemma getTerminalSize_agree (sd : SpotifyDisplay) (w h : Z) :
  vAligned sd ->
  MainGo.getTerminalSize sd w h = Part000.getTerminalSize sd w h.
Proof.
  intros Hv. pose proof (startY_agree sd w h Hv) as Hy.
  unfold MainGo.getTerminalSize, Part000.getTerminalSize in *.
  cbn [startY] in Hy. f_equal. exact Hy.
Qed.

Lemma quot2_neg (a : Z) : a <= -2 -> Z.quot a 2 < 0.
Proof.
  intros H. assert (Hq : Z.quot a 2 = - Z.quot (- a) 2).
  { rewrite Z.quot_opp_l by lia. lia. }
  assert (1 <= Z.quot (- a) 2).
  { apply Z.quot_le_lower_bound; lia. }
  lia.
Qed.

Lemma origin_laws_of_spec (sd : SpotifyDisplay) (w h : Z) (t : TerminalSize) :
  t.(startX) = originX_spec sd w ->
  t.(startY) = originY_spec sd h ->
  origin_laws sd w h t.
Proof.
  intros Hx Hy. unfold origin_laws, originX_spec, originY_spec in *.
  repeat split; intros E; rewrite E in *; cbn in Hx, Hy;
    try intros Hlt; rewrite ?Hx, ?Hy; try reflexivity; try lia;
    apply quot2_neg; lia.
Qed.

(** C4.  For every terminal size and configuration (within the range where
    the 64-bit subtractions do not wrap), the origin computed by
    [getTerminalSize] of [src/main.go] obeys the layout laws: left gives the
    margin, right gives width - minWidth - margin, center gives
    (width - minWidth) / 2 truncated, the same vertically with height and
    contentHeight, and negative origins are not clamped.  The variant of
    [src/unnamed/part_000] obeys the same laws whenever the vertical
    alignment is one of top, center, bottom. *)
Theorem getTerminalSize_origin_laws (sd : SpotifyDisplay) (w h : Z) :
  small w -> small h ->
  small sd.(minWidth) -> small sd.(contentHeight) -> small sd.(margin) ->
  origin_laws sd w h (MainGo.getTerminalSize sd w h)
  /\ (vAligned sd -> origin_laws sd w h (Part000.getTerminalSize sd w h)).
Proof.
  intros Hw Hh Hm Hc Hg.
  assert (Hmain : origin_laws sd w h (MainGo.getTerminalSize sd w h)).
  { apply origin_laws_of_spec.
    - now apply main_startX_math.
    - now apply main_startY_math. }
  split; [exact Hmain|].
  intros Hv. rewrite <- getTerminalSize_agree by exact Hv. exact Hmain.
Qed.

Lemma getTerminalSize_origin_laws_witness :
  origin_laws (NewSpotifyDisplay "/c") 40 5
    (MainGo.getTerminalSize (NewSpotifyDisplay "/c") 40 5)
  /\ (MainGo.getTerminalSize (NewSpotifyDisplay "/c") 40 5).(startX) = -10
  /\ (MainGo.getTerminalSize (NewSpotifyDisplay "/c") 40 5).(startY) = -6.
Proof.
  split.
  - refine (proj1 (getTerminalSize_origin_laws (NewSpotifyDisplay "/c") 40 5
                     _ _ _ _ _));
      unfold small; cbn -[Z.pow]; lia.
  - split; reflexivity.
Defined.

(** ** What one loop iteration can change *)

Lemma setArtURL_same (sd : SpotifyDisplay) :
  setArtURL sd sd.(currentArtURL) = sd.
Proof. destruct sd; reflexivity. Qed.

Lemma setArtURL_twice (sd : SpotifyDisplay) (u v : string) :
  setArtURL (setArtURL sd u) v = setArtURL sd v.
Proof. reflexivity. Qed.

(** A tick changes nothing of the display but the cache slot. *)
Lemma main_updateArtwork_state env sd md term :
  fst (MainGo.updateArtwork env sd md term) = setArtURL sd md.(ArtURL).
Proof.
  unfold MainGo.updateArtwork.
  destruct (MainGo.downloadArtwork env _ _) as [fx [p | e |]]; cbn [fst];
    try reflexivity.
  destruct (String.eqb p ""); [reflexivity|].
  destruct (MainGo.displayImage env p _ _) as [fx2 [u | e |]]; reflexivity.
Qed.

Lemma part_updateArtwork_state env sd md term :
  fst (fst (Part000.updateArtwork env sd md term))
  = setArtURL sd md.(ArtURL).
Proof.
  unfold Part000.updateArtwork.
  destruct (Part000.downloadArtwork env _ _) as [fx [p | e |]]; reflexivity.
Qed.

Lemma main_tick_state rt env sd :
  fst (fst (MainGo.tick rt env sd))
  = setArtURL sd (fst (fst (MainGo.tick rt env sd))).(currentArtURL).
Proof.
  unfold MainGo.tick.
  destruct (MainGo.getMetadata rt env) as [logs [md | e |]]; cbn [fst];
    try (symmetry; apply setArtURL_same).
  destruct (MainGo.artworkDue sd md); cbn [fst];
    try (symmetry; apply setArtURL_same).
  pose proof (main_updateArtwork_state env sd md
                (MainGo.getTerminalSize sd (fst (termSize env)) (snd (termSize env)))) as H.
  destruct (MainGo.updateArtwork env sd md _) as [sd' fx]. cbn [fst] in *.
  subst sd'. reflexivity.
Qed.

Lemma part_tick_state rt env sd :
  fst (fst (Part000.tick rt env sd))
  = setArtURL sd (fst (fst (Part000.tick rt env sd))).(currentArtURL).
Proof.
  unfold Part000.tick.
  destruct (Part000.getMetadata rt env) as [md | e |]; cbn [fst];
    try (symmetry; apply setArtURL_same).
  destruct (Part000.artworkDue sd md); cbn [fst];
    try (symmetry; apply setArtURL_same).
  pose proof (part_updateArtwork_state env sd md
                (Part000.getTerminalSize sd (fst (termSize env)) (snd (termSize env)))) as H.
  destruct (Part000.updateArtwork env sd md _) as [[sd' fx] st].
  cbn [fst] in *. subst sd'. reflexivity.
Qed.

Lemma aligned_setArtURL sd u : aligned sd -> aligned (setArtURL sd u).
Proof. intros H; exact H. Qed.

Lemma aligned_New dir : aligned (NewSpotifyDisplay dir).
Proof. split; [right; left | right; right]; reflexivity. Qed.

Lemma main_handleKeyboard_aligned sd ev :
  aligned sd -> aligned (fst (MainGo.handleKeyboard sd ev)).
Proof.
  intros [Hh Hv]. unfold MainGo.handleKeyboard.
  destruct (evKey ev); destruct (Ascii.eqb (evCh ev) "c"); cbn [fst];
    unfold aligned, hAligned, vAligned in *; cbn; tauto.
Qed.

Lemma part_handleKeyboard_aligned sd ev :
  aligned sd -> aligned (fst (Part000.handleKeyboard sd ev)).
Proof.
  intros [Hh Hv]. unfold Part000.handleKeyboard.
  destruct (evKey ev); try destruct (Ascii.eqb (evCh ev) "c"); cbn [fst];
    unfold aligned, hAligned, vAligned in *; cbn; tauto.
Qed.

Lemma main_step_aligned rt sd ev :
  aligned sd -> aligned (fst (fst (MainGo.step rt sd ev))).
Proof.
  intros H. destruct ev as [e | env |]; cbn [MainGo.step].
  - destruct (evType e); [|exact H].
    destruct (Ascii.eqb (evCh e) "q"); [exact H|].
    pose proof (main_handleKeyboard_aligned sd e H) as Hk.
    destruct (MainGo.handleKeyboard sd e) as [sd' [|]]; exact Hk.
  - rewrite main_tick_state. apply aligned_setArtURL, H.
  - exact H.
Qed.

Lemma part_step_aligned rt sd ev :
  aligned sd -> aligned (fst (fst (Part000.step rt sd ev))).
Proof.
  intros H. destruct ev as [e | env |]; cbn [Part000.step].
  - destruct (evType e); [|exact H].
    destruct (Ascii.eqb (evCh e) "q"); [exact H|].
    pose proof (part_handleKeyboard_aligned sd e H) as Hk.
    destruct (Part000.handleKeyboard sd e) as [sd' [|]]; exact Hk.
  - rewrite part_tick_state. apply aligned_setArtURL, H.
  - exact H.
Qed.

Lemma main_loop_aligned rt evs : forall sd,
  aligned sd -> aligned (fst (fst (MainGo.loop rt sd evs))).
Proof.
  induction evs as [| ev evs IH]; intros sd H; [exact H|].
  cbn [MainGo.loop].
  pose proof (main_step_aligned rt sd ev H) as Hs.
  destruct (MainGo.step rt sd ev) as [[sd' fx] st]. cbn [fst] in Hs.
  destruct st; try exact Hs.
  specialize (IH sd' Hs).
  destruct (MainGo.loop rt sd' evs) as [[sd'' fx'] st']. exact IH.
Qed.

Lemma part_loop_aligned rt evs : forall sd,
  aligned sd -> aligned (fst (fst (Part000.loop rt sd evs))).
Proof.
  induction evs as [| ev evs IH]; intros sd H; [exact H|].
  cbn [Part000.loop].
  pose proof (part_step_aligned rt sd ev H) as Hs.
  destruct (Part000.step rt sd ev) as [[sd' fx] st]. cbn [fst] in Hs.
  destruct st; try exact Hs.
  specialize (IH sd' Hs).
  destruct (Part000.loop rt sd' evs) as [[sd'' fx'] st']. exact IH.
Qed.

(** Outside top, center, bottom the two files take different defaults. *)
Lemma startY_defaults (sd : SpotifyDisplay) (w h : Z) :
  ~ vAligned sd ->
  (MainGo.getTerminalSize sd w h).(startY)
  = GoInt.quo (GoInt.sub h sd.(contentHeight)) 2
  /\ (Part000.getTerminalSize sd w h).(startY)
     = GoInt.sub (GoInt.sub h sd.(contentHeight)) sd.(margin).
Proof.
  unfold vAligned, MainGo.getTerminalSize, Part000.getTerminalSize.
  cbn [startY]. intros Hn.
  destruct (String.eqb_spec sd.(verticalAlign) "top") as [E | _]; [tauto|].
  destruct (String.eqb_spec sd.(verticalAlign) "bottom") as [E | _]; [tauto|].
  destruct (String.eqb_spec sd.(verticalAlign) "center") as [E | _]; [tauto|].
  split; reflexivity.
Qed.

(** C10.  [getTerminalSize] of [src/main.go] and of [src/unnamed/part_000]
    return the same geometry for every terminal size when the horizontal
    alignment is left, center or right and the vertical one is top, center
    or bottom; these are the only alignments the loop reaches from the
    defaults through the keyboard handler.  Outside that domain the
    horizontal origins still agree, and the vertical origin is the center
    formula in [src/main.go] but the bottom formula in
    [src/unnamed/part_000], which differ for instance on a terminal of 24
    rows. *)
Theorem getTerminalSize_variants_agree :
  (forall sd w h, hAligned sd -> vAligned sd ->
     MainGo.getTerminalSize sd w h = Part000.getTerminalSize sd w h)
  /\ (forall rt dir evs,
        aligned (fst (fst (MainGo.loop rt (NewSpotifyDisplay dir) evs)))
        /\ aligned (fst (fst (Part000.loop rt (NewSpotifyDisplay dir) evs))))
  /\ (forall sd w h, ~ vAligned sd ->
        (MainGo.getTerminalSize sd w h).(startX)
        = (Part000.getTerminalSize sd w h).(startX)
        /\ (MainGo.getTerminalSize sd w h).(startY)
           = GoInt.quo (GoInt.sub h sd.(contentHeight)) 2
        /\ (Part000.getTerminalSize sd w h).(startY)
           = GoInt.sub (GoInt.sub h sd.(contentHeight)) sd.(margin))
  /\ (let sd := setVertical (NewSpotifyDisplay "/c") "middle" in
      ~ vAligned sd
      /\ (MainGo.getTerminalSize sd 80 24).(startY) = 7
      /\ (Part000.getTerminalSize sd 80 24).(startY) = 13).
Proof.
  split; [|split; [|split]].
  - intros sd w h _ Hv. now apply getTerminalSize_agree.
  - intros rt dir evs. split.
    + apply main_loop_aligned, aligned_New.
    + apply part_loop_aligned, aligned_New.
  - intros sd w h Hn. split; [apply startX_agree|].
    now apply startY_defaults.
  - cbv zeta. split; [|split; reflexivity].
    unfold vAligned. cbn. intros [H | [H | H]]; discriminate H.
Qed.

Lemma getTerminalSize_variants_agree_witness :
  MainGo.getTerminalSize (NewSpotifyDisplay "/c") 80 24
  = Part000.getTerminalSize (NewSpotifyDisplay "/c") 80 24.
Proof.
  refine (proj1 getTerminalSize_variants_agree (NewSpotifyDisplay "/c") 80 24
            _ _).
  - right; left; reflexivity.
  - right; right; reflexivity.
Defined.

(** ** Strings *)

Lemma append_assoc (a b c : string) :
  ((a ++ b) ++ c = a ++ (b ++ c))%string.
Proof. induction a as [| x a IH]; cbn; [reflexivity | now rewrite IH]. Qed.

Lemma append_nil_r (a : string) : (a ++ "" = a)%string.
Proof. induction a as [| x a IH]; cbn; [reflexivity | now rewrite IH]. Qed.

Lemma HasPrefix_spec (s p : string) :
  GoStrings.HasPrefix s p = true <-> exists t, s = (p ++ t)%string.
Proof.
  unfold GoStrings.HasPrefix. revert s.
  induction p as [| a p IH]; intros s; cbn.
  - split; [intros _; now exists s | intros _; now destruct s].
  - destruct s as [| b s]; cbn.
    + split; [discriminate | intros [t Ht]; discriminate Ht].
    + destruct (ascii_dec a b) as [-> | Hne].
      * rewrite IH. split; intros [t Ht]; exists t; congruence.
      * split; [discriminate | intros [t Ht]; congruence].
Qed.

Lemma drop_append (p t : string) :
  GoStrings.drop (String.length p) (p ++ t) = t.
Proof. induction p as [| a p IH]; cbn; [now destruct t | exact IH]. Qed.

Lemma TrimPrefix_append (p t : string) :
  GoStrings.TrimPrefix (p ++ t) p = t.
Proof.
  unfold GoStrings.TrimPrefix.
  assert (H : GoStrings.HasPrefix (p ++ t) p = true)
    by (apply HasPrefix_spec; now exists t).
  rewrite H. apply drop_append.
Qed.

(** ** Time labels *)

Lemma d02_two_digits (n : Z) : 0 <= n < 100 -> Fmt.d02 n = twoDigits n.
Proof.
  intros Hn.
  assert (Hall : forallb
            (fun k => String.eqb (Fmt.d02 (Z.of_nat k)) (twoDigits (Z.of_nat k)))
            (seq 0 100) = true) by (vm_compute; reflexivity).
  rewrite forallb_forall in Hall.
  specialize (Hall (Z.to_nat n)).
  rewrite Z2Nat.id in Hall by lia.
  apply String.eqb_eq, Hall, in_seq. lia.
Qed.

Lemma formatTime_nonneg (s : Z) :
  0 <= s <= GoInt.max_int64 ->
  MainGo.formatTime s = (Fmt.d02 (s / 60) ++ ":" ++ Fmt.d02 (s mod 60))%string.
Proof.
  intros Hs. unfold MainGo.formatTime, GoInt.rem.
  rewrite quo_small;
    [| unfold GoInt.in_int64, GoInt.min_int64, GoInt.max_int64 in *; lia | lia].
  rewrite Z.quot_div_nonneg, Z.rem_mod_nonneg by lia. reflexivity.
Qed.

(** C9.  [formatTime] writes minutes and seconds, the quotient and the
    remainder of the second count by 60, each padded with zeros to two
    digits: below 100 minutes the label is exactly two digits, a colon and
    two digits; [formatTime(125)] is 02:05, [formatTime(0)] is 00:00 and
    [formatTime(3600)] is 60:00.  The time text of
    [src/unnamed/part_000], formatted in place, is the same string. *)
Theorem formatTime_mm_ss :
  MainGo.formatTime 125 = "02:05"
  /\ MainGo.formatTime 0 = "00:00"
  /\ MainGo.formatTime 3600 = "60:00"
  /\ (forall s, 0 <= s < 6000 ->
        MainGo.formatTime s
        = (twoDigits (s / 60) ++ ":" ++ twoDigits (s mod 60))%string)
  /\ (forall s, 0 <= s <= GoInt.max_int64 ->
        MainGo.formatTime s = (Fmt.d02 (s / 60) ++ ":" ++ Fmt.d02 (s mod 60))%string)
  /\ (forall md, Part000.timeText md = MainGo.timeText md).
Proof.
  repeat split; try reflexivity.
  - intros s Hs. rewrite formatTime_nonneg
      by (unfold GoInt.max_int64; lia).
    rewrite !d02_two_digits; [reflexivity | |].
    + pose proof (Z.mod_pos_bound s 60 ltac:(lia)). lia.
    + split; [apply Z.div_pos; lia | apply Z.div_lt_upper_bound; lia].
  - apply formatTime_nonneg.
  - intros md. unfold Part000.timeText, MainGo.timeText, MainGo.formatTime.
    rewrite !append_assoc. reflexivity.
Qed.

Lemma formatTime_mm_ss_witness :
  MainGo.formatTime 754 = (twoDigits 12 ++ ":" ++ twoDigits 34)%string.
Proof.
  refine (proj1 (proj2 (proj2 (proj2 formatTime_mm_ss))) 754 _). lia.
Defined.

(** ** Art reference normalisation *)

Lemma trimRightByte_spec (s : string) (c : ascii) :
  exists n,
    s = (GoStrings.trimRightByte s c ++ run c n)%string
    /\ lastIsNot c (GoStrings.trimRightByte s c).
Proof.
  induction s as [| a s IH].
  - exists O. split; [reflexivity | exact I].
  - destruct IH as [n [Hs Hl]]. cbn [GoStrings.trimRightByte].
    destruct (GoStrings.trimRightByte s c) as [| b t] eqn:Et.
    + destruct (Ascii.eqb_spec a c) as [-> | Hne].
      * exists (S n). split; [unfold run in *; cbn in *; congruence | exact I].
      * exists n. split; [unfold run in *; cbn in *; congruence | exact Hne].
    + exists n. split; [unfold run in *; cbn in *; congruence | exact Hl].
Qed.

Lemma trimLeftByte_spec (s : string) (c : ascii) :
  exists n,
    s = (run c n ++ GoStrings.trimLeftByte s c)%string
    /\ firstIsNot c (GoStrings.trimLeftByte s c)
    /\ (lastIsNot c s -> lastIsNot c (GoStrings.trimLeftByte s c)).
Proof.
  induction s as [| a s IH].
  - exists O. repeat split; auto.
  - destruct IH as [n [Hs [Hf Hl]]]. cbn [GoStrings.trimLeftByte].
    destruct (Ascii.eqb_spec a c) as [-> | Hne].
    + exists (S n). split; [unfold run in *; cbn in *; congruence |].
      split; [exact Hf|].
      intros H. apply Hl. destruct s; [exact I | exact H].
    + exists O. repeat split; auto.
Qed.

(** [strings.Trim] with the quote byte as cutset strips the surrounding
    quote bytes: the input
    is the result between two runs of quotes, and the result neither
    starts nor ends with a quote. *)
Lemma Trim1_spec (s : string) (c : ascii) :
  exists nl nr,
    s = (run c nl ++ GoStrings.Trim1 s c ++ run c nr)%string
    /\ firstIsNot c (GoStrings.Trim1 s c)
    /\ lastIsNot c (GoStrings.Trim1 s c).
Proof.
  unfold GoStrings.Trim1.
  destruct (trimRightByte_spec s c) as [nr [Hr Hlr]].
  destruct (trimLeftByte_spec (GoStrings.trimRightByte s c) c)
    as [nl [Hl [Hf Hll]]].
  exists nl, nr. split; [|split; [exact Hf | exact (Hll Hlr)]].
  rewrite <- append_assoc, <- Hl. exact Hr.
Qed.

Lemma cdn_not_file (t u : string) :
  (cdnPrefix ++ t)%string <> (filePrefix ++ u)%string.
Proof. cbn. discriminate. Qed.

(** The art-URL normalisation of [getMetadata], in both files, strips
    the quote bytes around the raw string; a result that starts with the CDN prefix
    https://i.scdn.co/image/ is kept whole, a result that starts with
    file:// loses that prefix, and every other result gives the empty art
    reference.  In [src/main.go] an absent [mpris:artUrl] field gives the
    empty art reference as well.  Normalisation has no error outcome. *)
Theorem normalizeArtURL_spec (raw : string) :
  (exists (s : string) (nl nr : nat),
      s = GoStrings.Trim1 raw quoteChar
      /\ raw = (run quoteChar nl ++ s ++ run quoteChar nr)%string
      /\ firstIsNot quoteChar s /\ lastIsNot quoteChar s
      /\ (forall t, s = (cdnPrefix ++ t)%string -> normalizeArtURL raw = s)
      /\ (forall t, s = (filePrefix ++ t)%string -> normalizeArtURL raw = t)
      /\ ((forall t, s <> (cdnPrefix ++ t)%string) ->
          (forall t, s <> (filePrefix ++ t)%string) ->
          normalizeArtURL raw = ""))
  /\ MainGo.artURLOf None = ""
  /\ (forall r v, MainGo.artURLOf (Some (MkVariant v r)) = normalizeArtURL r).
Proof.
  split; [|split; reflexivity].
  destruct (Trim1_spec raw quoteChar) as [nl [nr [Hraw [Hf Hl]]]].
  exists (GoStrings.Trim1 raw quoteChar), nl, nr.
  repeat (split; [first [reflexivity | assumption] |]).
  unfold normalizeArtURL. cbv zeta.
  set (s := GoStrings.Trim1 raw quoteChar) in *. clearbody s.
  destruct (GoStrings.HasPrefix s cdnPrefix) eqn:Ec.
  - apply HasPrefix_spec in Ec. destruct Ec as [t0 Ht0].
    split; [reflexivity|]. split.
    + intros t Ht. exfalso. apply (cdn_not_file t0 t). congruence.
    + intros Hn _. exfalso. exact (Hn t0 Ht0).
  - assert (Hnc : forall t, s <> (cdnPrefix ++ t)%string).
    { intros t Ht.
      assert (GoStrings.HasPrefix s cdnPrefix = true)
        by (apply HasPrefix_spec; now exists t).
      congruence. }
    split; [intros t Ht; exfalso; exact (Hnc t Ht)|].
    destruct (GoStrings.HasPrefix s filePrefix) eqn:Ef.
    + apply HasPrefix_spec in Ef. destruct Ef as [u0 Hu0].
      split.
      * intros t Ht. rewrite Ht. apply TrimPrefix_append.
      * intros _ Hn. exfalso. exact (Hn u0 Hu0).
    + split; [|reflexivity].
      intros t Ht.
      assert (GoStrings.HasPrefix s filePrefix = true)
        by (apply HasPrefix_spec; now exists t).
      congruence.
Qed.

(** ** The metadata adapter *)

Lemma int64Of_signed64 (x : DValue) :
  wf_value x -> int64Of x = signed64 x.
Proof.
  destruct x as [| v | v | | |]; cbn [wf_value signed64 int64Of];
    try reflexivity.
  unfold GoInt.in_uint64, GoInt.max_uint64, GoInt.int64_of_uint64, GoInt.wrap64.
  intros Hv. f_equal.
  change (2 ^ 64) with 18446744073709551616 in *.
  change (2 ^ 63) with 9223372036854775808 in *.
  destruct (Z.ltb_spec v 9223372036854775808).
  - rewrite Z.mod_small; lia.
  - replace (v + 9223372036854775808)
      with ((v - 9223372036854775808) + 1 * 18446744073709551616) by lia.
    rewrite Z.mod_add by lia. rewrite Z.mod_small; lia.
Qed.

Lemma signed64_range (x : DValue) (v : Z) :
  wf_value x -> signed64 x = Some v -> GoInt.in_int64 v.
Proof.
  destruct x as [| a | a | | |]; cbn [wf_value signed64]; try discriminate;
    unfold GoInt.in_int64, GoInt.in_uint64, GoInt.min_int64, GoInt.max_int64,
      GoInt.max_uint64;
    change (2 ^ 64) with 18446744073709551616;
    change (2 ^ 63) with 9223372036854775808;
    intros Hw [= <-]; [lia|].
  destruct (Z.ltb_spec a 9223372036854775808); lia.
Qed.

(** Whole seconds of a microsecond count, and their sign. *)
Lemma seconds_of_micros (v : Z) :
  GoInt.in_int64 v ->
  GoInt.quo v 1000000 = Z.quot v 1000000
  /\ (0 <= GoInt.quo v 1000000 <-> -1000000 < v).
Proof.
  intros Hv. rewrite quo_small by (assumption || lia).
  split; [reflexivity|].
  destruct (Z.le_gt_cases 0 v) as [H0 | H0].
  - pose proof (Z.quot_pos v 1000000 H0 ltac:(lia)). lia.
  - assert (Hq : Z.quot v 1000000 = - Z.quot (- v) 1000000).
    { rewrite Z.quot_opp_l by lia. lia. }
    rewrite Hq. destruct (Z.le_gt_cases 1000000 (- v)) as [H1 | H1].
    + assert (1 <= Z.quot (- v) 1000000)
        by (apply Z.quot_le_lower_bound; lia). lia.
    + rewrite Z.quot_small by lia. lia.
Qed.

(** What a successful [getMetadata] of [src/main.go] has read. *)
Lemma main_getMetadata_inv rt env logs md :
  MainGo.getMetadata rt env = (logs, Ok md) ->
  exists metadata r0 position l p,
    env.(metadataProp) = ReplyVal (MkVariant (VDict metadata) r0)
    /\ env.(positionProp) = ReplyVal position
    /\ int64Of (valueOf (lookup metadata "mpris:length")) = Some l
    /\ int64Of (Value position) = Some p
    /\ md.(Length) = GoInt.quo l 1000000
    /\ md.(Position) = GoInt.quo p 1000000
    /\ md.(ArtURL) = MainGo.artURLOf (lookup metadata "mpris:artUrl").
Proof.
  unfold MainGo.getMetadata.
  destruct (metadataProp env) as [e | [x r0]] eqn:Em; [discriminate|].
  cbn [Value]. destruct x as [| | | | metadata |]; try discriminate.
  destruct (positionProp env) as [e | position] eqn:Ep; [discriminate|].
  cbv zeta.
  destruct (int64Of (valueOf (lookup metadata "mpris:length"))) as [l|] eqn:El;
    [|discriminate].
  destruct (int64Of (Value position)) as [p|] eqn:Epos; [|discriminate].
  destruct (valueOf (lookup metadata "xesam:artist")); try discriminate.
  destruct (VariantString rt (lookup metadata "xesam:title")); cbn [bind];
    try discriminate.
  destruct (VariantString rt (lookup metadata "xesam:album")); cbn [bind];
    try discriminate.
  intros [= _ <-]. exists metadata, r0, position, l, p. cbn.
  repeat split; assumption.
Qed.

Lemma VariantString_not_err rt o e : VariantString rt o <> Err e.
Proof.
  destruct o; cbn; [discriminate|].
  destruct (zeroVariantString rt); discriminate.
Qed.

(** Errors of [getMetadata] of [src/main.go] come before any log line. *)
Lemma main_getMetadata_err_logs rt env logs e :
  MainGo.getMetadata rt env = (logs, Err e) -> logs = [].
Proof.
  unfold MainGo.getMetadata.
  destruct (metadataProp env) as [e0 | [x r0]]; [now intros [= <- _]|].
  cbn [Value]. destruct x as [| | | | metadata |]; try now intros [= <- _].
  destruct (positionProp env) as [e0 | position]; [now intros [= <- _]|].
  cbv zeta.
  destruct (int64Of (valueOf (lookup metadata "mpris:length")));
    [|now intros [= <- _]].
  destruct (int64Of (Value position)); [|now intros [= <- _]].
  destruct (valueOf (lookup metadata "xesam:artist")); try now intros [= <- _].
  pose proof (VariantString_not_err rt (lookup metadata "xesam:title")) as Ht.
  pose proof (VariantString_not_err rt (lookup metadata "xesam:album")) as Ha.
  destruct (VariantString rt (lookup metadata "xesam:title")); cbn [bind];
    try discriminate.
  - destruct (VariantString rt (lookup metadata "xesam:album")); cbn [bind];
      try discriminate.
    intros [= _ ->]. now elim (Ha e).
  - intros [= _ ->]. now elim (Ht e).
Qed.

(** A signed length of minus five seconds, and an unsigned length with the
    top bit set, both well-formed, give negative [Length]. *)
Lemma negative_seconds_counterexample :
  wf_value (VInt64 (-5000000))
  /\ wf_value (VUint64 (2 ^ 63))
  /\ ~ secondsNonneg
       (snd (MainGo.getMetadata rt_amd64
               (sampleEnv (VInt64 (-5000000)) (VInt64 0) "" None)))
  /\ ~ secondsNonneg
       (snd (MainGo.getMetadata rt_amd64
               (sampleEnv (VUint64 (2 ^ 63)) (VInt64 0) "" None)))
  /\ ~ secondsNonneg
       (Part000.getMetadata rt_amd64
          (sampleEnv (VInt64 (-5000000)) (VInt64 0) "" None)).
Proof.
  split; [|split; [|split; [|split]]].
  - vm_compute. split; discriminate.
  - vm_compute. split; discriminate.
  - vm_compute. intros [H _]. apply H. reflexivity.
  - vm_compute. intros [H _]. apply H. reflexivity.
  - vm_compute. intros [H _]. apply H. reflexivity.
Qed.

Lemma part_getMetadata_inv rt env md :
  Part000.getMetadata rt env = Ok md ->
  md.(Length) = GoInt.quo (Part000.int64OrZero (deliveredLength env)) 1000000
  /\ md.(Position)
     = GoInt.quo (Part000.int64OrZero (deliveredPosition env)) 1000000.
Proof.
  unfold Part000.getMetadata, deliveredLength, deliveredPosition.
  destruct (metadataProp env) as [e | [x r0]]; [discriminate|].
  cbn [Value]. destruct x as [| | | | metadata |]; try discriminate.
  destruct (valueOf (lookup metadata "xesam:artist")); try discriminate.
  destruct (VariantString rt (lookup metadata "mpris:artUrl")); cbn [bind];
    try discriminate.
  destruct (VariantString rt (lookup metadata "xesam:title")); cbn [bind];
    try discriminate.
  intros [= <-]. cbn. split; [reflexivity|].
  destruct (positionProp env); reflexivity.
Qed.

(** What a successful [getMetadata] of [src/main.go] holds: the delivered
    integers, read as signed, divided by a million with truncation. *)
Lemma main_getMetadata_signed rt env logs md :
  MainGo.getMetadata rt env = (logs, Ok md) ->
  wf_value (deliveredLength env) ->
  wf_value (deliveredPosition env) ->
  exists l p,
    signed64 (deliveredLength env) = Some l
    /\ signed64 (deliveredPosition env) = Some p
    /\ GoInt.in_int64 l /\ GoInt.in_int64 p
    /\ md.(Length) = Z.quot l 1000000
    /\ md.(Position) = Z.quot p 1000000.
Proof.
  intros Hg Hwl Hwp.
  destruct (main_getMetadata_inv rt env logs md Hg)
    as [metadata [r0 [position [l [p [Em [Ep [El [Epos [HL [HP _]]]]]]]]]]].
  unfold deliveredLength, deliveredPosition in *. rewrite Em, Ep in *.
  rewrite int64Of_signed64 in El, Epos by assumption.
  pose proof (signed64_range _ _ Hwl El) as Rl.
  pose proof (signed64_range _ _ Hwp Epos) as Rp.
  exists l, p. repeat (split; [assumption|]).
  rewrite HL, HP.
  split; apply seconds_of_micros; assumption.
Qed.

(** C8 (amended).  For every well-formed value the bus delivers for the
    length and the position, signed or unsigned, the record of
    [getMetadata] holds the 64 bits read as a signed microsecond count,
    divided by 1,000,000 with truncation; a field is non-negative exactly
    when that signed count is above -1,000,000, so in particular for every
    signed value from 0 and every unsigned value below 2^63, and it is
    negative for the others. *)
Theorem getMetadata_seconds rt env logs md :
  MainGo.getMetadata rt env = (logs, Ok md) ->
  wf_value (deliveredLength env) ->
  wf_value (deliveredPosition env) ->
  exists l p,
    signed64 (deliveredLength env) = Some l
    /\ signed64 (deliveredPosition env) = Some p
    /\ md.(Length) = Z.quot l 1000000
    /\ md.(Position) = Z.quot p 1000000
    /\ (0 <= md.(Length) <-> -1000000 < l)
    /\ (0 <= md.(Position) <-> -1000000 < p).
Proof.
  intros Hg Hwl Hwp.
  destruct (main_getMetadata_signed rt env logs md Hg Hwl Hwp)
    as [l [p [Hl [Hp [Rl [Rp [HL HP]]]]]]].
  exists l, p. split; [exact Hl|]. split; [exact Hp|].
  split; [exact HL|]. split; [exact HP|].
  pose proof (seconds_of_micros l Rl) as [Hl1 Hl2].
  pose proof (seconds_of_micros p Rp) as [Hp1 Hp2].
  rewrite HL, HP, <- Hl1, <- Hp1. tauto.
Qed.

Lemma getMetadata_seconds_witness :
  exists l p,
    signed64 (VUint64 (240 * 1000000)) = Some l
    /\ signed64 (VInt64 (61 * 1000000 + 5)) = Some p
    /\ 240 = Z.quot l 1000000
    /\ 61 = Z.quot p 1000000
    /\ (0 <= 240 <-> -1000000 < l)
    /\ (0 <= 61 <-> -1000000 < p).
Proof.
  refine (getMetadata_seconds rt_amd64
            (sampleEnv (VUint64 (240 * 1000000)) (VInt64 (61 * 1000000 + 5))
               "" None)
            _ {| Title := _; Artist := _; Album := _; Length := 240;
                 Position := 61; ArtURL := _ |} _ _ _).
  - vm_compute. reflexivity.
  - vm_compute. split; discriminate.
  - vm_compute. split; discriminate.
Defined.

(** ** The timer tick *)

Lemma fetchCount_app (a b : list Effect) :
  fetchCount (a ++ b) = (fetchCount a + fetchCount b)%nat.
Proof. unfold fetchCount. now rewrite filter_app, length_app. Qed.

(** C1, as stated, fails: with an empty slot and a local art reference
    whose copy fails, the tick leaves the new reference in the slot. *)
Lemma slot_changed_on_failed_fetch :
  ~ slotUnchangedOnFailedFetch rt_amd64
      (sampleEnv (VInt64 240000000) (VInt64 0)
         (quoted "file:///tmp/cover.png") (Some "no such file"))
      (NewSpotifyDisplay "/c").
Proof.
  intros H.
  specialize (H {| Title := quoted "Song"; Artist := "Band";
                   Album := quoted "Album"; Length := 240; Position := 0;
                   ArtURL := "/tmp/cover.png" |}).
  assert (Hc : "/tmp/cover.png" = "").
  { apply H.
    - vm_compute. reflexivity.
    - vm_compute. reflexivity.
    - exists "no such file". vm_compute. reflexivity. }
  discriminate Hc.
Qed.

Lemma artworkDue_spec sd md :
  MainGo.artworkDue sd md = true
  <-> md.(ArtURL) <> sd.(currentArtURL) /\ md.(ArtURL) <> "".
Proof.
  unfold MainGo.artworkDue.
  destruct (String.eqb_spec md.(ArtURL) sd.(currentArtURL));
    destruct (String.eqb_spec md.(ArtURL) ""); cbn; intuition congruence.
Qed.

Lemma main_tick_ok rt env sd logs md :
  MainGo.getMetadata rt env = (logs, Ok md) ->
  let term := MainGo.getTerminalSize sd (fst env.(termSize))
                (snd env.(termSize)) in
  let draw := MainGo.drawTrackInfo md term
              ++ MainGo.drawProgressBar rt md term in
  MainGo.tick rt env sd
  = if MainGo.artworkDue sd md
    then (setArtURL sd md.(ArtURL),
          logs ++ draw ++ snd (MainGo.updateArtwork env sd md term), Running)
    else (sd, logs ++ draw, Running).
Proof.
  intros Hg. cbv zeta. unfold MainGo.tick. rewrite Hg.
  destruct (MainGo.artworkDue sd md); [|reflexivity].
  pose proof (main_updateArtwork_state env sd md
    (MainGo.getTerminalSize sd (fst (termSize env)) (snd (termSize env)))) as H.
  destruct (MainGo.updateArtwork env sd md _) as [sd' fx].
  cbn [fst snd] in *. now subst sd'.
Qed.

Lemma part_tick_ok rt env sd md :
  Part000.getMetadata rt env = Ok md ->
  let term := Part000.getTerminalSize sd (fst env.(termSize))
                (snd env.(termSize)) in
  let draw := Part000.drawTrackInfo md term
              ++ Part000.drawProgressBar rt md term in
  Part000.tick rt env sd
  = if Part000.artworkDue sd md
    then (setArtURL sd md.(ArtURL),
          draw ++ snd (fst (Part000.updateArtwork env sd md term)),
          snd (Part000.updateArtwork env sd md term))
    else (sd, draw, Running).
Proof.
  intros Hg. cbv zeta. unfold Part000.tick. rewrite Hg.
  destruct (Part000.artworkDue sd md); [|reflexivity].
  pose proof (part_updateArtwork_state env sd md
    (Part000.getTerminalSize sd (fst (termSize env)) (snd (termSize env)))) as H.
  destruct (Part000.updateArtwork env sd md _) as [[sd' fx] st].
  cbn [fst snd] in *. now subst sd'.
Qed.

(** C1 (amended).  The cache slot is written before the fetch is
    attempted: on every tick on which the artwork pipeline is invoked, the
    slot holds the tick's art reference after the tick, whether the fetch
    succeeds or fails with an ArtworkError; on a tick on which the pipeline
    is not invoked, be it that the reference is empty or unchanged or that
    the metadata fetch did not return a record, the slot, like the whole
    display state, is unchanged.  Both files behave so. *)
Theorem slot_written_before_fetch rt env sd :
  (forall logs md,
      MainGo.getMetadata rt env = (logs, Ok md) ->
      (MainGo.artworkDue sd md = true ->
       fst (fst (MainGo.tick rt env sd)) = setArtURL sd md.(ArtURL))
      /\ (MainGo.artworkDue sd md = false ->
          fst (fst (MainGo.tick rt env sd)) = sd))
  /\ (forall md,
        Part000.getMetadata rt env = Ok md ->
        (Part000.artworkDue sd md = true ->
         fst (fst (Part000.tick rt env sd)) = setArtURL sd md.(ArtURL))
        /\ (Part000.artworkDue sd md = false ->
            fst (fst (Part000.tick rt env sd)) = sd))
  /\ ((forall md, snd (MainGo.getMetadata rt env) <> Ok md) ->
      fst (fst (MainGo.tick rt env sd)) = sd)
  /\ ((forall md, Part000.getMetadata rt env <> Ok md) ->
      fst (fst (Part000.tick rt env sd)) = sd).
Proof.
  split; [|split; [|split]].
  - intros logs md Hg. rewrite (main_tick_ok rt env sd logs md Hg).
    split; intros ->; reflexivity.
  - intros md Hg. rewrite (part_tick_ok rt env sd md Hg).
    split; intros ->; reflexivity.
  - intros Hn. unfold MainGo.tick.
    destruct (MainGo.getMetadata rt env) as [logs [md | e |]];
      cbn [fst snd] in *; try reflexivity.
    now elim (Hn md).
  - intros Hn. unfold Part000.tick.
    destruct (Part000.getMetadata rt env) as [md | e |];
      cbn [fst snd] in *; try reflexivity.
    now elim (Hn md).
Qed.

Lemma slot_written_before_fetch_witness :
  (fst (fst (MainGo.tick rt_amd64
               (sampleEnv (VInt64 240000000) (VInt64 0)
                  (quoted "file:///tmp/cover.png") (Some "no such file"))
               (NewSpotifyDisplay "/c")))).(currentArtURL)
  = "/tmp/cover.png".
Proof.
  rewrite (proj1 (proj1 (slot_written_before_fetch rt_amd64
              (sampleEnv (VInt64 240000000) (VInt64 0)
                 (quoted "file:///tmp/cover.png") (Some "no such file"))
              (NewSpotifyDisplay "/c"))
            _ {| Title := quoted "Song"; Artist := "Band";
                 Album := quoted "Album"; Length := 240; Position := 0;
                 ArtURL := "/tmp/cover.png" |} eq_refl) eq_refl).
  reflexivity.
Defined.

Lemma main_tick_err rt env sd logs e :
  MainGo.getMetadata rt env = (logs, Err e) ->
  MainGo.tick rt env sd
  = (sd, [Log ("Error getting metadata: " ++ e)], Running).
Proof.
  intros Hg. pose proof (main_getMetadata_err_logs rt env logs e Hg) as ->.
  unfold MainGo.tick. rewrite Hg. reflexivity.
Qed.

Lemma main_tick_not_terminating rt env sd :
  snd (MainGo.tick rt env sd) <> Terminating.
Proof.
  unfold MainGo.tick.
  destruct (MainGo.getMetadata rt env) as [logs [md | e |]]; cbn [snd];
    try discriminate.
  destruct (MainGo.artworkDue sd md); [|discriminate].
  destruct (MainGo.updateArtwork env sd md _). discriminate.
Qed.

(** The loop of [src/main.go] ends only on a signal or on the quit key. *)
Lemma main_loop_terminating rt evs : forall sd,
  snd (MainGo.loop rt sd evs) = Terminating -> Exists isQuit evs.
Proof.
  induction evs as [| ev evs IH]; intros sd H; [discriminate H|].
  cbn [MainGo.loop] in H.
  destruct (MainGo.step rt sd ev) as [[sd' fx] st] eqn:Es.
  destruct st.
  - apply Exists_cons_tl. apply (IH sd').
    destruct (MainGo.loop rt sd' evs) as [[sd'' fx'] st']. exact H.
  - apply Exists_cons_hd. destruct ev as [e | env |].
    + right. exists e. cbn [MainGo.step] in Es.
      destruct (evType e); [|discriminate Es].
      destruct (Ascii.eqb_spec (evCh e) "q") as [E | _].
      * repeat split; assumption.
      * destruct (MainGo.handleKeyboard sd e) as [sd1 [|]]; discriminate Es.
    + exfalso. cbn [MainGo.step] in Es.
      apply (main_tick_not_terminating rt env sd). now rewrite Es.
    + left. reflexivity.
  - discriminate H.
Qed.

(** When [getMetadata] returns an error on a tick, the tick draws
    nothing on the terminal, leaves the display state (alignment and cache
    slot) as it was, and the loop stays in the running state: the rest of
    the loop proceeds exactly as if the failed tick had not happened, but
    for one line in the log ([src/unnamed/part_000] does not even log).
    No tick ends the loop: it reaches the terminating state only on a
    termination signal or on the quit key. *)
Theorem metadata_error_skips_tick rt env sd :
  (forall logs e,
      MainGo.getMetadata rt env = (logs, Err e) ->
      fst (fst (MainGo.tick rt env sd)) = sd
      /\ drawing (snd (fst (MainGo.tick rt env sd))) = []
      /\ snd (MainGo.tick rt env sd) = Running
      /\ forall evs,
          MainGo.loop rt sd (Tick env :: evs)
          = (fst (fst (MainGo.loop rt sd evs)),
             Log ("Error getting metadata: " ++ e)
               :: snd (fst (MainGo.loop rt sd evs)),
             snd (MainGo.loop rt sd evs)))
  /\ (forall e,
        Part000.getMetadata rt env = Err e ->
        Part000.tick rt env sd = (sd, [], Running)
        /\ forall evs,
            Part000.loop rt sd (Tick env :: evs) = Part000.loop rt sd evs)
  /\ (forall evs,
        snd (MainGo.loop rt sd evs) = Terminating -> Exists isQuit evs).
Proof.
  split; [|split; [|intros evs; apply main_loop_terminating]].
  - intros logs e Hg.
    pose proof (main_tick_err rt env sd logs e Hg) as Ht.
    rewrite Ht. cbn [fst snd]. repeat split.
    intros evs. cbn [MainGo.loop MainGo.step]. rewrite Ht.
    destruct (MainGo.loop rt sd evs) as [[sd' fx] st]. reflexivity.
  - intros e Hg.
    assert (Ht : Part000.tick rt env sd = (sd, [], Running))
      by (unfold Part000.tick; now rewrite Hg).
    split; [exact Ht|].
    intros evs. cbn [Part000.loop Part000.step]. rewrite Ht.
    destruct (Part000.loop rt sd evs) as [[sd' fx] st]. reflexivity.
Qed.

Lemma metadata_error_skips_tick_witness :
  fst (fst (MainGo.tick rt_amd64 failingEnv (NewSpotifyDisplay "/c")))
  = NewSpotifyDisplay "/c"
  /\ drawing (snd (fst (MainGo.tick rt_amd64 failingEnv
                          (NewSpotifyDisplay "/c")))) = []
  /\ snd (MainGo.tick rt_amd64 failingEnv (NewSpotifyDisplay "/c")) = Running.
Proof.
  pose proof (proj1 (metadata_error_skips_tick rt_amd64 failingEnv
                       (NewSpotifyDisplay "/c")) [] "no reply" eq_refl)
    as [H1 [H2 [H3 _]]].
  exact (conj H1 (conj H2 H3)).
Defined.

(** C7 (defect of [src/unnamed/part_000]).  Of the failures of the
    metadata fetch, [src/unnamed/part_000] skips the tick only for a failed
    metadata query.  On a tick whose position query fails, and on one
    whose length is of a type it does not know, [src/main.go] draws
    nothing, logs the error and goes on, while part_000 draws a frame with
    a zero in place of the missing number; on a reply that is no
    dictionary main.go does the same, while part_000 panics and the loop
    ends. *)
Theorem metadata_error_not_skipped_in_part000 :
  MainGo.tick rt_amd64 positionFailsEnv (NewSpotifyDisplay "/c")
  = (NewSpotifyDisplay "/c", [Log "Error getting metadata: no reply"], Running)
  /\ drawing (snd (fst (Part000.tick rt_amd64 positionFailsEnv
                          (NewSpotifyDisplay "/c")))) <> []
  /\ MainGo.tick rt_amd64 (sampleEnv (VOther "int32") (VInt64 0) "" None)
       (NewSpotifyDisplay "/c")
     = (NewSpotifyDisplay "/c",
        [Log "Error getting metadata: unexpected length type: int32"],
        Running)
  /\ drawing (snd (fst (Part000.tick rt_amd64
                          (sampleEnv (VOther "int32") (VInt64 0) "" None)
                          (NewSpotifyDisplay "/c")))) <> []
  /\ MainGo.tick rt_amd64 badShapeEnv (NewSpotifyDisplay "/c")
     = (NewSpotifyDisplay "/c",
        [Log "Error getting metadata: invalid metadata format"], Running)
  /\ Part000.tick rt_amd64 badShapeEnv (NewSpotifyDisplay "/c")
     = (NewSpotifyDisplay "/c", [], Crashed)
  /\ snd (Part000.loop rt_amd64 (NewSpotifyDisplay "/c")
            [Tick badShapeEnv; Tick noArtEnv]) = Crashed.
Proof.
  repeat apply conj; try (vm_compute; reflexivity);
    vm_compute; discriminate.
Qed.

(** C6 (defect of [src/unnamed/part_000]).  On a metadata reply without
    an [mpris:artUrl] entry, [src/main.go] returns a record with the empty
    art reference and no error; [src/unnamed/part_000] renders the zero
    variant of the missing entry without looking whether the entry is
    there, and where that rendering panics, as it does in [rt_amd64],
    [getMetadata] panics and the tick brings the loop down. *)
Theorem absent_art_url_panics_in_part000 :
  MainGo.getMetadata rt_amd64 noArtEnv
  = ([], Ok {| Title := quoted "Song"; Artist := "Band";
               Album := quoted "Album"; Length := 240; Position := 0;
               ArtURL := "" |})
  /\ snd (MainGo.tick rt_amd64 noArtEnv (NewSpotifyDisplay "/c")) = Running
  /\ Part000.getMetadata rt_amd64 noArtEnv = Panic
  /\ Part000.tick rt_amd64 noArtEnv (NewSpotifyDisplay "/c")
     = (NewSpotifyDisplay "/c", [], Crashed).
Proof. repeat apply conj; vm_compute; reflexivity. Qed.

(** ** When the artwork pipeline runs *)

Lemma main_getMetadata_no_fetch rt env :
  fetchCount (fst (MainGo.getMetadata rt env)) = O.
Proof.
  unfold MainGo.getMetadata.
  destruct (metadataProp env) as [e | [x r0]]; [reflexivity|].
  cbn [Value]. destruct x as [| | | | metadata |]; try reflexivity.
  destruct (positionProp env) as [e | position]; [reflexivity|].
  cbv zeta.
  destruct (int64Of (valueOf (lookup metadata "mpris:length")));
    [|reflexivity].
  destruct (int64Of (Value position)); [|reflexivity].
  destruct (valueOf (lookup metadata "xesam:artist")); try reflexivity.
  cbn [fst]. destruct (lookup metadata "mpris:artUrl") as [v|];
    [|reflexivity].
  unfold MainGo.artURLLog. cbv zeta.
  destruct (GoStrings.HasPrefix _ cdnPrefix); [reflexivity|].
  destruct (GoStrings.HasPrefix _ filePrefix); reflexivity.
Qed.

Lemma main_draw_no_fetch rt md term :
  fetchCount (MainGo.drawTrackInfo md term
              ++ MainGo.drawProgressBar rt md term) = O.
Proof. reflexivity. Qed.

Lemma part_draw_no_fetch rt md term :
  fetchCount (Part000.drawTrackInfo md term
              ++ Part000.drawProgressBar rt md term) = O.
Proof. reflexivity. Qed.

Lemma main_displayImage_no_fetch env p x y :
  fetchCount (fst (MainGo.displayImage env p x y)) = O.
Proof.
  unfold MainGo.displayImage. cbv zeta.
  destruct (String.eqb p ""); [reflexivity|].
  destruct (statErr _); [reflexivity|].
  destruct (fileSize _ =? 0); [reflexivity|].
  destruct (lookPath _); [|reflexivity].
  destruct (runErr _); reflexivity.
Qed.

Lemma main_updateArtwork_fetch env sd md term :
  md.(ArtURL) <> "" ->
  fetchCount (snd (MainGo.updateArtwork env sd md term)) = 1%nat.
Proof.
  intros Hne. unfold MainGo.updateArtwork, MainGo.downloadArtwork.
  destruct (String.eqb_spec md.(ArtURL) "") as [E | _]; [contradiction|].
  cbv zeta.
  assert (Hp : String.eqb (artworkPath (setArtURL sd md.(ArtURL))) "" = false)
    by (unfold artworkPath; destruct (cacheDir _); reflexivity).
  destruct (GoStrings.HasPrefix md.(ArtURL) "/");
    destruct (transferErr env); cbn [snd]; try reflexivity;
    rewrite Hp;
    pose proof (main_displayImage_no_fetch env
                  (artworkPath (setArtURL sd md.(ArtURL)))
                  term.(startX) term.(startY)) as Hd;
    destruct (MainGo.displayImage env _ _ _) as [fx2 [u | e |]];
    cbn [fst snd] in *; rewrite ?fetchCount_app, ?Hd; reflexivity.
Qed.

(** What the artwork block of [src/unnamed/part_000] sends out and how
    it ends, for a non-empty reference. *)
Lemma part_updateArtwork_effects env sd md term :
  md.(ArtURL) <> "" ->
  Part000.updateArtwork env sd md term
  = (setArtURL sd md.(ArtURL),
     if nilRequest env md.(ArtURL) then []
     else fetchOf sd md.(ArtURL)
          :: match env.(transferErr) with
             | Some _ => []
             | None =>
                 fst (Part000.displayImage env (artworkPath sd)
                        term.(startX) term.(startY))
             end,
     if nilRequest env md.(ArtURL) then Crashed else Running).
Proof.
  intros Hne.
  unfold Part000.updateArtwork, Part000.downloadArtwork, nilRequest, fetchOf.
  destruct (String.eqb_spec md.(ArtURL) "") as [E | _]; [contradiction|].
  cbv zeta.
  change (artworkPath (setArtURL sd md.(ArtURL))) with (artworkPath sd).
  destruct (GoStrings.HasPrefix md.(ArtURL) "/");
    destruct (transferErr env); try destruct (requestNil env); reflexivity.
Qed.

Lemma part_displayImage_no_fetch env p x y :
  fetchCount (fst (Part000.displayImage env p x y)) = O.
Proof.
  unfold Part000.displayImage.
  destruct (lookPath (displayEnv env)); reflexivity.
Qed.

Lemma fetchOf_isFetch sd u : isFetch (fetchOf sd u) = true.
Proof. unfold fetchOf. destruct (GoStrings.HasPrefix u "/"); reflexivity. Qed.

Lemma part_updateArtwork_fetch env sd md term :
  md.(ArtURL) <> "" ->
  fetchCount (snd (fst (Part000.updateArtwork env sd md term)))
  = if nilRequest env md.(ArtURL) then O else 1%nat.
Proof.
  intros Hne. rewrite (part_updateArtwork_effects env sd md term Hne).
  cbn [fst snd].
  destruct (nilRequest env md.(ArtURL)); [reflexivity|].
  unfold fetchCount. cbn [filter]. rewrite fetchOf_isFetch. cbn [List.length].
  f_equal. destruct (transferErr env); [reflexivity|].
  apply part_displayImage_no_fetch.
Qed.

Lemma main_tick_fetch rt env sd logs md :
  MainGo.getMetadata rt env = (logs, Ok md) ->
  fetchCount (snd (fst (MainGo.tick rt env sd)))
  = if MainGo.artworkDue sd md then 1%nat else O.
Proof.
  intros Hg. rewrite (main_tick_ok rt env sd logs md Hg).
  pose proof (main_getMetadata_no_fetch rt env) as Hl. rewrite Hg in Hl.
  cbn [fst] in Hl.
  destruct (MainGo.artworkDue sd md) eqn:Ed; cbn [fst snd];
    rewrite !fetchCount_app, Hl, ?main_draw_no_fetch; [|reflexivity].
  apply artworkDue_spec in Ed. destruct Ed as [_ Hne].
  change (fetchCount (MainGo.drawTrackInfo md _)) with O.
  change (fetchCount (MainGo.drawProgressBar rt md _)) with O.
  now rewrite main_updateArtwork_fetch.
Qed.

Lemma part_tick_fetch rt env sd md :
  Part000.getMetadata rt env = Ok md ->
  fetchCount (snd (fst (Part000.tick rt env sd)))
  = if Part000.artworkDue sd md && negb (nilRequest env md.(ArtURL))
    then 1%nat else O.
Proof.
  intros Hg. rewrite (part_tick_ok rt env sd md Hg).
  destruct (Part000.artworkDue sd md) eqn:Ed; cbn [fst snd andb];
    [|reflexivity].
  apply (artworkDue_spec sd md) in Ed. destruct Ed as [_ Hne].
  rewrite fetchCount_app.
  change (fetchCount (Part000.drawTrackInfo md _
                      ++ Part000.drawProgressBar rt md _)) with O.
  rewrite part_updateArtwork_fetch by exact Hne.
  destruct (nilRequest env md.(ArtURL)); reflexivity.
Qed.

Lemma main_tick_presents rt u env sd :
  presents rt u env -> u <> "" ->
  snd (MainGo.tick rt env sd) = Running
  /\ (fst (fst (MainGo.tick rt env sd))).(currentArtURL) = u
  /\ fetchCount (snd (fst (MainGo.tick rt env sd)))
     = if String.eqb u sd.(currentArtURL) then O else 1%nat.
Proof.
  intros [logs [md [Hg Hu]]] Hne.
  pose proof (main_tick_fetch rt env sd logs md Hg) as Hf.
  rewrite (main_tick_ok rt env sd logs md Hg) in *.
  unfold MainGo.artworkDue in *. rewrite Hu in *.
  destruct (String.eqb_spec u sd.(currentArtURL)) as [E | E];
    destruct (String.eqb_spec u "") as [E0 | _]; try contradiction;
    cbn [negb andb fst snd] in *; auto.
Qed.

Lemma main_ticks_same_reference rt u : forall envs sd,
  Forall (presents rt u) envs -> u <> "" ->
  snd (MainGo.loop rt sd (map Tick envs)) = Running
  /\ (fst (fst (MainGo.loop rt sd (map Tick envs)))).(currentArtURL)
     = match envs with [] => sd.(currentArtURL) | _ => u end
  /\ fetchCount (snd (fst (MainGo.loop rt sd (map Tick envs))))
     = if String.eqb u sd.(currentArtURL) then O
       else match envs with [] => O | _ => 1%nat end.
Proof.
  induction envs as [| env envs IH]; intros sd Hall Hne.
  - cbn. split; [reflexivity|]. split; [reflexivity|].
    now destruct (String.eqb u _).
  - inversion Hall as [| ? ? Hp Hrest]; subst.
    destruct (main_tick_presents rt u env sd Hp Hne) as [Hs [Hc Hf]].
    cbn [map MainGo.loop MainGo.step].
    destruct (MainGo.tick rt env sd) as [[sd' fx] st]. cbn [fst snd] in *.
    subst st. destruct (IH sd' Hrest Hne) as [Hs' [Hc' Hf']].
    destruct (MainGo.loop rt sd' (map Tick envs)) as [[sd'' fx'] st'].
    cbn [fst snd] in *. split; [exact Hs'|]. split.
    + rewrite Hc'. now destruct envs.
    + rewrite fetchCount_app, Hf, Hf', Hc, String.eqb_refl.
      destruct (String.eqb u sd.(currentArtURL)); reflexivity.
Qed.

Lemma main_ticks_empty_reference rt : forall envs sd,
  Forall (presents rt "") envs ->
  fst (fst (MainGo.loop rt sd (map Tick envs))) = sd
  /\ fetchCount (snd (fst (MainGo.loop rt sd (map Tick envs)))) = O.
Proof.
  induction envs as [| env envs IH]; intros sd Hall.
  - cbn. split; reflexivity.
  - inversion Hall as [| ? ? [logs [md [Hg Hu]]] Hrest]; subst.
    cbn [map MainGo.loop MainGo.step].
    pose proof (main_tick_fetch rt env sd logs md Hg) as Hf.
    rewrite (main_tick_ok rt env sd logs md Hg) in *.
    assert (Hd : MainGo.artworkDue sd md = false).
    { unfold MainGo.artworkDue. rewrite Hu. cbn.
      now rewrite andb_false_r. }
    rewrite Hd in *. cbn [fst snd] in Hf.
    destruct (IH sd Hrest) as [Hs' Hf'].
    destruct (MainGo.loop rt sd (map Tick envs)) as [[sd'' fx'] st'].
    cbn [fst snd] in *. split; [exact Hs'|].
    rewrite fetchCount_app, Hf, Hf'. reflexivity.
Qed.

Lemma count_iff (n : nat) (b : bool) (P : Prop) :
  n = (if b then 1%nat else O) -> (b = true <-> P) ->
  (n = 1%nat <-> P) /\ (n = O <-> ~ P).
Proof.
  intros -> H. destruct b.
  - assert (HP : P) by now apply H.
    repeat split; intros; try discriminate; tauto.
  - assert (HP : ~ P) by (intros HP; apply H in HP; discriminate).
    repeat split; intros; try discriminate; tauto.
Qed.

Lemma transfers_app (a b : list Effect) :
  transfers (a ++ b) = transfers a ++ transfers b.
Proof. apply filter_app. Qed.

Lemma commands_app (a b : list Effect) :
  commands (a ++ b) = commands a ++ commands b.
Proof. apply filter_app. Qed.

(** [getMetadata] of [src/main.go] only writes to the log. *)
Lemma main_getMetadata_only_logs rt env (f : Effect -> bool) :
  (forall s, f (Log s) = false) ->
  filter f (fst (MainGo.getMetadata rt env)) = [].
Proof.
  intros Hf. unfold MainGo.getMetadata.
  destruct (metadataProp env) as [e | [x r0]]; [reflexivity|].
  cbn [Value]. destruct x as [| | | | metadata |]; try reflexivity.
  destruct (positionProp env) as [e | position]; [reflexivity|].
  cbv zeta.
  destruct (int64Of (valueOf (lookup metadata "mpris:length")));
    [|reflexivity].
  destruct (int64Of (Value position)); [|reflexivity].
  destruct (valueOf (lookup metadata "xesam:artist")); try reflexivity.
  cbn [fst]. destruct (lookup metadata "mpris:artUrl") as [v|];
    [|reflexivity].
  unfold MainGo.artURLLog. cbv zeta.
  destruct (GoStrings.HasPrefix _ cdnPrefix);
    [|destruct (GoStrings.HasPrefix _ filePrefix)];
    cbn [filter]; rewrite !Hf; reflexivity.
Qed.

(** The transfer and the rendering of the artwork block of [src/main.go],
    for a non-empty reference. *)
Lemma main_updateArtwork_pipeline env sd md term :
  md.(ArtURL) <> "" ->
  transfers (snd (MainGo.updateArtwork env sd md term))
  = [fetchOf sd md.(ArtURL)]
  /\ commands (snd (MainGo.updateArtwork env sd md term))
     = match env.(transferErr), mainRenderer env with
       | None, Some chafa =>
           [Exec chafa (MainGo.chafaArgs (artworkPath sd))]
       | _, _ => []
       end.
Proof.
  intros Hne.
  unfold MainGo.updateArtwork, MainGo.downloadArtwork, fetchOf, mainRenderer.
  destruct (String.eqb_spec md.(ArtURL) "") as [E | _]; [contradiction|].
  cbv zeta.
  change (artworkPath (setArtURL sd md.(ArtURL))) with (artworkPath sd).
  assert (Hp : String.eqb (artworkPath sd) "" = false)
    by (unfold artworkPath; destruct (cacheDir _); reflexivity).
  unfold MainGo.displayImage, moveCursor. cbv zeta.
  destruct (GoStrings.HasPrefix md.(ArtURL) "/");
    destruct (transferErr env); cbn [snd fst];
    try (split; reflexivity);
    rewrite Hp;
    destruct (statErr (displayEnv env)); try (split; reflexivity);
    destruct (fileSize (displayEnv env) =? 0); try (split; reflexivity);
    destruct (lookPath (displayEnv env)); try (split; reflexivity);
    destruct (runErr (displayEnv env)); split; reflexivity.
Qed.

(** One tick of [src/main.go] with metadata, by what it transfers and
    what it runs. *)
Lemma main_tick_pipeline rt env sd logs md :
  MainGo.getMetadata rt env = (logs, Ok md) ->
  transfers (snd (fst (MainGo.tick rt env sd)))
  = (if MainGo.artworkDue sd md then [fetchOf sd md.(ArtURL)] else [])
  /\ commands (snd (fst (MainGo.tick rt env sd)))
     = (if MainGo.artworkDue sd md
        then match env.(transferErr), mainRenderer env with
             | None, Some chafa =>
                 [Exec chafa (MainGo.chafaArgs (artworkPath sd))]
             | _, _ => []
             end
        else []).
Proof.
  intros Hg. rewrite (main_tick_ok rt env sd logs md Hg).
  assert (Hlt : transfers logs = []).
  { pose proof (main_getMetadata_only_logs rt env isFetch
                  (fun _ => eq_refl)) as H.
    now rewrite Hg in H. }
  assert (Hlc : commands logs = []).
  { pose proof (main_getMetadata_only_logs rt env isExec
                  (fun _ => eq_refl)) as H.
    now rewrite Hg in H. }
  destruct (MainGo.artworkDue sd md) eqn:Ed; cbn [fst snd];
    rewrite !transfers_app, !commands_app, Hlt, Hlc.
  - apply artworkDue_spec in Ed. destruct Ed as [_ Hne].
    destruct (main_updateArtwork_pipeline env sd md
                (MainGo.getTerminalSize sd (fst (termSize env))
                   (snd (termSize env))) Hne) as [Ht Hc].
    rewrite Ht, Hc. split; reflexivity.
  - split; reflexivity.
Qed.

(** One tick of [src/unnamed/part_000] with metadata. *)
Lemma part_tick_pipeline rt env sd md :
  Part000.getMetadata rt env = Ok md ->
  transfers (snd (fst (Part000.tick rt env sd)))
  = (if Part000.artworkDue sd md && negb (nilRequest env md.(ArtURL))
     then [fetchOf sd md.(ArtURL)] else [])
  /\ commands (snd (fst (Part000.tick rt env sd)))
     = (if Part000.artworkDue sd md && negb (nilRequest env md.(ArtURL))
        then match env.(transferErr), env.(displayEnv).(lookPath) with
             | None, Some chafa =>
                 [Exec chafa (MainGo.chafaArgs (artworkPath sd))]
             | _, _ => []
             end
        else [])
  /\ snd (Part000.tick rt env sd)
     = (if Part000.artworkDue sd md && nilRequest env md.(ArtURL)
        then Crashed else Running).
Proof.
  intros Hg. rewrite (part_tick_ok rt env sd md Hg).
  destruct (Part000.artworkDue sd md) eqn:Ed; cbn [fst snd andb];
    [|repeat split; reflexivity].
  apply (artworkDue_spec sd md) in Ed. destruct Ed as [_ Hne].
  rewrite (part_updateArtwork_effects env sd md _ Hne). cbn [fst snd].
  rewrite transfers_app, commands_app.
  change (transfers (Part000.drawTrackInfo md _
                     ++ Part000.drawProgressBar rt md _)) with (@nil Effect).
  change (commands (Part000.drawTrackInfo md _
                    ++ Part000.drawProgressBar rt md _)) with (@nil Effect).
  destruct (nilRequest env md.(ArtURL)); cbn [negb app];
    [repeat split; reflexivity|].
  unfold transfers, commands. cbn [filter].
  rewrite fetchOf_isFetch.
  assert (He : isExec (fetchOf sd md.(ArtURL)) = false)
    by (unfold fetchOf; destruct (GoStrings.HasPrefix _ "/"); reflexivity).
  rewrite He. unfold Part000.displayImage.
  destruct (transferErr env); [repeat split; reflexivity|].
  destruct (lookPath (displayEnv env)); repeat split; reflexivity.
Qed.

Lemma part_ticks_same_reference rt u : forall envs sd,
  Forall (presentsPart rt u) envs -> u <> "" ->
  (fetchCount (snd (fst (Part000.loop rt sd (map Tick envs))))
   <= if String.eqb u sd.(currentArtURL) then O else 1)%nat.
Proof.
  induction envs as [| env envs IH]; intros sd Hall Hne; [cbn; lia|].
  inversion Hall as [| ? ? [md [Hg Hu]] Hrest]; subst.
  pose proof (part_tick_fetch rt env sd md Hg) as Hf.
  cbn [map Part000.loop Part000.step].
  rewrite (part_tick_ok rt env sd md Hg) in *.
  unfold Part000.artworkDue in *.
  destruct (String.eqb_spec md.(ArtURL) sd.(currentArtURL)) as [E | E];
    destruct (String.eqb_spec md.(ArtURL) "") as [E0 | _];
    try contradiction; cbn [negb andb fst snd] in *.
  - specialize (IH sd Hrest Hne).
    destruct (String.eqb_spec md.(ArtURL) sd.(currentArtURL)) as [_ | N];
      [|contradiction].
    destruct (Part000.loop rt sd (map Tick envs)) as [[sd2 fx2] st2].
    cbn [fst snd] in *. rewrite fetchCount_app, Hf. lia.
  - specialize (IH (setArtURL sd md.(ArtURL)) Hrest Hne).
    cbn [currentArtURL setArtURL] in IH. rewrite String.eqb_refl in IH.
    destruct (snd (Part000.updateArtwork env sd md _)).
    + destruct (Part000.loop rt (setArtURL sd md.(ArtURL)) (map Tick envs))
        as [[sd2 fx2] st2].
      cbn [fst snd] in *. rewrite fetchCount_app, Hf.
      destruct (nilRequest env md.(ArtURL)); cbn [negb]; lia.
    + cbn [fst snd]. rewrite Hf.
      destruct (nilRequest env md.(ArtURL)); cbn [negb]; lia.
    + cbn [fst snd]. rewrite Hf.
      destruct (nilRequest env md.(ArtURL)); cbn [negb]; lia.
Qed.

Lemma part_ticks_empty_reference rt : forall envs sd,
  Forall (presentsPart rt "") envs ->
  fst (fst (Part000.loop rt sd (map Tick envs))) = sd
  /\ fetchCount (snd (fst (Part000.loop rt sd (map Tick envs)))) = O.
Proof.
  induction envs as [| env envs IH]; intros sd Hall.
  - cbn. split; reflexivity.
  - inversion Hall as [| ? ? [md [Hg Hu]] Hrest]; subst.
    cbn [map Part000.loop Part000.step].
    rewrite (part_tick_ok rt env sd md Hg).
    assert (Hd : Part000.artworkDue sd md = false).
    { unfold Part000.artworkDue. rewrite Hu. cbn. now rewrite andb_false_r. }
    rewrite Hd.
    destruct (IH sd Hrest) as [Hs' Hf'].
    destruct (Part000.loop rt sd (map Tick envs)) as [[sd2 fx2] st2].
    cbn [fst snd] in *. split; [exact Hs'|].
    rewrite fetchCount_app, Hf'. reflexivity.
Qed.

(** C5.  On a tick whose metadata fetch succeeds, the artwork pipeline
    runs if and only if the tick's art reference is non-empty and differs
    from the cached one.  In [src/main.go], when it does, exactly one
    transfer is attempted, that of the reference into the cache file, and
    the renderer is run once on that file exactly when the transfer
    succeeded, the file is there and not empty and chafa is found; when it
    does not, nothing is transferred and nothing is run.  In
    [src/unnamed/part_000] the same holds, with the renderer run whenever
    the transfer succeeded and chafa is found, except that a request that
    cannot be built panics the tick before anything is sent.  In both
    files, through any number of consecutive ticks that present the same
    non-empty reference at most one fetch is issued, and none if the slot
    already holds it; ticks with the empty reference never fetch and leave
    the state alone. *)
Theorem artwork_fetch_iff_changed rt :
  (forall env sd logs md,
      MainGo.getMetadata rt env = (logs, Ok md) ->
      (fetchCount (snd (fst (MainGo.tick rt env sd))) = 1%nat
       <-> md.(ArtURL) <> sd.(currentArtURL) /\ md.(ArtURL) <> "")
      /\ (fetchCount (snd (fst (MainGo.tick rt env sd))) = O
          <-> ~ (md.(ArtURL) <> sd.(currentArtURL) /\ md.(ArtURL) <> ""))
      /\ (md.(ArtURL) <> sd.(currentArtURL) /\ md.(ArtURL) <> "" ->
          transfers (snd (fst (MainGo.tick rt env sd)))
          = [fetchOf sd md.(ArtURL)]
          /\ commands (snd (fst (MainGo.tick rt env sd)))
             = match env.(transferErr), mainRenderer env with
               | None, Some chafa =>
                   [Exec chafa (MainGo.chafaArgs (artworkPath sd))]
               | _, _ => []
               end)
      /\ (~ (md.(ArtURL) <> sd.(currentArtURL) /\ md.(ArtURL) <> "") ->
          transfers (snd (fst (MainGo.tick rt env sd))) = []
          /\ commands (snd (fst (MainGo.tick rt env sd))) = []))
  /\ (forall env sd md,
        Part000.getMetadata rt env = Ok md ->
        ((fetchCount (snd (fst (Part000.tick rt env sd))) = 1%nat
          \/ snd (Part000.tick rt env sd) = Crashed)
         <-> md.(ArtURL) <> sd.(currentArtURL) /\ md.(ArtURL) <> "")
        /\ (md.(ArtURL) <> sd.(currentArtURL) /\ md.(ArtURL) <> "" ->
            nilRequest env md.(ArtURL) = false ->
            transfers (snd (fst (Part000.tick rt env sd)))
            = [fetchOf sd md.(ArtURL)]
            /\ commands (snd (fst (Part000.tick rt env sd)))
               = match env.(transferErr), env.(displayEnv).(lookPath) with
                 | None, Some chafa =>
                     [Exec chafa (MainGo.chafaArgs (artworkPath sd))]
                 | _, _ => []
                 end
            /\ snd (Part000.tick rt env sd) = Running)
        /\ (md.(ArtURL) <> sd.(currentArtURL) /\ md.(ArtURL) <> "" ->
            nilRequest env md.(ArtURL) = true ->
            transfers (snd (fst (Part000.tick rt env sd))) = []
            /\ commands (snd (fst (Part000.tick rt env sd))) = []
            /\ snd (Part000.tick rt env sd) = Crashed)
        /\ (~ (md.(ArtURL) <> sd.(currentArtURL) /\ md.(ArtURL) <> "") ->
            transfers (snd (fst (Part000.tick rt env sd))) = []
            /\ commands (snd (fst (Part000.tick rt env sd))) = []
            /\ snd (Part000.tick rt env sd) = Running))
  /\ (forall u envs sd,
        u <> "" -> Forall (presents rt u) envs ->
        (fetchCount (snd (fst (MainGo.loop rt sd (map Tick envs)))) <= 1)%nat
        /\ (sd.(currentArtURL) = u ->
            fetchCount (snd (fst (MainGo.loop rt sd (map Tick envs)))) = O))
  /\ (forall envs sd,
        Forall (presents rt "") envs ->
        fst (fst (MainGo.loop rt sd (map Tick envs))) = sd
        /\ fetchCount (snd (fst (MainGo.loop rt sd (map Tick envs)))) = O)
  /\ (forall u envs sd,
        u <> "" -> Forall (presentsPart rt u) envs ->
        (fetchCount (snd (fst (Part000.loop rt sd (map Tick envs)))) <= 1)%nat
        /\ (sd.(currentArtURL) = u ->
            fetchCount (snd (fst (Part000.loop rt sd (map Tick envs)))) = O))
  /\ (forall envs sd,
        Forall (presentsPart rt "") envs ->
        fst (fst (Part000.loop rt sd (map Tick envs))) = sd
        /\ fetchCount (snd (fst (Part000.loop rt sd (map Tick envs)))) = O).
Proof.
  split; [|split; [|split; [|split; [|split]]]].
  - intros env sd logs md Hg.
    destruct (count_iff _ _ _ (main_tick_fetch rt env sd logs md Hg)
                (artworkDue_spec sd md)) as [H1 H0].
    destruct (main_tick_pipeline rt env sd logs md Hg) as [Ht Hc].
    split; [exact H1|]. split; [exact H0|]. split.
    + intros Hd. apply artworkDue_spec in Hd.
      rewrite Hd in Ht, Hc. split; assumption.
    + intros Hd.
      assert (Ed : MainGo.artworkDue sd md = false).
      { destruct (MainGo.artworkDue sd md) eqn:E; [|reflexivity].
        apply artworkDue_spec in E. contradiction. }
      rewrite Ed in Ht, Hc. split; assumption.
  - intros env sd md Hg.
    pose proof (part_tick_fetch rt env sd md Hg) as Hf.
    destruct (part_tick_pipeline rt env sd md Hg) as [Ht [Hc Hs]].
    pose proof (artworkDue_spec sd md) as Hspec.
    change (MainGo.artworkDue sd md) with (Part000.artworkDue sd md) in Hspec.
    destruct (Part000.artworkDue sd md) eqn:Ed; cbn [andb] in *.
    + assert (Hd : md.(ArtURL) <> sd.(currentArtURL) /\ md.(ArtURL) <> "")
        by now apply Hspec.
      split; [|split; [|split]].
      * split; [intros _; exact Hd|]. intros _.
        destruct (nilRequest env md.(ArtURL)); cbn [negb] in *;
          [right; exact Hs | left; exact Hf].
      * intros _ Hn. rewrite Hn in *. cbn [negb] in *.
        repeat split; assumption.
      * intros _ Hn. rewrite Hn in *. cbn [negb] in *.
        repeat split; assumption.
      * intros Hnd. contradiction.
    + assert (Hnd : ~ (md.(ArtURL) <> sd.(currentArtURL)
                       /\ md.(ArtURL) <> "")).
      { intros Hd. apply Hspec in Hd. discriminate Hd. }
      split; [|split; [|split]].
      * split; [|intros Hd; contradiction].
        intros [H | H]; [rewrite Hf in H | rewrite Hs in H]; discriminate H.
      * intros Hd. contradiction.
      * intros Hd. contradiction.
      * intros _. repeat split; assumption.
  - intros u envs sd Hne Hall.
    destruct (main_ticks_same_reference rt u envs sd Hall Hne) as [_ [_ Hf]].
    rewrite Hf. split.
    + destruct (String.eqb u _); [lia|]. destruct envs; lia.
    + intros ->. now rewrite String.eqb_refl.
  - apply main_ticks_empty_reference.
  - intros u envs sd Hne Hall.
    pose proof (part_ticks_same_reference rt u envs sd Hall Hne) as Hf.
    split.
    + destruct (String.eqb u _); lia.
    + intros E. rewrite E, String.eqb_refl in Hf. lia.
  - apply part_ticks_empty_reference.
Qed.

Lemma artwork_fetch_iff_changed_witness :
  (fetchCount
     (snd (fst (MainGo.loop rt_amd64 (NewSpotifyDisplay "/c")
                  (map Tick
                     [sampleEnv (VInt64 240000000) (VInt64 0)
                        (quoted "file:///tmp/cover.png") None;
                      sampleEnv (VInt64 240000000) (VInt64 1000000)
                        (quoted "file:///tmp/cover.png") None])))) <= 1)%nat.
Proof.
  refine (proj1 (proj1 (proj2 (proj2 (artwork_fetch_iff_changed rt_amd64)))
                   "/tmp/cover.png" _ (NewSpotifyDisplay "/c") _ _)).
  - discriminate.
  - repeat constructor; eexists; eexists; split; vm_compute; reflexivity.
Defined.

(** ** The progress bar *)

(** The clamp of both files keeps the fill count within the bar, whatever
    the float computation and the platform give: neither [strings.Repeat]
    of [drawProgressBar] gets a negative count. *)
Lemma main_progress_bounds rt md : 0 <= MainGo.progress rt md <= 40.
Proof.
  unfold MainGo.progress, MainGo.barWidth.
  destruct (0 <? Length md); [|lia]. cbv zeta.
  set (p0 := GoFloat.to_int _ _).
  destruct (Z.ltb_spec p0 0).
  - cbn. lia.
  - destruct (Z.ltb_spec 40 p0); lia.
Qed.

Lemma part_progress_bounds rt md : 0 <= Part000.progress rt md <= 40.
Proof.
  unfold Part000.progress, Part000.barWidth. cbv zeta.
  set (p0 := GoFloat.to_int _ _).
  destruct (Z.ltb_spec p0 0); [lia|].
  destruct (Z.ltb_spec 40 p0); lia.
Qed.

(** With a length above zero the two files compute the same fill count. *)
Lemma progress_agree rt md :
  0 < md.(Length) -> Part000.progress rt md = MainGo.progress rt md.
Proof.
  intros H. unfold Part000.progress, MainGo.progress,
    Part000.barWidth, MainGo.barWidth. cbv zeta.
  destruct (Z.ltb_spec 0 (Length md)) as [_ | ?]; [|lia].
  set (p0 := GoFloat.to_int _ _).
  destruct (Z.ltb_spec p0 0); [reflexivity|].
  reflexivity.
Qed.

(** For every metadata record with [Length = 0], whatever its
    position and whatever the platform, [drawProgressBar] of
    [src/main.go] skips the division: the fill count is 0, the bar is 40
    empty glyphs and no filled one, that bar is what is written to the
    terminal, and both repeat counts are within range, so nothing faults. *)
Theorem drawProgressBar_zero_length rt md :
  md.(Length) = 0 ->
  MainGo.progress rt md = 0
  /\ MainGo.bar rt md = GoStrings.Repeat MainGo.emptyGlyph 40
  /\ (forall term, In (Stdout (GoStrings.Repeat MainGo.emptyGlyph 40))
                      (MainGo.drawProgressBar rt md term))
  /\ 0 <= MainGo.progress rt md
  /\ 0 <= GoInt.sub MainGo.barWidth (MainGo.progress rt md).
Proof.
  intros HL.
  assert (Hp : MainGo.progress rt md = 0)
    by (unfold MainGo.progress; now rewrite HL).
  assert (Hb : MainGo.bar rt md = GoStrings.Repeat MainGo.emptyGlyph 40)
    by (unfold MainGo.bar; now rewrite Hp).
  split; [exact Hp|]. split; [exact Hb|]. split.
  - intros term. unfold MainGo.drawProgressBar. cbv zeta. rewrite Hb.
    cbn. tauto.
  - rewrite Hp. split; [lia | discriminate].
Qed.

Lemma drawProgressBar_zero_length_witness :
  MainGo.progress rt_arm64 (sampleTrack 0 17) = 0.
Proof.
  refine (proj1 (drawProgressBar_zero_length rt_arm64 (sampleTrack 0 17) _)).
  reflexivity.
Defined.

(** Without the test of [Length], the fill count of
    [src/unnamed/part_000] for a zero length is what the platform makes of
    an infinite or NaN float: 0 with the amd64 conversion, but a full bar
    with the saturating arm64 conversion when the position is positive. *)
Lemma part_progress_zero_length_platform :
  Part000.progress rt_amd64 (sampleTrack 0 17) = 0
  /\ Part000.progress rt_amd64 (sampleTrack 0 0) = 0
  /\ Part000.progress rt_arm64 (sampleTrack 0 17) = 40
  /\ Part000.progress rt_arm64 (sampleTrack 0 0) = 0.
Proof. repeat split; vm_compute; reflexivity. Qed.

(** C2 (defect of [src/unnamed/part_000]).  For a record of length 0 and
    position 17, [drawProgressBar] of [src/main.go] skips the division and
    draws 40 empty glyphs; [src/unnamed/part_000] has no test of the
    length, divides by zero in floating point, and with the saturating
    float-to-int conversion of arm64 draws a full bar of 40 filled
    glyphs. *)
Theorem zero_length_full_bar_in_part000 :
  (sampleTrack 0 17).(Length) = 0
  /\ MainGo.progress rt_arm64 (sampleTrack 0 17) = 0
  /\ MainGo.bar rt_arm64 (sampleTrack 0 17)
     = GoStrings.Repeat MainGo.emptyGlyph 40
  /\ Part000.progress rt_arm64 (sampleTrack 0 17) = 40
  /\ Part000.bar rt_arm64 (sampleTrack 0 17)
     = GoStrings.Repeat MainGo.filledGlyph 40.
Proof. repeat apply conj; vm_compute; reflexivity. Qed.

(** ** Binary64 rounding *)

Lemma ulp_pos e : - bias <= e -> 0 < ulp e.
Proof. intros H. unfold ulp. apply Z.pow_pos_nonneg; lia. Qed.

Lemma ulp_succ e : - bias <= e -> ulp (e + 1) = 2 * ulp e.
Proof.
  intros H. unfold ulp.
  replace (e + 1 + bias) with (Z.succ (e + bias)) by lia.
  rewrite Z.pow_succ_r by lia. reflexivity.
Qed.

Lemma ulp_add e n : - bias <= e -> 0 <= n -> ulp (e + n) = 2 ^ n * ulp e.
Proof.
  intros H Hn. unfold ulp.
  replace (e + n + bias) with (n + (e + bias)) by lia.
  rewrite Z.pow_add_r by lia. reflexivity.
Qed.

Lemma ulp_le e e' : - bias <= e -> e <= e' -> ulp e <= ulp e'.
Proof. intros H H'. unfold ulp. apply Z.pow_le_mono_r; lia. Qed.

Lemma ulp_double_le e e' : - bias <= e -> e + 1 <= e' -> 2 * ulp e <= ulp e'.
Proof.
  intros H H'. rewrite <- ulp_succ by lia. apply ulp_le; lia.
Qed.

(** The number of binary digits. *)
Lemma digits2_pos_bounds (p : positive) :
  2 ^ (Z.pos (digits2_pos p) - 1) <= Z.pos p < 2 ^ Z.pos (digits2_pos p).
Proof.
  induction p as [p IH | p IH |]; cbn [digits2_pos].
  - rewrite Pos2Z.inj_succ.
    replace (Z.succ (Z.pos (digits2_pos p)) - 1)
      with (Z.succ (Z.pos (digits2_pos p) - 1)) by lia.
    rewrite !Z.pow_succ_r by lia. lia.
  - rewrite Pos2Z.inj_succ.
    replace (Z.succ (Z.pos (digits2_pos p)) - 1)
      with (Z.succ (Z.pos (digits2_pos p) - 1)) by lia.
    rewrite !Z.pow_succ_r by lia. lia.
  - cbn. lia.
Qed.

Lemma digits_unique (m d : Z) :
  0 < d -> 2 ^ (d - 1) <= m < 2 ^ d -> Zdigits2 m = d.
Proof.
  intros Hd [Hlo Hhi].
  assert (0 < m) by (pose proof (Z.pow_pos_nonneg 2 (d - 1)); lia).
  destruct m as [| p | p]; try lia. cbn [Zdigits2].
  pose proof (digits2_pos_bounds p) as [Hl Hh].
  set (d' := Z.pos (digits2_pos p)) in *.
  destruct (Z.lt_trichotomy d' d) as [Hlt | [Heq | Hgt]]; [|exact Heq|].
  - assert (2 ^ d' <= 2 ^ (d - 1)) by (apply Z.pow_le_mono_r; lia). lia.
  - assert (2 ^ d <= 2 ^ (d' - 1)) by (apply Z.pow_le_mono_r; lia). lia.
Qed.

(** [iter_pos] is plain iteration. *)
Lemma iter_pos_nat {A : Type} (f : A -> A) (p : positive) (x : A) :
  iter_pos f p x = Nat.iter (Pos.to_nat p) f x.
Proof.
  revert x. induction p as [p IH | p IH |]; intros x; cbn [iter_pos].
  - rewrite !IH, Pos2Nat.inj_xI.
    replace (S (2 * Pos.to_nat p))
      with (Pos.to_nat p + (Pos.to_nat p + 1))%nat by lia.
    rewrite !Nat.iter_add. reflexivity.
  - rewrite !IH, Pos2Nat.inj_xO.
    replace (2 * Pos.to_nat p)%nat
      with (Pos.to_nat p + Pos.to_nat p)%nat by lia.
    rewrite Nat.iter_add. reflexivity.
  - reflexivity.
Qed.

Lemma shr_1_located N D m e r s :
  0 <= m -> - bias <= e -> 0 < D ->
  located N D m e r s ->
  located N D (shr_m (shr_1 (Build_shr_record m r s))) (e + 1)
              (shr_r (shr_1 (Build_shr_record m r s)))
              (shr_s (shr_1 (Build_shr_record m r s)))
  /\ 0 <= shr_m (shr_1 (Build_shr_record m r s))
  /\ shr_m (shr_1 (Build_shr_record m r s)) = m / 2.
Proof.
  intros Hm He HD. unfold located.
  rewrite ulp_succ by exact He.
  pose proof (ulp_pos e He) as Hu.
  assert (HU : 0 < ulp e * D) by (apply Z.mul_pos_pos; assumption).
  set (U := ulp e * D) in *.
  replace (2 * ulp e * D) with (2 * U) by (unfold U; ring).
  set (X := N * fixedOne) in *. clearbody X U. clear Hu HD.
  destruct m as [| [p | p |] |]; [| | | |exfalso; apply Hm; reflexivity].
  all: cbn [shr_1 shr_m shr_r shr_s].
  all: rewrite ?(Pos2Z.inj_xI p), ?(Pos2Z.inj_xO p).
  all: intros [HR Hloc].
  all: split; [|split].
  all: try (destruct r, s; cbn [orb]; lia).
  all: try lia.
  all: try reflexivity.
  all: first [ apply (Z.div_unique _ 2 _ 1); lia
             | apply (Z.div_unique _ 2 _ 0); lia ].
Qed.

Lemma shr_record_eta (x : shr_record) :
  x = Build_shr_record (shr_m x) (shr_r x) (shr_s x).
Proof. now destruct x. Qed.

Lemma shr_iter_located N D e (n : nat) : forall m r s,
  0 <= m -> - bias <= e -> 0 < D ->
  located N D m e r s ->
  let x := Nat.iter n shr_1 (Build_shr_record m r s) in
  located N D (shr_m x) (e + Z.of_nat n) (shr_r x) (shr_s x)
  /\ 0 <= shr_m x
  /\ shr_m x = m / 2 ^ Z.of_nat n.
Proof.
  induction n as [| n IH]; intros m r s Hm He HD Hloc.
  - cbn [Nat.iter shr_m shr_r shr_s]. rewrite Z.add_0_r.
    change (2 ^ Z.of_nat 0) with 1. rewrite Z.div_1_r. auto.
  - cbv zeta.
    change (Nat.iter (S n) shr_1 (Build_shr_record m r s))
      with (shr_1 (Nat.iter n shr_1 (Build_shr_record m r s))).
    destruct (IH m r s Hm He HD Hloc) as [Hl [H0 Hd]].
    destruct (Nat.iter n shr_1 (Build_shr_record m r s)) as [m' r' s'].
    cbn [shr_m shr_r shr_s] in Hl, H0, Hd.
    destruct (shr_1_located N D m' (e + Z.of_nat n) r' s'
                H0 ltac:(lia) HD Hl) as [Hl' [H0' Hd']].
    replace (e + Z.of_nat (S n)) with (e + Z.of_nat n + 1) by lia.
    split; [exact Hl'|]. split; [exact H0'|].
    rewrite Hd', Hd, Nat2Z.inj_succ, Z.pow_succ_r by lia.
    rewrite Z.div_div by (try apply Z.pow_pos_nonneg; lia).
    f_equal. ring.
Qed.

(** The right shift of [shr], on a located non-negative mantissa. *)
Lemma shr_located N D m e r s n :
  0 <= m -> - bias <= e -> 0 < D -> 0 <= n ->
  located N D m e r s ->
  let x := fst (shr (Build_shr_record m r s) e n) in
  snd (shr (Build_shr_record m r s) e n) = e + n
  /\ located N D (shr_m x) (e + n) (shr_r x) (shr_s x)
  /\ shr_m x = m / 2 ^ n.
Proof.
  intros Hm He HD Hn Hloc. destruct n as [| p | p]; try lia.
  - cbn [shr fst snd shr_m shr_r shr_s]. rewrite Z.add_0_r, Z.div_1_r. auto.
  - cbn [shr fst snd]. rewrite iter_pos_nat.
    destruct (shr_iter_located N D e (Pos.to_nat p) m r s Hm He HD Hloc)
      as [Hl [_ Hd]].
    rewrite positive_nat_Z in *. auto.
Qed.

Lemma rounded_bounds m r s : m <= rounded m r s <= m + 1.
Proof.
  unfold rounded. destruct r, s; cbn; try lia. destruct (Z.even m); lia.
Qed.

Lemma fexp_normal (e : Z) :
  - 1074 <= e - 53 -> fexp GoFloat.prec GoFloat.emax e = e - 53.
Proof.
  intros H. unfold fexp, emin, GoFloat.prec, GoFloat.emax. lia.
Qed.

Lemma shifted_mantissa_bounds (mx d : Z) :
  53 <= d -> 2 ^ (d - 1) <= mx < 2 ^ d ->
  B52 <= mx / 2 ^ (d - 53) < 2 * B52.
Proof.
  intros Hd [Hlo Hhi]. unfold B52.
  assert (Hp : 0 < 2 ^ (d - 53)) by (apply Z.pow_pos_nonneg; lia).
  assert (E1 : 2 ^ (d - 1) = 2 ^ 52 * 2 ^ (d - 53)).
  { rewrite <- Z.pow_add_r by lia. f_equal. lia. }
  assert (E2 : 2 ^ d = 2 * 2 ^ 52 * 2 ^ (d - 53)).
  { change (2 * 2 ^ 52) with (2 ^ 53). rewrite <- Z.pow_add_r by lia.
    f_equal. lia. }
  split.
  - apply Z.div_le_lower_bound; lia.
  - apply Z.div_lt_upper_bound; lia.
Qed.

Lemma binary_round_aux_rne N D mx ex lx r s d :
  shr_record_of_loc mx lx = Build_shr_record mx r s ->
  0 < D -> 0 < mx -> Zdigits2 mx = d -> 53 <= d ->
  - bias <= ex -> ex + (d - 53) + 1 <= 971 ->
  located N D mx ex r s ->
  exists m e,
    binary_round_aux GoFloat.prec GoFloat.emax false mx ex lx
    = S754_finite false m e
    /\ B52 <= Z.pos m < 2 * B52
    /\ ex <= e <= ex + (d - 53) + 1
    /\ rne_val N D (Z.pos m) e.
Proof.
  intros Hrec HD Hmx Hdig Hd Hex Hmax Hloc.
  assert (Hb : 2 ^ (d - 1) <= mx < 2 ^ d).
  { destruct mx as [| p | p]; try lia. cbn [Zdigits2] in Hdig. subst d.
    apply digits2_pos_bounds. }
  unfold binary_round_aux, shr_fexp. rewrite Hrec, Hdig.
  rewrite fexp_normal by (unfold bias in *; lia).
  replace (d + ex - 53 - ex) with (d - 53) by lia.
  destruct (shr_located N D mx ex r s (d - 53) ltac:(lia) Hex HD ltac:(lia) Hloc)
    as [He0 [Hl0 Hm0]].
  destruct (shr (Build_shr_record mx r s) ex (d - 53)) as [[m0 r0 s0] e0].
  cbn [fst snd shr_m shr_r shr_s] in He0, Hl0, Hm0.
  pose proof (shifted_mantissa_bounds mx d Hd Hb) as Hm0b.
  rewrite <- Hm0 in Hm0b. clear Hm0.
  cbn [shr_m]. fold (rounded m0 r0 s0).
  pose proof (rounded_bounds m0 r0 s0) as Hr.
  remember (rounded m0 r0 s0) as m1 eqn:Em1.
  assert (Hcases : m1 < 2 * B52 \/ m1 = 2 * B52) by lia.
  destruct Hcases as [Hlt | Heq].
  - assert (Hd1 : Zdigits2 m1 = 53)
      by (apply digits_unique; [lia | unfold B52 in *; cbn in *; lia]).
    rewrite Hd1. cbn [shr_record_of_loc].
    rewrite fexp_normal by (unfold bias in *; lia).
    replace (53 + e0 - 53 - e0) with 0 by lia. cbn [shr shr_m].
    destruct m1 as [| p | p]; try (unfold B52 in *; lia).
    assert (Hle : (e0 <=? GoFloat.emax - GoFloat.prec) = true)
      by (apply Z.leb_le; unfold GoFloat.emax, GoFloat.prec; lia).
    rewrite Hle. exists p, e0. split; [reflexivity|].
    split; [lia|]. split; [lia|].
    exists m0, e0, r0, s0. subst e0.
    split; [lia|]. split; [exact Hm0b|]. split; [exact Hl0|].
    split; [lia | now rewrite <- Em1].
  - rewrite Heq. change (Zdigits2 (2 * B52)) with 54.
    cbn [shr_record_of_loc].
    rewrite fexp_normal by (unfold bias in *; lia).
    replace (54 + e0 - 53 - e0) with 1 by lia.
    change (shr_m (fst (shr {| shr_m := 2 * B52; shr_r := false;
                              shr_s := false |} e0 1)))
      with B52.
    cbn [shr snd]. change B52 with (Z.pos (2 ^ 52)) at 1.
    cbv iota.
    assert (Hle : (e0 + 1 <=? GoFloat.emax - GoFloat.prec) = true)
      by (apply Z.leb_le; unfold GoFloat.emax, GoFloat.prec; lia).
    rewrite Hle. exists (2 ^ 52)%positive, (e0 + 1). split; [reflexivity|].
    change (Z.pos (2 ^ 52)) with B52.
    split; [unfold B52; lia|]. split; [lia|].
    exists m0, e0, r0, s0. subst e0.
    split; [lia|]. split; [exact Hm0b|]. split; [exact Hl0|].
    split; [lia|].
    rewrite <- Em1, Heq. unfold fval. rewrite ulp_succ by lia. ring.
Qed.

(** *** Rounding is monotone *)

Lemma rounded_mono m0 R R' U U' D D' r s r' s' :
  0 < D -> 0 < D' -> 0 < U -> 0 < U' ->
  U * D' = U' * D -> R * D' <= R' * D ->
  match r, s with
  | false, false => R = 0
  | false, true => 0 < 2 * R < U
  | true, false => 2 * R = U
  | true, true => U < 2 * R
  end ->
  match r', s' with
  | false, false => R' = 0
  | false, true => 0 < 2 * R' < U'
  | true, false => 2 * R' = U'
  | true, true => U' < 2 * R'
  end ->
  rounded m0 r s <= rounded m0 r' s'.
Proof.
  intros HD HD' HU HU' HW HR Hf Hf'.
  unfold rounded.
  destruct r, s, r', s'; cbn [loc_of_shr_record round_nearest_even];
    destruct (Z.even m0); try lia; exfalso; nia.
Qed.

Lemma fixedOne_pos : 0 < fixedOne.
Proof. unfold fixedOne, bias. lia. Qed.

Lemma rne_val_mono N D m e N' D' m' e' :
  0 < D -> 0 < D' ->
  rne_val N D m e -> rne_val N' D' m' e' ->
  N * D' <= N' * D ->
  fval m e <= fval m' e'.
Proof.
  intros HD HD' [m0 [e0 [r [s [He0 [Hm0 [[HR Hf] [_ Hv]]]]]]]]
         [m0' [e0' [r' [s' [He0' [Hm0' [[HR' Hf'] [_ Hv']]]]]]]] Hle.
  rewrite Hv, Hv'. clear Hv Hv' m e m' e'.
  pose proof (rounded_bounds m0 r s) as Hb.
  pose proof (rounded_bounds m0' r' s') as Hb'.
  pose proof (ulp_pos e0 He0) as HP.
  pose proof (ulp_pos e0' He0') as HP'.
  assert (HX : N * fixedOne * D' <= N' * fixedOne * D).
  { pose proof fixedOne_pos.
    replace (N * fixedOne * D') with (N * D' * fixedOne) by ring.
    replace (N' * fixedOne * D) with (N' * D * fixedOne) by ring.
    apply Z.mul_le_mono_nonneg_r; lia. }
  unfold fval.
  set (P := ulp e0) in *. set (P' := ulp e0') in *.
  set (X := N * fixedOne) in *. set (X' := N' * fixedOne) in *.
  assert (HB : 0 < B52) by (unfold B52; lia).
  destruct (Z.lt_trichotomy e0 e0') as [Hlt | [Heq | Hgt]].
  - (* the second value is in a higher binade *)
    assert (H2 : 2 * P <= P') by (apply ulp_double_le; lia).
    apply Z.le_trans with (2 * B52 * P).
    + apply Z.mul_le_mono_nonneg_r; lia.
    + apply Z.le_trans with (B52 * P').
      * replace (2 * B52 * P) with (B52 * (2 * P)) by ring.
        apply Z.mul_le_mono_nonneg_l; lia.
      * apply Z.mul_le_mono_nonneg_r; lia.
  - (* the same binade *)
    subst e0'. subst P'.
    assert (Hm : m0 <= m0').
    { assert (m0 * (P * D) * D' < (m0' + 1) * (P * D') * D) by nia.
      assert (0 < P * D * D') by (apply Z.mul_pos_pos; nia).
      nia. }
    destruct (Z.eq_dec m0 m0') as [<- | Hne].
    + apply Z.mul_le_mono_nonneg_r; [lia|].
      apply (rounded_mono m0 (X - m0 * (P * D)) (X' - m0 * (P * D'))
               (P * D) (P * D') D D'); try assumption; try nia.
    + apply Z.mul_le_mono_nonneg_r; lia.
  - (* the first value would be in a higher binade: impossible *)
    exfalso.
    assert (H2 : 2 * P' <= P) by (apply ulp_double_le; lia).
    assert (H3 : 2 * B52 * P' * D * D' <= X * D').
    { apply Z.le_trans with (m0 * (P * D) * D'); [|nia].
      assert (2 * B52 * P' <= m0 * P) by nia.
      assert (0 <= D * D') by nia. nia. }
    assert (H4 : X' * D < 2 * B52 * P' * D' * D).
    { apply Z.lt_le_trans with ((m0' + 1) * (P' * D') * D); [nia|].
      assert ((m0' + 1) * P' <= 2 * B52 * P') by nia.
      assert (0 <= D' * D) by nia. nia. }
    nia.
Qed.

(** *** The operations of the progress computation *)

Lemma iter_xO (p k : positive) :
  Z.pos (Pos.iter xO p k) = Z.pos p * 2 ^ Z.pos k.
Proof.
  induction k as [| k IH] using Pos.peano_ind.
  - cbn [Pos.iter]. lia.
  - rewrite Pos.iter_succ, Pos2Z.inj_xO, IH, Pos2Z.inj_succ.
    rewrite Z.pow_succ_r by lia. ring.
Qed.

(** [float64(n)] is exact for [0 < n < 2^53]. *)
Lemma of_int_exact (n : Z) :
  0 < n < 2 ^ 53 ->
  exists m e,
    GoFloat.of_int n = S754_finite false m e
    /\ canonical m /\ -52 <= e <= 0
    /\ fval (Z.pos m) e = n * fixedOne.
Proof.
  intros [Hn0 Hn]. destruct n as [| p | p]; try lia.
  unfold GoFloat.of_int, binary_normalize, binary_round.
  pose proof (digits2_pos_bounds p) as Hb.
  set (d := Z.pos (digits2_pos p)) in *.
  assert (Hd : 1 <= d <= 53).
  { split; [unfold d; lia|].
    destruct (Z.le_gt_cases d 53) as [H | H]; [exact H|].
    assert (2 ^ 53 <= 2 ^ (d - 1)) by (apply Z.pow_le_mono_r; lia). lia. }
  rewrite Z.add_0_r, fexp_normal by lia.
  (* the aligned mantissa and exponent *)
  assert (Hal : exists mz,
             shl_align p 0 (d - 53) = (mz, d - 53)
             /\ Z.pos mz = Z.pos p * 2 ^ (53 - d)).
  { unfold shl_align. rewrite Z.sub_0_r.
    destruct (d - 53) as [| k | k] eqn:Ek; try lia.
    - exists p. split; [reflexivity|].
      replace (53 - d) with 0 by lia. lia.
    - exists (Pos.iter xO p k). split; [reflexivity|].
      rewrite iter_xO. f_equal. f_equal. lia. }
  destruct Hal as [mz [-> Hmz]].
  assert (Hc : canonical mz).
  { unfold canonical, B52. rewrite Hmz.
    assert (E1 : 2 ^ 52 = 2 ^ (d - 1) * 2 ^ (53 - d)).
    { rewrite <- Z.pow_add_r by lia. f_equal. lia. }
    assert (E2 : 2 * 2 ^ 52 = 2 ^ d * 2 ^ (53 - d)).
    { change (2 * 2 ^ 52) with (2 ^ 53). rewrite <- Z.pow_add_r by lia.
      f_equal. lia. }
    assert (0 < 2 ^ (53 - d)) by (apply Z.pow_pos_nonneg; lia).
    rewrite E2, E1. nia. }
  assert (Hdz : Zdigits2 (Z.pos mz) = 53).
  { apply digits_unique; [lia|]. unfold canonical, B52 in Hc.
    change (2 ^ (53 - 1)) with (2 ^ 52). change (2 ^ 53) with (2 * 2 ^ 52).
    exact Hc. }
  unfold binary_round_aux, shr_fexp. rewrite Hdz.
  cbn [shr_record_of_loc].
  rewrite fexp_normal by lia.
  replace (53 + (d - 53) - 53 - (d - 53)) with 0 by lia.
  cbn [shr shr_m loc_of_shr_record round_nearest_even]. rewrite Hdz.
  rewrite fexp_normal by lia.
  replace (53 + (d - 53) - 53 - (d - 53)) with 0 by lia.
  cbn [shr shr_m].
  assert (Hle : (d - 53 <=? GoFloat.emax - GoFloat.prec) = true)
    by (apply Z.leb_le; unfold GoFloat.emax, GoFloat.prec; lia).
  rewrite Hle. exists mz, (d - 53). split; [reflexivity|].
  split; [exact Hc|]. split; [lia|].
  unfold fval, ulp, fixedOne, bias. rewrite Hmz.
  replace (d - 53 + 200) with (200 - (53 - d)) by lia.
  assert (E : 2 ^ 200 = 2 ^ (53 - d) * 2 ^ (200 - (53 - d))).
  { rewrite <- Z.pow_add_r by lia. f_equal. lia. }
  rewrite E. ring.
Qed.

Lemma ulp_mul (e e' : Z) :
  - bias <= e + e' -> - bias <= e -> - bias <= e' ->
  ulp e * ulp e' = ulp (e + e') * fixedOne.
Proof.
  intros H H1 H2. unfold ulp, fixedOne, bias in *.
  rewrite <- !Z.pow_add_r by lia. f_equal. lia.
Qed.

Lemma digits_ge (m lo : Z) :
  0 <= lo -> 2 ^ lo <= m -> lo + 1 <= Zdigits2 m.
Proof.
  intros Hlo Hm.
  assert (0 < m) by (pose proof (Z.pow_pos_nonneg 2 lo); lia).
  destruct m as [| p | p]; try lia. cbn [Zdigits2].
  pose proof (digits2_pos_bounds p) as [_ Hh].
  destruct (Z.le_gt_cases (lo + 1) (Z.pos (digits2_pos p))) as [H1 | H1];
    [exact H1|].
  assert (2 ^ Z.pos (digits2_pos p) <= 2 ^ lo)
    by (apply Z.pow_le_mono_r; lia).
  lia.
Qed.

Lemma digits_le (m hi : Z) :
  0 < m -> 0 <= hi -> m < 2 ^ hi -> Zdigits2 m <= hi.
Proof.
  intros H0 Hhi Hm. destruct m as [| p | p]; try lia. cbn [Zdigits2].
  pose proof (digits2_pos_bounds p) as [Hl _].
  destruct (Z.le_gt_cases (Z.pos (digits2_pos p)) hi) as [H1 | H1];
    [exact H1|].
  assert (2 ^ hi <= 2 ^ (Z.pos (digits2_pos p) - 1))
    by (apply Z.pow_le_mono_r; lia).
  lia.
Qed.

(** The product of two canonical positive floats is the correct rounding
    of the product of their values. *)
Lemma SFmul_rne (mx : positive) (ex : Z) (my : positive) (ey : Z) :
  canonical mx -> canonical my ->
  - bias <= ex -> - bias <= ey -> - bias <= ex + ey -> ex + ey <= 800 ->
  exists m e,
    GoFloat.mul (S754_finite false mx ex) (S754_finite false my ey)
    = S754_finite false m e
    /\ canonical m /\ - bias <= e
    /\ rne_val (fval (Z.pos mx) ex * fval (Z.pos my) ey) (fixedOne * fixedOne)
               (Z.pos m) e.
Proof.
  intros Hx Hy Hex Hey Hxy Hhi. unfold canonical, B52 in Hx, Hy.
  unfold GoFloat.mul, SFmul. cbn [xorb].
  set (mz := Z.pos (mx * my)).
  assert (Hmz : mz = Z.pos mx * Z.pos my) by reflexivity.
  assert (Hlo : 2 ^ 104 <= mz).
  { change (2 ^ 104) with (2 ^ 52 * 2 ^ 52). rewrite Hmz. nia. }
  assert (Hup : mz < 2 ^ 106).
  { change (2 ^ 106) with ((2 * 2 ^ 52) * (2 * 2 ^ 52)). rewrite Hmz. nia. }
  pose proof (digits_ge mz 104 ltac:(lia) Hlo) as Hd1.
  pose proof (digits_le mz 106 ltac:(lia) ltac:(lia) Hup) as Hd2.
  pose proof fixedOne_pos as H1.
  assert (HD : 0 < fixedOne * fixedOne) by (apply Z.mul_pos_pos; exact H1).
  assert (Hloc : located (fval (Z.pos mx) ex * fval (Z.pos my) ey)
                   (fixedOne * fixedOne) mz (ex + ey) false false).
  { unfold located.
    assert (E : fval (Z.pos mx) ex * fval (Z.pos my) ey * fixedOne
                - mz * (ulp (ex + ey) * (fixedOne * fixedOne)) = 0).
    { unfold fval. rewrite Hmz.
      replace (Z.pos mx * ulp ex * (Z.pos my * ulp ey) * fixedOne)
        with (Z.pos mx * Z.pos my * (ulp ex * ulp ey) * fixedOne) by ring.
      rewrite ulp_mul by lia. ring. }
    rewrite E. split; [|reflexivity].
    split; [lia|]. apply Z.mul_pos_pos; [apply ulp_pos; lia | exact HD]. }
  destruct (binary_round_aux_rne
              (fval (Z.pos mx) ex * fval (Z.pos my) ey) (fixedOne * fixedOne)
              mz (ex + ey) loc_Exact false false (Zdigits2 mz)
              eq_refl HD ltac:(lia) eq_refl ltac:(lia) Hxy ltac:(lia) Hloc)
    as [m [e [Hr [Hc [He Hv]]]]].
  exists m, e. split; [exact Hr|]. split; [exact Hc|]. split; [lia|].
  exact Hv.
Qed.

Lemma new_location_flags (my r q : Z) :
  0 < my -> 0 <= r < my ->
  exists rr ss,
    shr_record_of_loc q (new_location my r) = Build_shr_record q rr ss
    /\ match rr, ss with
       | false, false => r = 0
       | false, true => 0 < 2 * r < my
       | true, false => 2 * r = my
       | true, true => my < 2 * r
       end.
Proof.
  intros Hmy Hr. unfold new_location.
  destruct (Z.even my) eqn:Ev.
  - unfold new_location_even.
    destruct (Z.eqb_spec r 0) as [-> | Hne].
    + exists false, false. split; reflexivity.
    + destruct (Z.compare_spec (2 * r) my) as [E | E | E].
      * exists true, false. split; [reflexivity | exact E].
      * exists false, true. split; [reflexivity | lia].
      * exists true, true. split; [reflexivity | lia].
  - unfold new_location_odd.
    assert (Hodd : exists k, my = 2 * k + 1).
    { apply Z.odd_spec. rewrite <- Z.negb_even, Ev. reflexivity. }
    destruct Hodd as [k Hk].
    destruct (Z.eqb_spec r 0) as [-> | Hne].
    + exists false, false. split; reflexivity.
    + destruct (Z.compare_spec (2 * r + 1) my) as [E | E | E].
      * exists false, true. split; [reflexivity | lia].
      * exists false, true. split; [reflexivity | lia].
      * exists true, true. split; [reflexivity | lia].
Qed.

Lemma canonical_digits (m : positive) : canonical m -> Zdigits2 (Z.pos m) = 53.
Proof.
  intros Hc. apply digits_unique; [lia|]. unfold canonical, B52 in Hc.
  change (2 ^ (53 - 1)) with (2 ^ 52). change (2 ^ 53) with (2 * 2 ^ 52).
  exact Hc.
Qed.

(** The quotient of two canonical positive floats is the correct rounding
    of the quotient of their values. *)
Lemma SFdiv_rne (mx : positive) (ex : Z) (my : positive) (ey : Z) :
  canonical mx -> canonical my ->
  - bias <= ex -> - bias <= ey -> - bias <= ex - ey - 53 ->
  ex - ey <= 800 ->
  exists m e,
    GoFloat.div (S754_finite false mx ex) (S754_finite false my ey)
    = S754_finite false m e
    /\ canonical m /\ ex - ey - 53 <= e <= ex - ey + 1
    /\ rne_val (fval (Z.pos mx) ex) (fval (Z.pos my) ey) (Z.pos m) e.
Proof.
  intros Hx Hy Hex Hey He' Hhi.
  unfold GoFloat.div, SFdiv, SFdiv_core_binary. cbn [xorb].
  rewrite (canonical_digits mx Hx), (canonical_digits my Hy).
  replace (53 + ex - (53 + ey)) with (ex - ey) by lia.
  rewrite fexp_normal by (unfold bias in *; lia).
  rewrite Z.min_l by lia.
  replace (ex - ey - (ex - ey - 53)) with 53 by lia.
  cbv iota beta.
  rewrite Z.shiftl_mul_pow2 by lia.
  pose proof (Z_div_mod (Z.pos mx * 2 ^ 53) (Z.pos my) ltac:(lia)) as Hdm.
  destruct (Z.div_eucl (Z.pos mx * 2 ^ 53) (Z.pos my)) as [q r].
  destruct Hdm as [Hq Hr].
  unfold canonical, B52 in Hx, Hy.
  assert (Hqlo : 2 ^ 52 <= q) by nia.
  assert (Hqhi : q < 2 ^ 54) by nia.
  pose proof (digits_ge q 52 ltac:(lia) Hqlo) as Hd1.
  pose proof (digits_le q 54 ltac:(lia) ltac:(lia) Hqhi) as Hd2.
  destruct (new_location_flags (Z.pos my) r q ltac:(lia) Hr)
    as [rr [ss [Hrec Hfl]]].
  set (e' := ex - ey - 53) in *.
  set (W := ulp e' * ulp ey).
  assert (HW : 0 < W)
    by (apply Z.mul_pos_pos; apply ulp_pos; unfold e'; lia).
  assert (HWx : ulp ex * fixedOne = 2 ^ 53 * W).
  { unfold W, ulp, fixedOne, e', bias in *.
    rewrite <- !Z.pow_add_r by lia. f_equal. lia. }
  assert (HN : fval (Z.pos mx) ex * fixedOne = (Z.pos my * q + r) * W).
  { unfold fval. rewrite <- Z.mul_assoc, HWx, <- Hq. ring. }
  assert (HU : ulp e' * fval (Z.pos my) ey = Z.pos my * W).
  { unfold fval, W. ring. }
  assert (HD : 0 < fval (Z.pos my) ey).
  { unfold fval. apply Z.mul_pos_pos; [lia | apply ulp_pos; lia]. }
  assert (Hloc : located (fval (Z.pos mx) ex) (fval (Z.pos my) ey)
                   q e' rr ss).
  { unfold located. rewrite HN, HU.
    replace ((Z.pos my * q + r) * W - q * (Z.pos my * W)) with (r * W)
      by ring.
    split; [nia|]. destruct rr, ss; nia. }
  destruct (binary_round_aux_rne
              (fval (Z.pos mx) ex) (fval (Z.pos my) ey)
              q e' (new_location (Z.pos my) r) rr ss (Zdigits2 q)
              Hrec HD ltac:(lia) eq_refl ltac:(lia) He' ltac:(lia) Hloc)
    as [m [e [Hres [Hc [He Hv]]]]].
  exists m, e. split; [exact Hres|]. split; [exact Hc|].
  split; [unfold e' in *; lia | exact Hv].
Qed.

(** The integer part of a positive float, on the fixed-point scale. *)
Lemma trunc_fval (m : positive) (e : Z) :
  - bias <= e ->
  GoFloat.trunc (S754_finite false m e) = Some (fval (Z.pos m) e / fixedOne).
Proof.
  intros He. unfold GoFloat.trunc, fval, ulp, fixedOne. f_equal.
  unfold bias in *.
  destruct (Z.leb_spec 0 e) as [H | H].
  - rewrite Z.pow_add_r by lia. rewrite Z.mul_assoc, Z.div_mul by lia.
    reflexivity.
  - assert (E : 2 ^ 200 = 2 ^ (- e) * 2 ^ (e + 200)).
    { rewrite <- Z.pow_add_r by lia. f_equal. lia. }
    rewrite E. rewrite Z.div_mul_cancel_r; [reflexivity | |].
    + pose proof (Z.pow_pos_nonneg 2 (- e)). lia.
    + pose proof (Z.pow_pos_nonneg 2 (e + 200)). lia.
Qed.

Lemma fillFloat_rne (a b : Z) :
  0 < a < 2 ^ 53 -> 0 < b < 2 ^ 53 ->
  exists mD eD m e,
    rne_val (a * fixedOne) (b * fixedOne) (Z.pos mD) eD
    /\ fillFloat a b = S754_finite false m e
    /\ - bias <= e
    /\ rne_val (fval (Z.pos mD) eD * (40 * fixedOne)) (fixedOne * fixedOne) (Z.pos m) e.
Proof.
  intros Ha Hb.
  destruct (of_int_exact a Ha) as [ma [ea [Ea [Hca [Hea Hva]]]]].
  destruct (of_int_exact b Hb) as [mb [eb [Eb [Hcb [Heb Hvb]]]]].
  destruct (of_int_exact 40 ltac:(lia)) as [mw [ew [Ew [Hcw [Hew Hvw]]]]].
  destruct (SFdiv_rne ma ea mb eb Hca Hcb) as [mD [eD [ED [HcD [HeD HvD]]]]];
    try (unfold bias; lia).
  destruct (SFmul_rne mD eD mw ew HcD Hcw) as [m [e [EM [HcM [HeM HvM]]]]];
    try (unfold bias; lia).
  exists mD, eD, m, e. rewrite <- Hva, <- Hvb, <- Hvw.
  split; [exact HvD|]. split; [|split; [exact HeM | exact HvM]].
  unfold fillFloat. rewrite Ea, Eb, Ew, ED. exact EM.
Qed.

(** The integer part of the fill float is monotone in the ratio. *)
Lemma fillFloat_mono (a b a' b' : Z) :
  0 < a < 2 ^ 53 -> 0 < b < 2 ^ 53 ->
  0 < a' < 2 ^ 53 -> 0 < b' < 2 ^ 53 ->
  a * b' <= a' * b ->
  exists t t',
    GoFloat.trunc (fillFloat a b) = Some t
    /\ GoFloat.trunc (fillFloat a' b') = Some t'
    /\ 0 <= t <= t'.
Proof.
  intros Ha Hb Ha' Hb' Hle.
  destruct (fillFloat_rne a b Ha Hb) as [mD [eD [m [e [HD [EF [He HM]]]]]]].
  destruct (fillFloat_rne a' b' Ha' Hb')
    as [mD' [eD' [m' [e' [HD' [EF' [He' HM']]]]]]].
  pose proof fixedOne_pos as H1.
  assert (Hdiv : fval (Z.pos mD) eD <= fval (Z.pos mD') eD').
  { assert (Hb1 : 0 < b * fixedOne) by (apply Z.mul_pos_pos; lia).
    assert (Hb1' : 0 < b' * fixedOne) by (apply Z.mul_pos_pos; lia).
    apply (rne_val_mono (a * fixedOne) (b * fixedOne) _ _ (a' * fixedOne) (b' * fixedOne) _ _
             Hb1 Hb1' HD HD').
    replace (a * fixedOne * (b' * fixedOne)) with (a * b' * (fixedOne * fixedOne)) by ring.
    replace (a' * fixedOne * (b * fixedOne)) with (a' * b * (fixedOne * fixedOne)) by ring.
    apply Z.mul_le_mono_nonneg_r; nia. }
  assert (Hmul : fval (Z.pos m) e <= fval (Z.pos m') e').
  { assert (H11 : 0 < fixedOne * fixedOne) by (apply Z.mul_pos_pos; lia).
    apply (rne_val_mono _ (fixedOne * fixedOne) _ _ _ (fixedOne * fixedOne) _ _
             H11 H11 HM HM').
    apply Z.mul_le_mono_nonneg_r; [nia|].
    apply Z.mul_le_mono_nonneg_r; [lia | exact Hdiv]. }
  exists (fval (Z.pos m) e / fixedOne), (fval (Z.pos m') e' / fixedOne).
  rewrite EF, EF', !trunc_fval by assumption.
  split; [reflexivity|]. split; [reflexivity|]. split.
  - apply Z.div_pos; [|exact H1]. unfold fval.
    pose proof (ulp_pos e He). nia.
  - apply Z.div_le_mono; assumption.
Qed.

(** Test points, by evaluation: the fill float of [k / 40] has integer
    part [k], and so has the fill float of a ratio just below
    [(k + 1) / 40]. *)
Lemma fill_low (k : Z) :
  1 <= k <= 40 -> GoFloat.trunc (fillFloat k 40) = Some k.
Proof.
  intros Hk.
  assert (Hall : forallb
            (fun n => match GoFloat.trunc (fillFloat (Z.of_nat n) 40) with
                      | Some z => z =? Z.of_nat n
                      | None => false
                      end) (seq 1 40) = true) by (vm_compute; reflexivity).
  rewrite forallb_forall in Hall. specialize (Hall (Z.to_nat k)).
  rewrite Z2Nat.id in Hall by lia.
  destruct (GoFloat.trunc (fillFloat k 40)) as [z|].
  - f_equal. apply Z.eqb_eq, Hall, in_seq. lia.
  - discriminate Hall. apply in_seq. lia.
Qed.

Lemma fill_up (k : Z) :
  0 <= k <= 39 ->
  GoFloat.trunc (fillFloat ((k + 1) * 2 ^ 44 - 1) (40 * 2 ^ 44)) = Some k.
Proof.
  intros Hk.
  assert (Hall : forallb
            (fun n => match GoFloat.trunc
                              (fillFloat ((Z.of_nat n + 1) * 2 ^ 44 - 1)
                                         (40 * 2 ^ 44)) with
                      | Some z => z =? Z.of_nat n
                      | None => false
                      end) (seq 0 40) = true) by (vm_compute; reflexivity).
  rewrite forallb_forall in Hall. specialize (Hall (Z.to_nat k)).
  rewrite Z2Nat.id in Hall by lia.
  destruct (GoFloat.trunc _) as [z|].
  - f_equal. apply Z.eqb_eq, Hall, in_seq. lia.
  - discriminate Hall. apply in_seq. lia.
Qed.

Lemma fill_max : GoFloat.trunc (fillFloat (2 ^ 44) 1) = Some (40 * 2 ^ 44).
Proof. vm_compute. reflexivity. Qed.

(** The integer part of the fill float, for a position up to the length. *)
Lemma fillFloat_trunc (p l : Z) :
  0 < l <= 2 ^ 44 -> 0 <= p <= 2 ^ 44 ->
  exists t,
    GoFloat.trunc (fillFloat p l) = Some t
    /\ 0 <= t <= 40 * 2 ^ 44
    /\ (p < l -> t = 40 * p / l)
    /\ (l <= p -> 40 <= t).
Proof.
  intros Hl Hp.
  assert (H44 : 2 ^ 44 < 2 ^ 53) by lia.
  destruct (Z.eq_dec p 0) as [-> | Hp0].
  - (* a zero position: the quotient and the product are zero *)
    destruct (of_int_exact l ltac:(lia)) as [ml [el [El _]]].
    destruct (of_int_exact 40 ltac:(lia)) as [mw [ew [Ew _]]].
    exists 0. unfold fillFloat. rewrite El, Ew. cbn.
    split; [reflexivity|]. split; [lia|]. split; [|lia].
    intros _. reflexivity.
  - destruct (fillFloat_mono p l (2 ^ 44) 1) as [t [t' [Et [Et' Hle]]]];
      try lia.
    rewrite fill_max in Et'. injection Et' as <-.
    exists t. split; [exact Et|]. split; [lia|]. split.
    + intros Hlt.
      set (k := 40 * p / l).
      assert (Hk0 : 0 <= k) by (apply Z.div_pos; lia).
      assert (Hk1 : k * l <= 40 * p).
      { unfold k. rewrite Z.mul_comm. apply Z.mul_div_le. lia. }
      assert (Hk2 : 40 * p < (k + 1) * l).
      { unfold k. pose proof (Z.mod_pos_bound (40 * p) l ltac:(lia)).
        pose proof (Z.div_mod (40 * p) l ltac:(lia)). nia. }
      assert (Hk3 : k <= 39) by nia.
      assert (Hup : t <= k).
      { destruct (fillFloat_mono p l ((k + 1) * 2 ^ 44 - 1) (40 * 2 ^ 44))
          as [u [u' [Eu [Eu' Hu]]]]; try lia; try nia.
        rewrite fill_up in Eu' by lia. injection Eu' as <-.
        rewrite Et in Eu. injection Eu as <-. lia. }
      assert (Hlow : k <= t).
      { destruct (Z.eq_dec k 0) as [-> | Hkne]; [lia|].
        destruct (fillFloat_mono k 40 p l) as [u [u' [Eu [Eu' Hu]]]];
          try lia.
        rewrite fill_low in Eu by lia. injection Eu as <-.
        rewrite Et in Eu'. injection Eu' as <-. lia. }
      lia.
    + intros Hge.
      destruct (fillFloat_mono 40 40 p l) as [u [u' [Eu [Eu' Hu]]]];
        try lia.
      rewrite fill_low in Eu by lia. injection Eu as <-.
      rewrite Et in Eu'. injection Eu' as <-. lia.
Qed.

(** C3, as stated, fails.  One second into a minute-long track, two
    thirds of a cell round to one filled cell, but the bar shows none: the
    conversion to [int] discards the fraction. *)
Lemma progress_not_rounded :
  roundedFill (sampleTrack 60 1) = 1
  /\ MainGo.progress rt_amd64 (sampleTrack 60 1) = 0
  /\ MainGo.progress rt_arm64 (sampleTrack 60 1) = 0
  /\ Part000.progress rt_amd64 (sampleTrack 60 1) = 0
  /\ MainGo.progress rt_amd64 (sampleTrack 60 1)
     <> roundedFill (sampleTrack 60 1).
Proof.
  repeat split; try (vm_compute; reflexivity).
  vm_compute. discriminate.
Qed.

Lemma main_progress_fill rt md :
  0 < md.(Length) ->
  MainGo.progress rt md
  = let p0 := GoFloat.to_int rt.(unrep)
                (fillFloat md.(Position) md.(Length)) in
    let p1 := if p0 <? 0 then 0 else p0 in
    if 40 <? p1 then 40 else p1.
Proof.
  intros H. unfold MainGo.progress, MainGo.barWidth, fillFloat.
  destruct (Z.ltb_spec 0 (Length md)); [reflexivity | lia].
Qed.

(** C3 (amended).  For every metadata record with
    [0 < Length] and [0 <= Position], both at most 2^44 seconds (every
    record [getMetadata] can produce is within that range), the fill count
    of the progress bar is the integer part of [Position / Length * 40],
    that is [40 * Position / Length] rounded down, clamped to [0, 40], on
    every platform and in both files; in particular [Position = Length]
    gives a full bar of 40 filled glyphs. *)
Theorem progress_truncated rt md :
  0 < md.(Length) <= 2 ^ 44 -> 0 <= md.(Position) <= 2 ^ 44 ->
  MainGo.progress rt md = Z.min 40 (40 * md.(Position) / md.(Length))
  /\ Part000.progress rt md = Z.min 40 (40 * md.(Position) / md.(Length))
  /\ (md.(Position) = md.(Length) ->
      MainGo.progress rt md = 40
      /\ MainGo.bar rt md = GoStrings.Repeat MainGo.filledGlyph 40).
Proof.
  intros Hl Hp.
  assert (Hmain : MainGo.progress rt md
                  = Z.min 40 (40 * md.(Position) / md.(Length))).
  { rewrite main_progress_fill by lia. cbv zeta.
    destruct (fillFloat_trunc md.(Position) md.(Length) Hl Hp)
      as [t [Et [Hr [Hlt Hge]]]].
    unfold GoFloat.to_int. rewrite Et.
    assert (Hin : GoInt.in_int64b t = true).
    { unfold GoInt.in_int64b, GoInt.min_int64, GoInt.max_int64.
      apply andb_true_intro. split; apply Z.leb_le; lia. }
    rewrite Hin.
    destruct (Z.ltb_spec t 0); [lia|].
    destruct (Z.lt_ge_cases md.(Position) md.(Length)) as [Hc | Hc].
    - specialize (Hlt Hc).
      assert (t <= 39).
      { rewrite Hlt. apply Z.lt_succ_r. apply Z.div_lt_upper_bound; lia. }
      destruct (Z.ltb_spec 40 t); lia.
    - specialize (Hge Hc).
      assert (40 <= 40 * md.(Position) / md.(Length))
        by (apply Z.div_le_lower_bound; lia).
      destruct (Z.ltb_spec 40 t); lia. }
  split; [exact Hmain|]. split.
  - rewrite progress_agree by lia. exact Hmain.
  - intros Heq.
    assert (H40 : MainGo.progress rt md = 40).
    { rewrite Hmain, Heq. rewrite Z.div_mul by lia. reflexivity. }
    split; [exact H40|].
    unfold MainGo.bar. rewrite H40. apply append_nil_r.
Qed.

Lemma progress_truncated_witness :
  MainGo.progress rt_amd64 (sampleTrack 300 125) = 16.
Proof.
  refine (proj1 (progress_truncated rt_amd64 (sampleTrack 300 125) _ _));
    cbn; lia.
Defined.

(** Every record of [getMetadata] is within the range of the theorem. *)
Lemma getMetadata_within_range rt env logs md :
  MainGo.getMetadata rt env = (logs, Ok md) ->
  wf_value (deliveredLength env) ->
  wf_value (deliveredPosition env) ->
  md.(Length) <= 2 ^ 44 /\ md.(Position) <= 2 ^ 44.
Proof.
  intros Hg Hwl Hwp.
  destruct (main_getMetadata_signed rt env logs md Hg Hwl Hwp)
    as [l [p [_ [_ [Rl [Rp [HL HP]]]]]]].
  unfold GoInt.in_int64, GoInt.min_int64, GoInt.max_int64 in *.
  rewrite HL, HP. split.
  - destruct (Z.le_gt_cases 0 l).
    + apply Z.quot_le_upper_bound; lia.
    + pose proof (Z.quot_opp_l l 1000000 ltac:(lia)).
      pose proof (Z.quot_pos (- l) 1000000 ltac:(lia) ltac:(lia)). lia.
  - destruct (Z.le_gt_cases 0 p).
    + apply Z.quot_le_upper_bound; lia.
    + pose proof (Z.quot_opp_l p 1000000 ltac:(lia)).
      pose proof (Z.quot_pos (- p) 1000000 ltac:(lia) ltac:(lia)). lia.
Qed.

(** * Further properties of the program *)

(** ** Keyboard events *)

(** X1.  [handleKeyboard] of [src/main.go] asks for a redraw exactly when
    the key is an arrow or the character is [c]; otherwise it returns the
    display unchanged.  It never touches the cache directory, the geometry
    constants or the cache slot.  The character [c] centers both axes
    whatever the key; without it, up and down set the vertical alignment
    and leave the horizontal one, left and right the converse. *)
Theorem handleKeyboard_effect (sd : SpotifyDisplay) (ev : TermboxEvent) :
  let sd' := fst (MainGo.handleKeyboard sd ev) in
  (snd (MainGo.handleKeyboard sd ev) = true
   <-> ev.(evKey) <> KeyOther \/ ev.(evCh) = "c"%char)
  /\ (snd (MainGo.handleKeyboard sd ev) = false -> sd' = sd)
  /\ sd'.(cacheDir) = sd.(cacheDir)
  /\ sd'.(minWidth) = sd.(minWidth)
  /\ sd'.(contentHeight) = sd.(contentHeight)
  /\ sd'.(margin) = sd.(margin)
  /\ sd'.(currentArtURL) = sd.(currentArtURL)
  /\ (ev.(evCh) = "c"%char ->
      sd'.(horizontalAlign) = "center" /\ sd'.(verticalAlign) = "center")
  /\ (ev.(evCh) <> "c"%char ->
      sd'.(horizontalAlign)
      = match ev.(evKey) with
        | KeyArrowLeft => "left"
        | KeyArrowRight => "right"
        | _ => sd.(horizontalAlign)
        end
      /\ sd'.(verticalAlign)
         = match ev.(evKey) with
           | KeyArrowUp => "top"
           | KeyArrowDown => "bottom"
           | _ => sd.(verticalAlign)
           end).
Proof.
  cbv zeta. unfold MainGo.handleKeyboard.
  destruct (Ascii.eqb_spec (evCh ev) "c") as [Ec | Ec];
    destruct (evKey ev); cbn [fst snd];
    repeat split; try reflexivity; try tauto; try discriminate;
    try (intros; left; discriminate); try (intros; right; assumption);
    try (intros [H | H]; [now elim H | contradiction]).
Qed.

(** X2.  The two [handleKeyboard] agree on every event whose key is not an
    arrow or whose character is not [c]; on an arrow key that carries the
    character [c], [src/main.go] centers both axes while
    [src/unnamed/part_000] only applies the arrow, so the results differ. *)
Theorem handleKeyboard_variants (sd : SpotifyDisplay) (ev : TermboxEvent) :
  (ev.(evKey) = KeyOther \/ ev.(evCh) <> "c"%char ->
   MainGo.handleKeyboard sd ev = Part000.handleKeyboard sd ev)
  /\ (ev.(evKey) <> KeyOther -> ev.(evCh) = "c"%char ->
      fst (MainGo.handleKeyboard sd ev)
      = setVertical (setHorizontal sd "center") "center"
      /\ fst (MainGo.handleKeyboard sd ev)
         <> fst (Part000.handleKeyboard sd ev)).
Proof.
  unfold MainGo.handleKeyboard, Part000.handleKeyboard. split.
  - intros [Hk | Hc].
    + rewrite Hk. destruct (Ascii.eqb (evCh ev) "c"); reflexivity.
    + destruct (Ascii.eqb_spec (evCh ev) "c") as [E | _]; [contradiction|].
      destruct (evKey ev); reflexivity.
  - intros Hk Hc. rewrite Hc. cbn [Ascii.eqb].
    destruct (evKey ev); try contradiction; cbn [fst];
      (split; [reflexivity|]); intros H;
      first [ apply (f_equal verticalAlign) in H; discriminate H
            | apply (f_equal horizontalAlign) in H; discriminate H ].
Qed.

Lemma handleKeyboard_variants_witness :
  MainGo.handleKeyboard (NewSpotifyDisplay "/c") (keyPress KeyArrowUp)
  = Part000.handleKeyboard (NewSpotifyDisplay "/c") (keyPress KeyArrowUp).
Proof.
  refine (proj1 (handleKeyboard_variants (NewSpotifyDisplay "/c")
                   (keyPress KeyArrowUp)) _).
  right. discriminate.
Defined.

(** ** The loop *)

Lemma main_loop_app rt (a b : list LoopEvent) : forall sd,
  MainGo.loop rt sd (a ++ b)
  = match snd (MainGo.loop rt sd a) with
    | Running =>
        (fst (fst (MainGo.loop rt (fst (fst (MainGo.loop rt sd a))) b)),
         snd (fst (MainGo.loop rt sd a))
         ++ snd (fst (MainGo.loop rt (fst (fst (MainGo.loop rt sd a))) b)),
         snd (MainGo.loop rt (fst (fst (MainGo.loop rt sd a))) b))
    | _ => MainGo.loop rt sd a
    end.
Proof.
  induction a as [| ev a IH]; intros sd.
  - cbn. now destruct (MainGo.loop rt sd b) as [[sd' fx] st].
  - cbn [app MainGo.loop].
    destruct (MainGo.step rt sd ev) as [[sd1 fx1] st1].
    destruct st1; try reflexivity.
    rewrite IH.
    destruct (MainGo.loop rt sd1 a) as [[sd2 fx2] st2]. cbn [fst snd].
    destruct st2; try reflexivity.
    destruct (MainGo.loop rt sd2 b) as [[sd3 fx3] st3]. cbn [fst snd].
    now rewrite app_assoc.
Qed.

Lemma part_loop_app rt (a b : list LoopEvent) : forall sd,
  Part000.loop rt sd (a ++ b)
  = match snd (Part000.loop rt sd a) with
    | Running =>
        (fst (fst (Part000.loop rt (fst (fst (Part000.loop rt sd a))) b)),
         snd (fst (Part000.loop rt sd a))
         ++ snd (fst (Part000.loop rt (fst (fst (Part000.loop rt sd a))) b)),
         snd (Part000.loop rt (fst (fst (Part000.loop rt sd a))) b))
    | _ => Part000.loop rt sd a
    end.
Proof.
  induction a as [| ev a IH]; intros sd.
  - cbn. now destruct (Part000.loop rt sd b) as [[sd' fx] st].
  - cbn [app Part000.loop].
    destruct (Part000.step rt sd ev) as [[sd1 fx1] st1].
    destruct st1; try reflexivity.
    rewrite IH.
    destruct (Part000.loop rt sd1 a) as [[sd2 fx2] st2]. cbn [fst snd].
    destruct st2; try reflexivity.
    destruct (Part000.loop rt sd2 b) as [[sd3 fx3] st3]. cbn [fst snd].
    now rewrite app_assoc.
Qed.

Lemma main_step_inert rt sd ev :
  inert ev = true -> MainGo.step rt sd ev = (sd, [], Running).
Proof.
  destruct ev as [e | env |]; cbn [inert MainGo.step]; try discriminate.
  destruct (evType e); [|reflexivity].
  unfold MainGo.handleKeyboard.
  destruct (evKey e); try discriminate.
  destruct (Ascii.eqb (evCh e) "c"); [discriminate|].
  destruct (Ascii.eqb (evCh e) "q"); [discriminate|]. reflexivity.
Qed.

Lemma part_step_inert rt sd ev :
  inert ev = true -> Part000.step rt sd ev = (sd, [], Running).
Proof.
  destruct ev as [e | env |]; cbn [inert Part000.step]; try discriminate.
  destruct (evType e); [|reflexivity].
  unfold Part000.handleKeyboard.
  destruct (evKey e); try discriminate.
  destruct (Ascii.eqb (evCh e) "c"); [discriminate|].
  destruct (Ascii.eqb (evCh e) "q"); [discriminate|]. reflexivity.
Qed.

(** X4.  Events the loop has no case for (events that are not key events,
    keys other than the arrows, [c] and [q]) change nothing and write
    nothing: removing them from the event list leaves the final state, the
    effects and the status of the loop as they are.  Both files. *)
Theorem inert_events_transparent rt (evs : list LoopEvent)
  (sd : SpotifyDisplay) :
  MainGo.loop rt sd evs
  = MainGo.loop rt sd (filter (fun ev => negb (inert ev)) evs)
  /\ Part000.loop rt sd evs
     = Part000.loop rt sd (filter (fun ev => negb (inert ev)) evs).
Proof.
  split; revert sd; induction evs as [| ev evs IH]; intros sd;
    try reflexivity; cbn [filter].
  - destruct (inert ev) eqn:Ei; cbn [negb].
    + cbn [MainGo.loop]. rewrite (main_step_inert rt sd ev Ei).
      rewrite <- IH. now destruct (MainGo.loop rt sd evs) as [[sd' fx] st].
    + cbn [MainGo.loop]. destruct (MainGo.step rt sd ev) as [[sd1 fx1] st1].
      destruct st1; try reflexivity. now rewrite IH.
  - destruct (inert ev) eqn:Ei; cbn [negb].
    + cbn [Part000.loop]. rewrite (part_step_inert rt sd ev Ei).
      rewrite <- IH. now destruct (Part000.loop rt sd evs) as [[sd' fx] st].
    + cbn [Part000.loop]. destruct (Part000.step rt sd ev) as [[sd1 fx1] st1].
      destruct st1; try reflexivity. now rewrite IH.
Qed.

(** X5.  Every pair of a horizontal alignment (left, center, right) and a
    vertical one (top, center, bottom) is reached from the start-up state
    by at most two key presses, with the loop still running. *)
Theorem every_alignment_reachable rt dir (h v : string) :
  h = "left" \/ h = "center" \/ h = "right" ->
  v = "top" \/ v = "center" \/ v = "bottom" ->
  exists evs,
    (List.length evs <= 2)%nat
    /\ snd (MainGo.loop rt (NewSpotifyDisplay dir) evs) = Running
    /\ (fst (fst (MainGo.loop rt (NewSpotifyDisplay dir) evs))).(horizontalAlign)
       = h
    /\ (fst (fst (MainGo.loop rt (NewSpotifyDisplay dir) evs))).(verticalAlign)
       = v.
Proof.
  intros [-> | [-> | ->]] [-> | [-> | ->]].
  - exists [Keyboard (keyPress KeyArrowLeft); Keyboard (keyPress KeyArrowUp)].
    cbn. repeat split; lia.
  - exists [Keyboard (charPress "c"); Keyboard (keyPress KeyArrowLeft)].
    cbn. repeat split; lia.
  - exists [Keyboard (keyPress KeyArrowLeft)]. cbn. repeat split; lia.
  - exists [Keyboard (keyPress KeyArrowUp)]. cbn. repeat split; lia.
  - exists [Keyboard (charPress "c")]. cbn. repeat split; lia.
  - exists []. cbn. repeat split; lia.
  - exists [Keyboard (keyPress KeyArrowRight); Keyboard (keyPress KeyArrowUp)].
    cbn. repeat split; lia.
  - exists [Keyboard (charPress "c"); Keyboard (keyPress KeyArrowRight)].
    cbn. repeat split; lia.
  - exists [Keyboard (keyPress KeyArrowRight)]. cbn. repeat split; lia.
Qed.

Lemma every_alignment_reachable_witness :
  exists evs,
    (List.length evs <= 2)%nat
    /\ snd (MainGo.loop rt_amd64 (NewSpotifyDisplay "/c") evs) = Running
    /\ (fst (fst (MainGo.loop rt_amd64 (NewSpotifyDisplay "/c") evs))).(horizontalAlign)
       = "left"
    /\ (fst (fst (MainGo.loop rt_amd64 (NewSpotifyDisplay "/c") evs))).(verticalAlign)
       = "center".
Proof.
  apply (every_alignment_reachable rt_amd64 "/c" "left" "center").
  - left. reflexivity.
  - right. left. reflexivity.
Defined.

(** X6.  In [src/main.go] a key that changes the alignment clears the
    screen and empties the record of the art reference, so the next tick
    attempts the transfer of its non-empty reference again, even when
    that reference is the one recorded before the key. *)
Theorem redraw_forces_fetch rt (sd : SpotifyDisplay) (e : TermboxEvent)
  (env : TickEnv) logs (md : Metadata) :
  e.(evType) = EventKey -> e.(evCh) <> "q"%char ->
  snd (MainGo.handleKeyboard sd e) = true ->
  MainGo.getMetadata rt env = (logs, Ok md) -> md.(ArtURL) <> "" ->
  MainGo.step rt sd (Keyboard e)
  = (setArtURL (fst (MainGo.handleKeyboard sd e)) "", clearScreen, Running)
  /\ fetchCount
       (snd (fst (MainGo.loop rt sd [Keyboard e; Tick env]))) = 1%nat
  /\ (fst (fst (MainGo.loop rt sd [Keyboard e; Tick env]))).(currentArtURL)
     = md.(ArtURL).
Proof.
  intros Ht Hq Hr Hg Hne.
  assert (Hs : MainGo.step rt sd (Keyboard e)
               = (setArtURL (fst (MainGo.handleKeyboard sd e)) "",
                  clearScreen, Running)).
  { cbn [MainGo.step]. rewrite Ht.
    destruct (Ascii.eqb_spec (evCh e) "q") as [E | _]; [contradiction|].
    destruct (MainGo.handleKeyboard sd e) as [sd1 b]. cbn [fst snd] in *.
    now rewrite Hr. }
  split; [exact Hs|].
  cbn [MainGo.loop]. rewrite Hs. cbn [MainGo.step].
  set (sd1 := setArtURL (fst (MainGo.handleKeyboard sd e)) "").
  pose proof (main_tick_fetch rt env sd1 logs md Hg) as Hf.
  assert (Hd : MainGo.artworkDue sd1 md = true).
  { apply artworkDue_spec. split; [|exact Hne]. exact Hne. }
  rewrite Hd in Hf.
  pose proof (main_tick_ok rt env sd1 logs md Hg) as Hk.
  cbv zeta in Hk. rewrite Hd in Hk. rewrite Hk in *.
  cbn [fst snd] in *. rewrite app_nil_r. split; [|reflexivity].
  rewrite fetchCount_app. exact Hf.
Qed.

Lemma redraw_forces_fetch_witness :
  fetchCount
    (snd (fst (MainGo.loop rt_amd64
                 (setArtURL (NewSpotifyDisplay "/c") "/tmp/cover.png")
                 [Keyboard (keyPress KeyArrowUp);
                  Tick (sampleEnv (VInt64 240000000) (VInt64 0)
                          (quoted "file:///tmp/cover.png") None)])))
  = 1%nat.
Proof.
  refine (proj1 (proj2 (redraw_forces_fetch rt_amd64
            (setArtURL (NewSpotifyDisplay "/c") "/tmp/cover.png")
            (keyPress KeyArrowUp)
            (sampleEnv (VInt64 240000000) (VInt64 0)
               (quoted "file:///tmp/cover.png") None)
            (MainGo.artURLLog (quoted "file:///tmp/cover.png"))
            (mkMetadata (quoted "Song") "Band" (quoted "Album") 240 0
               "/tmp/cover.png") _ _ _ _ _))).
  - reflexivity.
  - discriminate.
  - reflexivity.
  - vm_compute. reflexivity.
  - discriminate.
Defined.

(** ** The cache slot file *)

Lemma no_fetch_writesOnly path (fx : list Effect) :
  fetchCount fx = O -> Forall (writesOnly path) fx.
Proof.
  unfold fetchCount. induction fx as [| e fx IH]; intros H; [constructor|].
  cbn [filter] in H. destruct e; cbn [isFetch] in H;
    try discriminate H; constructor; try exact I; now apply IH.
Qed.

Lemma main_updateArtwork_writesOnly env sd md term :
  Forall (writesOnly (artworkPath sd))
         (snd (MainGo.updateArtwork env sd md term)).
Proof.
  unfold MainGo.updateArtwork, MainGo.downloadArtwork.
  change (artworkPath (setArtURL sd md.(ArtURL))) with (artworkPath sd).
  destruct (String.eqb md.(ArtURL) ""); cbn [snd].
  - repeat constructor.
  - cbv zeta.
    pose proof (no_fetch_writesOnly (artworkPath sd) _
                  (main_displayImage_no_fetch env (artworkPath sd)
                     term.(startX) term.(startY))) as Hd.
    destruct (GoStrings.HasPrefix md.(ArtURL) "/");
      destruct (transferErr env); cbn [snd];
      try (repeat constructor; fail);
      destruct (String.eqb (artworkPath sd) "");
      try (repeat constructor; fail);
      destruct (MainGo.displayImage env (artworkPath sd) _ _)
        as [fx2 [u | e |]]; cbn [fst snd] in *;
      repeat (apply Forall_cons; [exact I || reflexivity |]);
      rewrite ?Forall_app; repeat split; try exact Hd;
      repeat constructor.
Qed.

Lemma main_tick_writesOnly rt env sd :
  Forall (writesOnly (artworkPath sd)) (snd (fst (MainGo.tick rt env sd))).
Proof.
  pose proof (main_getMetadata_no_fetch rt env) as Hl.
  unfold MainGo.tick.
  destruct (MainGo.getMetadata rt env) as [logs [md | e |]];
    cbn [fst snd] in *.
  - pose proof (main_updateArtwork_writesOnly env sd md
        (MainGo.getTerminalSize sd (fst (termSize env)) (snd (termSize env))))
      as Hu.
    destruct (MainGo.artworkDue sd md).
    + destruct (MainGo.updateArtwork env sd md _) as [sd' fx].
      cbn [fst snd] in *. rewrite !Forall_app. repeat split.
      * now apply no_fetch_writesOnly.
      * now apply no_fetch_writesOnly.
      * now apply no_fetch_writesOnly.
      * exact Hu.
    + cbn [fst snd]. rewrite !Forall_app. repeat split;
        now apply no_fetch_writesOnly.
  - rewrite Forall_app. split; [now apply no_fetch_writesOnly|].
    repeat constructor.
  - now apply no_fetch_writesOnly.
Qed.

Lemma main_step_sameInstallation rt sd ev :
  sameInstallation (fst (fst (MainGo.step rt sd ev))) sd.
Proof.
  destruct ev as [e | env |]; cbn [MainGo.step].
  - destruct (evType e); [|repeat split].
    destruct (Ascii.eqb (evCh e) "q"); [repeat split|].
    unfold MainGo.handleKeyboard.
    destruct (evKey e); destruct (Ascii.eqb (evCh e) "c"); repeat split.
  - rewrite main_tick_state. repeat split.
  - repeat split.
Qed.

Lemma main_step_writesOnly rt sd ev :
  Forall (writesOnly (artworkPath sd)) (snd (fst (MainGo.step rt sd ev))).
Proof.
  destruct ev as [e | env |]; cbn [MainGo.step].
  - destruct (evType e); [|constructor].
    destruct (Ascii.eqb (evCh e) "q"); [constructor|].
    destruct (MainGo.handleKeyboard sd e) as [sd1 [|]]; repeat constructor.
  - apply main_tick_writesOnly.
  - constructor.
Qed.

(** X7.  Whatever the events, the loop of [src/main.go] never changes the
    cache directory or the geometry constants, and every artwork transfer
    of the whole run, local copy or download, writes the one file
    [current_artwork.png] of the cache directory: there is a single cache
    slot, overwritten by each refresh. *)
Theorem single_cache_file rt (evs : list LoopEvent) (sd : SpotifyDisplay) :
  sameInstallation (fst (fst (MainGo.loop rt sd evs))) sd
  /\ forall e d,
      In e (snd (fst (MainGo.loop rt sd evs))) ->
      fetchDst e = Some d ->
      d = (sd.(cacheDir) ++ "/current_artwork.png")%string.
Proof.
  assert (H : sameInstallation (fst (fst (MainGo.loop rt sd evs))) sd
              /\ Forall (writesOnly (artworkPath sd))
                        (snd (fst (MainGo.loop rt sd evs)))).
  { revert sd. induction evs as [| ev evs IH]; intros sd.
    - cbn. split; [repeat split | constructor].
    - cbn [MainGo.loop].
      pose proof (main_step_sameInstallation rt sd ev) as Hs.
      pose proof (main_step_writesOnly rt sd ev) as Hw.
      destruct (MainGo.step rt sd ev) as [[sd1 fx1] st1].
      cbn [fst snd] in Hs, Hw.
      destruct st1; cbn [fst snd]; try (split; assumption).
      destruct (IH sd1) as [Hs' Hw'].
      destruct (MainGo.loop rt sd1 evs) as [[sd2 fx2] st2].
      cbn [fst snd] in *.
      assert (Hp : artworkPath sd1 = artworkPath sd).
      { unfold artworkPath. destruct Hs as [-> _]. reflexivity. }
      rewrite Hp in Hw'. split.
      + unfold sameInstallation in *. intuition congruence.
      + rewrite Forall_app. split; assumption. }
  destruct H as [Hs Hw]. split; [exact Hs|].
  intros e d Hin Hd. rewrite Forall_forall in Hw.
  specialize (Hw e Hin). unfold writesOnly in Hw. rewrite Hd in Hw.
  exact Hw.
Qed.

(** ** Which transfer an art reference leads to *)

Lemma normalizeArtURL_cdn raw t :
  GoStrings.Trim1 raw quoteChar = (cdnPrefix ++ t)%string ->
  normalizeArtURL raw = (cdnPrefix ++ t)%string.
Proof.
  intros H. unfold normalizeArtURL. cbv zeta. rewrite H.
  assert (Hp : GoStrings.HasPrefix (cdnPrefix ++ t) cdnPrefix = true)
    by (apply HasPrefix_spec; now exists t).
  rewrite Hp. reflexivity.
Qed.

Lemma normalizeArtURL_file raw p :
  GoStrings.Trim1 raw quoteChar = (filePrefix ++ p)%string ->
  normalizeArtURL raw = p.
Proof.
  intros H. unfold normalizeArtURL. cbv zeta. rewrite H.
  assert (Hc : GoStrings.HasPrefix (filePrefix ++ p) cdnPrefix = false).
  { destruct (GoStrings.HasPrefix (filePrefix ++ p) cdnPrefix) eqn:E;
      [|reflexivity].
    apply HasPrefix_spec in E. destruct E as [t E].
    symmetry in E. now apply cdn_not_file in E. }
  assert (Hp : GoStrings.HasPrefix (filePrefix ++ p) filePrefix = true)
    by (apply HasPrefix_spec; now exists p).
  rewrite Hc, Hp. apply TrimPrefix_append.
Qed.

(** X8.  What [downloadArtwork] of [src/main.go] does with the reference
    [getMetadata] derives from a raw art URL: a CDN address is requested
    over HTTP as it stands; [file://] followed by an absolute path is
    copied from that path; [file://] followed by a non-empty relative path
    is not read from disk at all but requested over HTTP, with the bare
    path as the address; an empty path or any other scheme leads to no
    transfer, and the call fails with "no artwork URL provided".  Every
    transfer goes into the cache slot. *)
Theorem artwork_transfer_kind env (sd : SpotifyDisplay) (raw : string) :
  let stripped := GoStrings.Trim1 raw quoteChar in
  let call := MainGo.downloadArtwork env sd (normalizeArtURL raw) in
  (forall t, stripped = (cdnPrefix ++ t)%string ->
     transfers (fst call) = [HttpGet (cdnPrefix ++ t) (artworkPath sd)])
  /\ (forall p, stripped = ("file:///" ++ p)%string ->
        transfers (fst call) = [CopyFile ("/" ++ p) (artworkPath sd)])
  /\ (forall p, stripped = ("file://" ++ p)%string -> p <> "" ->
        GoStrings.HasPrefix p "/" = false ->
        transfers (fst call) = [HttpGet p (artworkPath sd)])
  /\ (stripped = "file://"
      \/ (GoStrings.HasPrefix stripped cdnPrefix = false
          /\ GoStrings.HasPrefix stripped filePrefix = false) ->
      call = ([], Err "no artwork URL provided")).
Proof.
  cbv zeta. repeat split.
  - intros t H. rewrite (normalizeArtURL_cdn raw t H).
    unfold MainGo.downloadArtwork. cbn.
    destruct (transferErr env); reflexivity.
  - intros p H.
    rewrite (normalizeArtURL_file raw ("/" ++ p) H).
    unfold MainGo.downloadArtwork. cbn.
    replace (prefix "" p) with true by (now destruct p).
    destruct (transferErr env); reflexivity.
  - intros p H Hne Hrel.
    rewrite (normalizeArtURL_file raw p H).
    unfold MainGo.downloadArtwork.
    destruct (String.eqb_spec p "") as [E | _]; [contradiction|].
    cbv zeta. rewrite Hrel.
    destruct (transferErr env); reflexivity.
  - intros [H | [Hc Hf]].
    + rewrite (normalizeArtURL_file raw "" H). reflexivity.
    + unfold normalizeArtURL. cbv zeta. rewrite Hc, Hf. reflexivity.
Qed.

Lemma artwork_transfer_kind_witness :
  transfers (fst (MainGo.downloadArtwork (sampleEnv VNil VNil "" None)
                    (NewSpotifyDisplay "/c")
                    (normalizeArtURL (quoted "file://covers/a.png"))))
  = [HttpGet "covers/a.png" "/c/current_artwork.png"].
Proof.
  refine (proj1 (proj2 (proj2
    (artwork_transfer_kind (sampleEnv VNil VNil "" None)
       (NewSpotifyDisplay "/c") (quoted "file://covers/a.png"))))
    "covers/a.png" _ _ _).
  - reflexivity.
  - discriminate.
  - reflexivity.
Defined.

(** ** Rendering the artwork *)

(** X9.  [displayImage] of [src/main.go] either writes nothing at all and
    fails (empty path, file missing, file empty, renderer not installed),
    or saves the cursor, moves to the origin, runs chafa once with its
    fixed options on the image and restores the cursor, also when chafa
    fails; its result is then chafa's.  When it renders,
    [src/unnamed/part_000] sends the same bytes and the same command; but
    part_000 renders whenever chafa is installed, without looking at the
    file, and always reports success. *)
Theorem displayImage_bracket env (p : string) (x y : Z) :
  let m := MainGo.displayImage env p x y in
  let q := Part000.displayImage env p x y in
  (forall chafa,
      p <> "" -> env.(displayEnv).(statErr) = None ->
      env.(displayEnv).(fileSize) <> 0 ->
      env.(displayEnv).(lookPath) = Some chafa ->
      drawing (fst m) = renderBracket x y
      /\ commands (fst m) = [Exec chafa (MainGo.chafaArgs p)]
      /\ snd m = match env.(displayEnv).(runErr) with
                 | Some e => Err e
                 | None => Ok tt
                 end
      /\ drawing (fst q) = drawing (fst m)
      /\ commands (fst q) = commands (fst m))
  /\ (p = "" \/ env.(displayEnv).(statErr) <> None
      \/ env.(displayEnv).(fileSize) = 0
      \/ env.(displayEnv).(lookPath) = None ->
      fst m = [] /\ exists e, snd m = Err e)
  /\ (forall chafa,
        env.(displayEnv).(lookPath) = Some chafa ->
        drawing (fst q) = renderBracket x y
        /\ commands (fst q) = [Exec chafa (MainGo.chafaArgs p)]
        /\ snd q = Ok tt)
  /\ (env.(displayEnv).(lookPath) = None ->
      fst q = [] /\ exists e, snd q = Err e).
Proof.
  cbv zeta. unfold MainGo.displayImage, Part000.displayImage.
  repeat apply conj.
  - intros chafa Hp Hs Hz Hl. cbv zeta.
    destruct (String.eqb_spec p "") as [E | _]; [contradiction|].
    rewrite Hs, Hl.
    destruct (Z.eqb_spec (fileSize (displayEnv env)) 0) as [E | _];
      [contradiction|].
    destruct (runErr (displayEnv env)); repeat split; reflexivity.
  - intros H. cbv zeta.
    destruct (String.eqb_spec p "") as [E | Hp]; [split; [reflexivity | eexists; reflexivity]|].
    destruct (statErr (displayEnv env)) as [e |]; [split; [reflexivity | eexists; reflexivity]|].
    destruct (Z.eqb_spec (fileSize (displayEnv env)) 0) as [E | Hz];
      [split; [reflexivity | eexists; reflexivity]|].
    destruct (lookPath (displayEnv env)) as [c |]; [|split; [reflexivity | eexists; reflexivity]].
    exfalso. destruct H as [H | [H | [H | H]]];
      [contradiction | now apply H | contradiction | discriminate H].
  - intros chafa Hl. rewrite Hl. repeat split; reflexivity.
  - intros Hl. rewrite Hl. split; [reflexivity | eexists; reflexivity].
Qed.

Lemma displayImage_bracket_witness :
  commands (fst (MainGo.displayImage (sampleEnv VNil VNil "" None)
                   "/c/current_artwork.png" 10 13))
  = [Exec "/usr/bin/chafa"
       ["--size=18x18"; "--symbols=block"; "--colors=256";
        "/c/current_artwork.png"]].
Proof.
  refine (proj1 (proj2 (proj1
    (displayImage_bracket (sampleEnv VNil VNil "" None)
       "/c/current_artwork.png" 10 13) "/usr/bin/chafa" _ _ _ _)));
    (reflexivity || discriminate).
Defined.

(** ** The block on the screen *)

Lemma quot2_bounds (a : Z) : 0 <= a -> 0 <= Z.quot a 2 <= a.
Proof.
  intros Ha. pose proof (Z.quot_rem' a 2) as E.
  pose proof (Z.rem_bound_pos a 2 Ha ltac:(lia)). lia.
Qed.

Lemma main_block_fits (sd : SpotifyDisplay) (w h : Z) :
  small w -> small h ->
  0 <= sd.(margin) <= 2 ^ 60 -> 0 <= sd.(minWidth) <= 2 ^ 60 ->
  0 <= sd.(contentHeight) <= 2 ^ 60 ->
  sd.(minWidth) + 2 * sd.(margin) <= w ->
  sd.(contentHeight) + 2 * sd.(margin) <= h ->
  let t := MainGo.getTerminalSize sd w h in
  (0 <= t.(startX) /\ t.(startX) + sd.(minWidth) <= w)
  /\ (0 <= t.(startY) /\ t.(startY) + sd.(contentHeight) <= h).
Proof.
  intros Hw Hh Hm Hn Hc Hfw Hfh t. subst t.
  assert (S1 : small sd.(margin)) by (unfold small; lia).
  assert (S2 : small sd.(minWidth)) by (unfold small; lia).
  assert (S3 : small sd.(contentHeight)) by (unfold small; lia).
  rewrite (main_startX_math sd w h Hw S2 S1).
  rewrite (main_startY_math sd w h Hh S3 S1).
  unfold originX_spec, originY_spec.
  pose proof (quot2_bounds (w - sd.(minWidth)) ltac:(lia)).
  pose proof (quot2_bounds (h - sd.(contentHeight)) ltac:(lia)).
  destruct (String.eqb sd.(horizontalAlign) "left");
    destruct (String.eqb sd.(horizontalAlign) "right");
    destruct (String.eqb sd.(verticalAlign) "top");
    destruct (String.eqb sd.(verticalAlign) "bottom"); lia.
Qed.

Lemma main_loop_sameInstallation rt evs : forall sd,
  sameInstallation (fst (fst (MainGo.loop rt sd evs))) sd.
Proof.
  induction evs as [| ev evs IH]; intros sd; [repeat split|].
  cbn [MainGo.loop].
  pose proof (main_step_sameInstallation rt sd ev) as Hs.
  destruct (MainGo.step rt sd ev) as [[sd1 fx1] st1]. cbn [fst] in Hs.
  destruct st1; cbn [fst]; try exact Hs.
  specialize (IH sd1).
  destruct (MainGo.loop rt sd1 evs) as [[sd2 fx2] st2]. cbn [fst] in *.
  unfold sameInstallation in *. intuition congruence.
Qed.

(** X10.  The display [NewSpotifyDisplay] of [src/main.go] builds keeps
    its block on the screen through the whole run: after any events, in
    whatever alignment the keys have left it, on a terminal of at least
    64 columns and 13 rows the origin [getTerminalSize] computes is not
    negative and the 60 by 9 block ends within the terminal. *)
Theorem block_stays_on_screen rt env (sd0 : SpotifyDisplay)
  (evs : list LoopEvent) (w h : Z) :
  MainGo.NewSpotifyDisplay env = Ok sd0 ->
  64 <= w <= 2 ^ 61 -> 13 <= h <= 2 ^ 61 ->
  let sd := fst (fst (MainGo.loop rt sd0 evs)) in
  let t := MainGo.getTerminalSize sd w h in
  (0 <= t.(startX) /\ t.(startX) + 60 <= w)
  /\ (0 <= t.(startY) /\ t.(startY) + 9 <= h).
Proof.
  intros Hnew Hw Hh sd t. subst sd t.
  assert (E0 : sd0 = NewSpotifyDisplay env.(cachePath)).
  { unfold MainGo.NewSpotifyDisplay in Hnew.
    destruct (homeDirErr env); [discriminate|].
    destruct (mkdirErr env); [discriminate|].
    destruct (busErr env); [discriminate|].
    now injection Hnew as <-. }
  destruct (main_loop_sameInstallation rt evs sd0) as [_ [Hn [Hc Hm]]].
  set (sd := fst (fst (MainGo.loop rt sd0 evs))) in *.
  rewrite E0 in Hn, Hc, Hm. cbn in Hn, Hc, Hm.
  pose proof (main_block_fits sd w h) as F. cbv zeta in F.
  rewrite Hn, Hc, Hm in F. apply F; unfold small; lia.
Qed.

Lemma block_stays_on_screen_witness :
  let sd := fst (fst (MainGo.loop rt_amd64 (NewSpotifyDisplay "/c")
                        [Keyboard (keyPress KeyArrowRight)])) in
  (MainGo.getTerminalSize sd 80 24).(startX) + 60 <= 80.
Proof.
  refine (proj2 (proj1
    (block_stays_on_screen rt_amd64
       {| spotifyRunning := true; homeDirErr := None; cachePath := "/c";
          mkdirErr := None; busErr := None; termboxErr := None;
          logFileErr := None |}
       (NewSpotifyDisplay "/c") [Keyboard (keyPress KeyArrowRight)] 80 24
       _ _ _))); [reflexivity | lia | lia].
Defined.

(** ** The bar and the time label *)

Lemma length_append (a b : string) :
  String.length (a ++ b) = (String.length a + String.length b)%nat.
Proof. induction a as [| x a IH]; cbn; [reflexivity | now rewrite IH]. Qed.

Lemma length_repeat_nat (s : string) (n : nat) :
  String.length (GoStrings.repeat_nat s n) = (n * String.length s)%nat.
Proof.
  induction n as [| n IH]; cbn [GoStrings.repeat_nat]; [reflexivity|].
  rewrite length_append, IH. reflexivity.
Qed.

Lemma bar_length (k : Z) :
  0 <= k <= 40 ->
  String.length (GoStrings.Repeat MainGo.filledGlyph k
                 ++ GoStrings.Repeat MainGo.emptyGlyph (GoInt.sub 40 k))
  = 120%nat.
Proof.
  intros Hk. rewrite sub_small
    by (unfold GoInt.in_int64, GoInt.min_int64, GoInt.max_int64; lia).
  unfold GoStrings.Repeat. rewrite length_append, !length_repeat_nat.
  change (String.length MainGo.filledGlyph) with 3%nat.
  change (String.length MainGo.emptyGlyph) with 3%nat. lia.
Qed.

(** X11.  The bar [drawProgressBar] prints always has 40 glyphs of three
    bytes each, filled ones first: 120 bytes whatever the record and the
    platform, in both files, so that it overwrites the previous bar
    exactly; and the filled part is [progress] glyphs long. *)
Theorem bar_always_forty_glyphs rt (md : Metadata) :
  String.length (MainGo.bar rt md) = 120%nat
  /\ String.length (Part000.bar rt md) = 120%nat
  /\ (exists k, (k <= 40)%nat
        /\ MainGo.bar rt md
           = (GoStrings.repeat_nat MainGo.filledGlyph k
              ++ GoStrings.repeat_nat MainGo.emptyGlyph (40 - k))%string)
  /\ (exists k, (k <= 40)%nat
        /\ Part000.bar rt md
           = (GoStrings.repeat_nat MainGo.filledGlyph k
              ++ GoStrings.repeat_nat MainGo.emptyGlyph (40 - k))%string).
Proof.
  pose proof (main_progress_bounds rt md) as Hm.
  pose proof (part_progress_bounds rt md) as Hp.
  unfold MainGo.bar, Part000.bar, MainGo.barWidth, Part000.barWidth.
  repeat apply conj.
  - now apply bar_length.
  - now apply bar_length.
  - exists (Z.to_nat (MainGo.progress rt md)). split; [lia|].
    rewrite sub_small
      by (unfold GoInt.in_int64, GoInt.min_int64, GoInt.max_int64; lia).
    unfold GoStrings.Repeat. do 2 f_equal. lia.
  - exists (Z.to_nat (Part000.progress rt md)). split; [lia|].
    rewrite sub_small
      by (unfold GoInt.in_int64, GoInt.min_int64, GoInt.max_int64; lia).
    unfold GoStrings.Repeat. do 2 f_equal. lia.
Qed.

(** ** The time label *)

Lemma formatTime_length (s : Z) :
  0 <= s < 6000 -> String.length (MainGo.formatTime s) = 5%nat.
Proof.
  intros Hs.
  rewrite formatTime_nonneg by (unfold GoInt.max_int64; lia).
  assert (Hq : 0 <= s / 60 < 100).
  { split; [apply Z.div_pos; lia | apply Z.div_lt_upper_bound; lia]. }
  pose proof (Z.mod_pos_bound s 60 ltac:(lia)) as Hr.
  rewrite !d02_two_digits by lia. reflexivity.
Qed.

Lemma timeText_agree (md : Metadata) :
  Part000.timeText md = MainGo.timeText md.
Proof.
  unfold Part000.timeText, MainGo.timeText, MainGo.formatTime.
  cbv zeta. rewrite append_assoc. reflexivity.
Qed.

(** X12.  The time label is the same string in both files, whatever the
    record.  For a position and a length under 100 minutes it is 11 bytes
    long, and [drawProgressBar] of [src/main.go] then prints it 14 columns
    right of the bar's first column, on the row below the bar: centred
    under the 40 glyphs, the odd cell left over on the right. *)
Theorem time_label_centred rt (md : Metadata) (term : TerminalSize) :
  Part000.timeText md = MainGo.timeText md
  /\ (0 <= md.(Position) < 6000 -> 0 <= md.(Length) < 6000 ->
      String.length (MainGo.timeText md) = 11%nat
      /\ exists before,
          MainGo.drawProgressBar rt md term
          = before
            ++ moveCursor (GoInt.add (GoInt.add term.(startX) 20) 14)
                          (GoInt.add term.(startY) 5)
            ++ [Stdout (MainGo.timeText md)]).
Proof.
  split; [apply timeText_agree|].
  intros Hp Hl.
  assert (Hlen : String.length (MainGo.timeText md) = 11%nat).
  { unfold MainGo.timeText. rewrite !length_append.
    rewrite !formatTime_length by assumption. reflexivity. }
  split; [exact Hlen|].
  unfold MainGo.drawProgressBar. cbv zeta.
  unfold GoStrings.len. rewrite Hlen.
  change (GoInt.quo (GoInt.sub MainGo.barWidth (Z.of_nat 11)) 2) with 14.
  eexists. rewrite !app_assoc. reflexivity.
Qed.

Lemma time_label_centred_witness :
  String.length (MainGo.timeText (sampleTrack 300 125)) = 11%nat.
Proof.
  refine (proj1 (proj2 (time_label_centred rt_amd64 (sampleTrack 300 125)
                          (MainGo.getTerminalSize (NewSpotifyDisplay "/c") 80 24))
                   _ _)); cbn; lia.
Defined.

(** ** The two [getMetadata] compared *)

(** X13.  Whenever [getMetadata] of [src/main.go] returns a record and
    the reply has an art-URL entry, [getMetadata] of
    [src/unnamed/part_000] returns the same record without the album.
    When the entry is missing, part_000 asks the bus library to render the
    zero variant, which main.go never does for this key: where that call
    panics, part_000 panics on a reply main.go accepts. *)
Theorem getMetadata_variants rt env logs (md : Metadata) :
  MainGo.getMetadata rt env = (logs, Ok md) ->
  (hasArtUrl env -> Part000.getMetadata rt env = Ok (withoutAlbum md))
  /\ (~ hasArtUrl env -> rt.(zeroVariantString) = None ->
      Part000.getMetadata rt env = Panic).
Proof.
  unfold MainGo.getMetadata, Part000.getMetadata, hasArtUrl.
  destruct (metadataProp env) as [e | [x r0]]; [discriminate|].
  cbn [Value]. destruct x as [| | | | metadata |]; try discriminate.
  destruct (positionProp env) as [e | position]; [discriminate|].
  cbv zeta. unfold Part000.int64OrZero.
  destruct (int64Of (valueOf (lookup metadata "mpris:length"))) as [l|];
    [|discriminate].
  cbn [valueOf].
  destruct (int64Of (Value position)) as [p|]; [|discriminate].
  destruct (valueOf (lookup metadata "xesam:artist")); try discriminate.
  destruct (VariantString rt (lookup metadata "xesam:title")) as [title | |];
    cbn [bind]; try discriminate.
  destruct (VariantString rt (lookup metadata "xesam:album")) as [album | |];
    cbn [bind]; try discriminate.
  intros [= _ <-]. split.
  - intros Hart.
    destruct (lookup metadata "mpris:artUrl") as [v |]; [|contradiction].
    reflexivity.
  - intros Hno Hz.
    destruct (lookup metadata "mpris:artUrl") as [v |].
    + exfalso. apply Hno. discriminate.
    + cbn. rewrite Hz. reflexivity.
Qed.

Lemma getMetadata_variants_witness :
  Part000.getMetadata rt_amd64
    (sampleEnv (VInt64 300000000) (VInt64 125000000)
       (quoted "https://i.scdn.co/image/ab67") None)
  = Ok {| Title := quoted "Song"; Artist := "Band"; Album := "";
          Length := 300; Position := 125;
          ArtURL := "https://i.scdn.co/image/ab67" |}.
Proof.
  refine (proj1 (getMetadata_variants rt_amd64
    (sampleEnv (VInt64 300000000) (VInt64 125000000)
       (quoted "https://i.scdn.co/image/ab67") None)
    (MainGo.artURLLog (quoted "https://i.scdn.co/image/ab67"))
    {| Title := quoted "Song"; Artist := "Band"; Album := quoted "Album";
       Length := 300; Position := 125;
       ArtURL := "https://i.scdn.co/image/ab67" |} _) _).
  - vm_compute. reflexivity.
  - cbn. discriminate.
Defined.

(** X14.  How the two [getMetadata] fail.  In [src/unnamed/part_000] an
    error is returned only for a failed metadata query, with the query's
    own message; a failed position query is never an error there.  In
    [src/main.go] a failed query of either property is returned as it is,
    a reply of the wrong shape is an error and not a panic, and the only
    panic left is the rendering of a missing title or album by the bus
    library. *)
Theorem getMetadata_failure_modes rt env :
  (forall e, Part000.getMetadata rt env = Err e
             <-> env.(metadataProp) = ReplyErr e)
  /\ (forall e, env.(metadataProp) = ReplyErr e ->
                MainGo.getMetadata rt env = ([], Err e))
  /\ (forall v e, env.(metadataProp) = ReplyVal v ->
                  (exists m, Value v = VDict m) ->
                  env.(positionProp) = ReplyErr e ->
                  MainGo.getMetadata rt env = ([], Err e)
                  /\ Part000.getMetadata rt env <> Err e)
  /\ (snd (MainGo.getMetadata rt env) = Panic ->
      rt.(zeroVariantString) = None
      /\ exists metadata r0,
          env.(metadataProp) = ReplyVal (MkVariant (VDict metadata) r0)
          /\ (lookup metadata "xesam:title" = None
              \/ lookup metadata "xesam:album" = None)).
Proof.
  assert (Hpart : forall e, Part000.getMetadata rt env = Err e
                            <-> env.(metadataProp) = ReplyErr e).
  { intros e. unfold Part000.getMetadata.
    destruct (metadataProp env) as [e0 | [x r0]].
    - split; intros [= ->]; reflexivity.
    - cbn [Value]. split; [|discriminate].
      destruct x as [| | | | metadata |]; try discriminate.
      destruct (valueOf (lookup metadata "xesam:artist")); try discriminate.
      pose proof (VariantString_not_err rt (lookup metadata "mpris:artUrl"))
        as Ha.
      pose proof (VariantString_not_err rt (lookup metadata "xesam:title"))
        as Ht.
      destruct (VariantString rt (lookup metadata "mpris:artUrl"));
        cbn [bind]; try discriminate.
      + cbv zeta.
        destruct (VariantString rt (lookup metadata "xesam:title"));
          cbn [bind]; try discriminate.
        intros [= ->]. now elim (Ht e).
      + intros [= ->]. now elim (Ha e). }
  split; [exact Hpart|]. split; [|split].
  - intros e H. unfold MainGo.getMetadata. rewrite H. reflexivity.
  - intros v e Hm [m Hv] Hp. split.
    + unfold MainGo.getMetadata. rewrite Hm, Hv, Hp. reflexivity.
    + intros Hc. apply Hpart in Hc. rewrite Hm in Hc. discriminate.
  - unfold MainGo.getMetadata.
    destruct (metadataProp env) as [e0 | [x r0]]; [discriminate|].
    cbn [Value]. destruct x as [| | | | metadata |]; try discriminate.
    destruct (positionProp env) as [e0 | position]; [discriminate|].
    cbv zeta.
    destruct (int64Of (valueOf (lookup metadata "mpris:length")));
      [|discriminate].
    destruct (int64Of (Value position)); [|discriminate].
    destruct (valueOf (lookup metadata "xesam:artist")); try discriminate.
    cbn [snd]. unfold VariantString.
    destruct (lookup metadata "xesam:title") as [vt |] eqn:Et;
      destruct (lookup metadata "xesam:album") as [va |] eqn:Ea;
      destruct (zeroVariantString rt) as [zs |]; cbn [bind];
      try discriminate; intros _; (split; [reflexivity|]);
      exists metadata, r0; (split; [reflexivity|]);
      ((left; assumption) || (right; assumption)).
Qed.

Lemma getMetadata_failure_modes_witness :
  MainGo.getMetadata rt_amd64 failingEnv = ([], Err "no reply").
Proof.
  refine (proj1 (proj2 (getMetadata_failure_modes rt_amd64 failingEnv))
            "no reply" _).
  reflexivity.
Defined.

(** ** Stripping the quotes *)

Lemma trimRightByte_run (c : ascii) (n : nat) :
  GoStrings.trimRightByte (run c n) c = "".
Proof.
  induction n as [| n IH]; [reflexivity|].
  change (run c (S n)) with (String c (run c n)).
  cbn [GoStrings.trimRightByte]. rewrite IH, Ascii.eqb_refl. reflexivity.
Qed.

Lemma trimRightByte_append_run (t : string) (c : ascii) (n : nat) :
  GoStrings.trimRightByte (t ++ run c n) c = GoStrings.trimRightByte t c.
Proof.
  induction t as [| a t IH]; [apply trimRightByte_run|].
  cbn [append GoStrings.trimRightByte]. rewrite IH. reflexivity.
Qed.

Lemma trimRightByte_fixed (s : string) (c : ascii) :
  lastIsNot c s -> GoStrings.trimRightByte s c = s.
Proof.
  induction s as [| a s IH]; [reflexivity|].
  destruct s as [| b s].
  - cbn. intros H. destruct (Ascii.eqb_spec a c); [contradiction | reflexivity].
  - intros H. change (lastIsNot c (String a (String b s)))
      with (lastIsNot c (String b s)) in H.
    specialize (IH H).
    change (GoStrings.trimRightByte (String a (String b s)) c)
      with (match GoStrings.trimRightByte (String b s) c with
            | EmptyString =>
                if Ascii.eqb a c then EmptyString else String a EmptyString
            | t => String a t
            end).
    rewrite IH. reflexivity.
Qed.

Lemma lastIsNot_append (t s : string) (c : ascii) :
  s <> "" -> lastIsNot c s -> lastIsNot c (t ++ s).
Proof.
  intros Hne Hs. induction t as [| a t IH]; [exact Hs|].
  cbn [append]. destruct (t ++ s)%string as [| b u] eqn:E.
  - destruct t; [cbn in E; contradiction | discriminate E].
  - exact IH.
Qed.

Lemma trimLeftByte_run_append (s : string) (c : ascii) (n : nat) :
  GoStrings.trimLeftByte (run c n ++ s) c = GoStrings.trimLeftByte s c.
Proof.
  induction n as [| n IH]; [reflexivity|].
  change (run c (S n) ++ s)%string with (String c (run c n ++ s)).
  cbn [GoStrings.trimLeftByte]. rewrite Ascii.eqb_refl. exact IH.
Qed.

Lemma trimLeftByte_fixed (s : string) (c : ascii) :
  firstIsNot c s -> GoStrings.trimLeftByte s c = s.
Proof.
  destruct s as [| a s]; [reflexivity|]. cbn. intros H.
  destruct (Ascii.eqb_spec a c); [contradiction | reflexivity].
Qed.

Lemma Trim1_runs (s : string) (c : ascii) (a b : nat) :
  firstIsNot c s -> lastIsNot c s ->
  GoStrings.Trim1 (run c a ++ s ++ run c b) c = s.
Proof.
  intros Hf Hl. unfold GoStrings.Trim1.
  rewrite <- append_assoc, trimRightByte_append_run.
  destruct s as [| x s].
  - rewrite append_nil_r, trimRightByte_run. reflexivity.
  - rewrite trimRightByte_fixed
      by (apply lastIsNot_append; [discriminate | exact Hl]).
    rewrite trimLeftByte_run_append. now apply trimLeftByte_fixed.
Qed.

(** X15.  Stripping undoes quoting: for a string with no quote byte at
    either end, wrapping it in any number of quote bytes and trimming
    gives the string back, and trimming twice is trimming once.  So the
    normalisation returns a quoted CDN address unquoted and whole, and of
    a quoted [file://] address the path exactly. *)
Theorem quote_stripping_round_trip (s : string) (a b : nat) :
  firstIsNot quoteChar s -> lastIsNot quoteChar s ->
  GoStrings.Trim1 (run quoteChar a ++ s ++ run quoteChar b) quoteChar = s
  /\ GoStrings.Trim1 (quoted s) quoteChar = s
  /\ (forall raw, GoStrings.Trim1 (GoStrings.Trim1 raw quoteChar) quoteChar
                  = GoStrings.Trim1 raw quoteChar)
  /\ (forall t, s = (cdnPrefix ++ t)%string ->
                normalizeArtURL (quoted s) = s)
  /\ (forall p, s = (filePrefix ++ p)%string ->
                normalizeArtURL (quoted s) = p).
Proof.
  intros Hf Hl.
  assert (Hq : GoStrings.Trim1 (quoted s) quoteChar = s).
  { exact (Trim1_runs s quoteChar 1 1 Hf Hl). }
  split; [now apply Trim1_runs|]. split; [exact Hq|]. split; [|split].
  - intros raw.
    destruct (Trim1_spec raw quoteChar) as [nl [nr [_ [H1 H2]]]].
    pose proof (Trim1_runs _ quoteChar 0 0 H1 H2) as H.
    cbn [run GoStrings.repeat_nat append] in H.
    rewrite append_nil_r in H. exact H.
  - intros t E. rewrite (normalizeArtURL_cdn (quoted s) t); [now rewrite E|].
    now rewrite Hq.
  - intros p E. apply normalizeArtURL_file. now rewrite Hq.
Qed.

Lemma quote_stripping_round_trip_witness :
  normalizeArtURL (quoted "file:///tmp/cover.png") = "/tmp/cover.png".
Proof.
  refine (proj2 (proj2 (proj2 (proj2
    (quote_stripping_round_trip "file:///tmp/cover.png" 1 1 _ _))))
    "/tmp/cover.png" _).
  - cbn. discriminate.
  - cbn. discriminate.
  - reflexivity.
Defined.

(** ** The fill count as the position advances *)

Lemma main_progress_floor rt (md : Metadata) :
  0 < md.(Length) <= 2 ^ 44 -> 0 <= md.(Position) <= 2 ^ 44 ->
  MainGo.progress rt md = Z.min 40 (40 * md.(Position) / md.(Length)).
Proof.
  intros Hl Hp.
  rewrite main_progress_fill by lia. cbv zeta.
  destruct (fillFloat_trunc md.(Position) md.(Length) Hl Hp)
    as [t [Et [Hr [Hlt Hge]]]].
  unfold GoFloat.to_int. rewrite Et.
  assert (Hin : GoInt.in_int64b t = true).
  { unfold GoInt.in_int64b, GoInt.min_int64, GoInt.max_int64.
    apply andb_true_intro. split; apply Z.leb_le; lia. }
  rewrite Hin.
  destruct (Z.ltb_spec t 0); [lia|].
  destruct (Z.lt_ge_cases md.(Position) md.(Length)) as [Hc | Hc].
  - specialize (Hlt Hc).
    assert (t <= 39).
    { rewrite Hlt. apply Z.lt_succ_r. apply Z.div_lt_upper_bound; lia. }
    destruct (Z.ltb_spec 40 t); lia.
  - specialize (Hge Hc).
    assert (40 <= 40 * md.(Position) / md.(Length))
      by (apply Z.div_le_lower_bound; lia).
    destruct (Z.ltb_spec 40 t); lia.
Qed.

(** X16.  On one track the bar never moves backwards: for two records of
    the same length, between 1 and 2^44 seconds, the later position fills
    at least as many cells.  The bar is empty exactly while 40 times the
    position is below the length, and full exactly from the position that
    reaches the length.  On every platform, in both files. *)
Theorem progress_monotone rt (md md' : Metadata) :
  0 < md.(Length) <= 2 ^ 44 -> md'.(Length) = md.(Length) ->
  0 <= md.(Position) -> md.(Position) <= md'.(Position) ->
  md'.(Position) <= 2 ^ 44 ->
  MainGo.progress rt md <= MainGo.progress rt md'
  /\ Part000.progress rt md <= Part000.progress rt md'
  /\ (MainGo.progress rt md = 0 <-> 40 * md.(Position) < md.(Length))
  /\ (MainGo.progress rt md = 40 <-> md.(Length) <= md.(Position)).
Proof.
  intros Hl El Hp0 Hpp Hp1.
  assert (Hm : MainGo.progress rt md
               = Z.min 40 (40 * md.(Position) / md.(Length)))
    by (apply main_progress_floor; lia).
  assert (Hm' : MainGo.progress rt md'
                = Z.min 40 (40 * md'.(Position) / md.(Length))).
  { rewrite <- El. apply main_progress_floor; lia. }
  assert (Hmono : 40 * md.(Position) / md.(Length)
                  <= 40 * md'.(Position) / md.(Length))
    by (apply Z.div_le_mono; lia).
  assert (H0 : 0 <= 40 * md.(Position) / md.(Length))
    by (apply Z.div_pos; lia).
  split; [|split; [|split]].
  - rewrite Hm, Hm'. lia.
  - rewrite !progress_agree by lia. rewrite Hm, Hm'. lia.
  - rewrite Hm. split.
    + intros H.
      assert (E : 40 * md.(Position) / md.(Length) = 0) by lia.
      apply Z.div_small_iff in E; lia.
    + intros H. rewrite Z.div_small by lia. reflexivity.
  - rewrite Hm. split.
    + intros H.
      assert (E : 40 <= 40 * md.(Position) / md.(Length)) by lia.
      destruct (Z.lt_ge_cases md.(Position) md.(Length)) as [Hc | Hc];
        [|exact Hc].
      assert (40 * md.(Position) / md.(Length) < 40)
        by (apply Z.div_lt_upper_bound; lia).
      lia.
    + intros H.
      assert (40 <= 40 * md.(Position) / md.(Length))
        by (apply Z.div_le_lower_bound; lia).
      lia.
Qed.

Lemma progress_monotone_witness :
  MainGo.progress rt_arm64 (sampleTrack 300 125)
  <= MainGo.progress rt_arm64 (sampleTrack 300 126).
Proof.
  refine (proj1 (progress_monotone rt_arm64 (sampleTrack 300 125)
                   (sampleTrack 300 126) _ _ _ _ _)); cbn; lia.
Defined.

(** ** Where the two files put the text *)

Lemma wrap64_idem_add (a b : Z) :
  GoInt.wrap64 (GoInt.wrap64 a + b) = GoInt.wrap64 (a + b).
Proof.
  unfold GoInt.wrap64. f_equal.
  replace ((a + 2 ^ 63) mod 2 ^ 64 - 2 ^ 63 + b + 2 ^ 63)
    with ((a + 2 ^ 63) mod 2 ^ 64 + b) by lia.
  rewrite Zplus_mod_idemp_l. f_equal. lia.
Qed.

Lemma add_add (a b c : Z) :
  GoInt.add (GoInt.add a b) c = GoInt.add a (b + c).
Proof.
  unfold GoInt.add. rewrite wrap64_idem_add. f_equal. lia.
Qed.

(** X17.  For the same origin the two files do not print the text in the
    same column: [src/main.go] goes through [moveCursor], which adds one
    to the column, [src/unnamed/part_000] prints the column as it is.
    Byte for byte, the track lines of part_000 at an origin one column
    further right are those of main.go, and so are the bar and the time
    label for a positive length.  The picture is put at the same place by
    both, so in part_000 the text stands one column nearer the picture. *)
Theorem text_one_column_apart rt (md : Metadata) (term : TerminalSize) :
  stdoutBytes (Part000.drawTrackInfo md (shiftRight term))
  = stdoutBytes (MainGo.drawTrackInfo md term)
  /\ (0 < md.(Length) ->
      stdoutBytes (Part000.drawProgressBar rt md (shiftRight term))
      = stdoutBytes (MainGo.drawProgressBar rt md term)).
Proof.
  split.
  - unfold Part000.drawTrackInfo, MainGo.drawTrackInfo, moveCursor,
      shiftRight. cbn [startX startY app stdoutBytes].
    rewrite !add_add, !append_assoc, !append_nil_r.
    reflexivity.
  - intros Hl.
    unfold Part000.drawProgressBar, MainGo.drawProgressBar, moveCursor,
      shiftRight. cbn [startX startY app stdoutBytes].
    rewrite timeText_agree.
    unfold Part000.bar, MainGo.bar. rewrite (progress_agree rt md Hl).
    change Part000.barWidth with MainGo.barWidth.
    set (off := GoInt.quo _ 2).
    rewrite !add_add, !append_assoc, !append_nil_r.
    replace (1 + 20 + off) with (20 + (off + 1)) by lia.
    reflexivity.
Qed.

Lemma text_one_column_apart_witness :
  stdoutBytes (Part000.drawProgressBar rt_amd64 (sampleTrack 300 125)
                 (shiftRight (MainGo.getTerminalSize (NewSpotifyDisplay "/c")
                                80 24)))
  = stdoutBytes (MainGo.drawProgressBar rt_amd64 (sampleTrack 300 125)
                   (MainGo.getTerminalSize (NewSpotifyDisplay "/c") 80 24)).
Proof.
  refine (proj2 (text_one_column_apart rt_amd64 (sampleTrack 300 125)
                   (MainGo.getTerminalSize (NewSpotifyDisplay "/c")
                      80 24)) _).
  cbn. lia.
Defined.

(** ** What the loop can send out *)

Section Envelope.

Variable P : Effect -> Prop.
Variable path : string.
Hypothesis Pout : forall s, P (Stdout s).
Hypothesis Plog : forall s, P (Log s).
Hypothesis Pcopy : forall u, P (CopyFile u path).
Hypothesis Pget : forall u, P (HttpGet u path).
Hypothesis Pexec : forall c, P (Exec c (MainGo.chafaArgs path)).

Ltac envelope :=
  repeat (rewrite Forall_app || split || apply Forall_cons
          || apply Forall_nil || apply Pout || apply Plog || apply Pcopy
          || apply Pget || apply Pexec).

Lemma main_getMetadata_envelope rt env :
  Forall P (fst (MainGo.getMetadata rt env)).
Proof.
  unfold MainGo.getMetadata.
  destruct (metadataProp env) as [e | [x r0]]; [constructor|].
  cbn [Value]. destruct x as [| | | | metadata |]; try constructor.
  destruct (positionProp env) as [e | position]; [constructor|].
  cbv zeta.
  destruct (int64Of (valueOf (lookup metadata "mpris:length")));
    [|constructor].
  destruct (int64Of (Value position)); [|constructor].
  destruct (valueOf (lookup metadata "xesam:artist")); try constructor.
  cbn [fst].
  destruct (lookup metadata "mpris:artUrl") as [v |]; [|constructor].
  unfold MainGo.artURLLog. cbv zeta.
  destruct (GoStrings.HasPrefix _ cdnPrefix);
    [|destruct (GoStrings.HasPrefix _ filePrefix)]; envelope.
Qed.

Lemma main_displayImage_envelope env x y :
  Forall P (fst (MainGo.displayImage env path x y)).
Proof.
  unfold MainGo.displayImage, moveCursor. cbv zeta.
  destruct (String.eqb path ""); [constructor|].
  destruct (statErr _); [constructor|].
  destruct (fileSize _ =? 0); [constructor|].
  destruct (lookPath _); [|constructor].
  destruct (runErr _); cbn [fst]; envelope.
Qed.

Lemma main_updateArtwork_envelope env sd md term :
  artworkPath sd = path ->
  Forall P (snd (MainGo.updateArtwork env sd md term)).
Proof.
  intros Hp. unfold MainGo.updateArtwork, MainGo.downloadArtwork.
  change (artworkPath (setArtURL sd md.(ArtURL))) with (artworkPath sd).
  rewrite Hp.
  pose proof (main_displayImage_envelope env term.(startX) term.(startY))
    as Hd.
  destruct (String.eqb md.(ArtURL) ""); cbn [snd]; [envelope|].
  cbv zeta.
  destruct (GoStrings.HasPrefix md.(ArtURL) "/");
    destruct (transferErr env); cbn [snd]; try (envelope; fail);
    destruct (String.eqb path ""); try (envelope; fail);
    destruct (MainGo.displayImage env path _ _) as [fx2 [u | e |]];
    cbn [fst snd] in *; envelope; exact Hd.
Qed.

Lemma main_tick_envelope rt env sd :
  artworkPath sd = path ->
  Forall P (snd (fst (MainGo.tick rt env sd))).
Proof.
  intros Hp. pose proof (main_getMetadata_envelope rt env) as Hl.
  unfold MainGo.tick.
  destruct (MainGo.getMetadata rt env) as [logs [md | e |]];
    cbn [fst snd] in *.
  - pose proof (main_updateArtwork_envelope env sd md
        (MainGo.getTerminalSize sd (fst (termSize env)) (snd (termSize env)))
        Hp) as Hu.
    assert (Hdraw : Forall P
              (MainGo.drawTrackInfo md
                 (MainGo.getTerminalSize sd (fst (termSize env))
                    (snd (termSize env)))
               ++ MainGo.drawProgressBar rt md
                    (MainGo.getTerminalSize sd (fst (termSize env))
                       (snd (termSize env))))).
    { unfold MainGo.drawTrackInfo, MainGo.drawProgressBar, moveCursor.
      cbv zeta. envelope. }
    destruct (MainGo.artworkDue sd md).
    + destruct (MainGo.updateArtwork env sd md _) as [sd' fx].
      cbn [fst snd] in *.
      apply Forall_app; split; [exact Hl|].
      apply Forall_app; split; assumption.
    + cbn [fst snd]. apply Forall_app; split; assumption.
  - apply Forall_app; split; [exact Hl | envelope].
  - exact Hl.
Qed.

Lemma main_step_envelope rt sd ev :
  artworkPath sd = path ->
  Forall P (snd (fst (MainGo.step rt sd ev))).
Proof.
  intros Hp. destruct ev as [e | env |]; cbn [MainGo.step].
  - destruct (evType e); [|constructor].
    destruct (Ascii.eqb (evCh e) "q"); [constructor|].
    destruct (MainGo.handleKeyboard sd e) as [sd1 [|]]; cbn [fst snd];
      unfold clearScreen; envelope.
  - now apply main_tick_envelope.
  - constructor.
Qed.

Lemma main_loop_envelope rt evs : forall sd,
  artworkPath sd = path ->
  Forall P (snd (fst (MainGo.loop rt sd evs))).
Proof.
  induction evs as [| ev evs IH]; intros sd Hp; [constructor|].
  cbn [MainGo.loop].
  pose proof (main_step_sameInstallation rt sd ev) as Hs.
  pose proof (main_step_envelope rt sd ev Hp) as Hw.
  destruct (MainGo.step rt sd ev) as [[sd1 fx1] st1].
  cbn [fst snd] in Hs, Hw.
  destruct st1; cbn [fst snd]; try assumption.
  assert (Hp1 : artworkPath sd1 = path).
  { rewrite <- Hp. unfold artworkPath. destruct Hs as [-> _]. reflexivity. }
  specialize (IH sd1 Hp1).
  destruct (MainGo.loop rt sd1 evs) as [[sd2 fx2] st2].
  cbn [fst snd] in *. apply Forall_app; split; assumption.
Qed.

Lemma part_updateArtwork_envelope env sd md term :
  artworkPath sd = path -> md.(ArtURL) <> "" ->
  Forall P (snd (fst (Part000.updateArtwork env sd md term))).
Proof.
  intros Hp Hne. rewrite (part_updateArtwork_effects env sd md term Hne).
  cbn [fst snd]. unfold fetchOf, Part000.displayImage. rewrite Hp.
  destruct (nilRequest env md.(ArtURL)); [constructor|].
  destruct (GoStrings.HasPrefix md.(ArtURL) "/");
    destruct (transferErr env); try (envelope; fail);
    destruct (lookPath (displayEnv env)); cbn [fst snd]; envelope.
Qed.

Lemma part_tick_envelope rt env sd :
  artworkPath sd = path ->
  Forall P (snd (fst (Part000.tick rt env sd))).
Proof.
  intros Hp. unfold Part000.tick.
  destruct (Part000.getMetadata rt env) as [md | e |]; cbn [fst snd];
    try constructor.
  assert (Hdraw : Forall P
            (Part000.drawTrackInfo md
               (Part000.getTerminalSize sd (fst (termSize env))
                  (snd (termSize env)))
             ++ Part000.drawProgressBar rt md
                  (Part000.getTerminalSize sd (fst (termSize env))
                     (snd (termSize env))))).
  { unfold Part000.drawTrackInfo, Part000.drawProgressBar.
    cbv zeta. envelope. }
  destruct (Part000.artworkDue sd md) eqn:Ed.
  - assert (Hne : md.(ArtURL) <> "").
    { unfold Part000.artworkDue in Ed. apply andb_prop in Ed.
      destruct Ed as [_ Ed]. intros E. rewrite E in Ed. discriminate Ed. }
    pose proof (part_updateArtwork_envelope env sd md
        (Part000.getTerminalSize sd (fst (termSize env)) (snd (termSize env)))
        Hp Hne) as Hu.
    destruct (Part000.updateArtwork env sd md _) as [[sd' fx] st].
    cbn [fst snd] in *. apply Forall_app; split; assumption.
  - exact Hdraw.
Qed.

Lemma part_step_sameCache rt sd ev :
  (fst (fst (Part000.step rt sd ev))).(cacheDir) = sd.(cacheDir).
Proof.
  destruct ev as [e | env |]; cbn [Part000.step].
  - destruct (evType e); [|reflexivity].
    destruct (Ascii.eqb (evCh e) "q"); [reflexivity|].
    unfold Part000.handleKeyboard.
    destruct (evKey e); try reflexivity.
    destruct (Ascii.eqb (evCh e) "c"); reflexivity.
  - rewrite part_tick_state. reflexivity.
  - reflexivity.
Qed.

Lemma part_step_envelope rt sd ev :
  artworkPath sd = path ->
  Forall P (snd (fst (Part000.step rt sd ev))).
Proof.
  intros Hp. destruct ev as [e | env |]; cbn [Part000.step].
  - destruct (evType e); [|constructor].
    destruct (Ascii.eqb (evCh e) "q"); [constructor|].
    destruct (Part000.handleKeyboard sd e) as [sd1 [|]]; cbn [fst snd];
      unfold clearScreen; envelope.
  - now apply part_tick_envelope.
  - constructor.
Qed.

Lemma part_loop_envelope rt evs : forall sd,
  artworkPath sd = path ->
  Forall P (snd (fst (Part000.loop rt sd evs))).
Proof.
  induction evs as [| ev evs IH]; intros sd Hp; [constructor|].
  cbn [Part000.loop].
  pose proof (part_step_sameCache rt sd ev) as Hs.
  pose proof (part_step_envelope rt sd ev Hp) as Hw.
  destruct (Part000.step rt sd ev) as [[sd1 fx1] st1].
  cbn [fst snd] in Hs, Hw.
  destruct st1; cbn [fst snd]; try assumption.
  assert (Hp1 : artworkPath sd1 = path).
  { rewrite <- Hp. unfold artworkPath. rewrite Hs. reflexivity. }
  specialize (IH sd1 Hp1).
  destruct (Part000.loop rt sd1 evs) as [[sd2 fx2] st2].
  cbn [fst snd] in *. apply Forall_app; split; assumption.
Qed.

End Envelope.

(** X18.  The only external command the loop runs, in either file and
    whatever the events and replies, is the renderer with its three fixed
    options on the one cache file; the loop never opens or closes the
    terminal library. *)
Theorem loop_runs_renderer_on_cache_file rt (evs : list LoopEvent)
  (sd : SpotifyDisplay) :
  Forall (rendersOnly (sd.(cacheDir) ++ "/current_artwork.png"))
         (snd (fst (MainGo.loop rt sd evs)))
  /\ Forall (rendersOnly (sd.(cacheDir) ++ "/current_artwork.png"))
            (snd (fst (Part000.loop rt sd evs))).
Proof.
  split.
  - apply main_loop_envelope with (path := artworkPath sd);
      intros; try exact I; reflexivity.
  - apply part_loop_envelope with (path := artworkPath sd);
      intros; try exact I; reflexivity.
Qed.

(** ** Start-up and exit *)

Lemma part_tick_not_terminating rt env sd :
  snd (Part000.tick rt env sd) <> Terminating.
Proof.
  unfold Part000.tick.
  destruct (Part000.getMetadata rt env) as [md | e |]; cbn [snd];
    try discriminate.
  destruct (Part000.artworkDue sd md) eqn:Ed; [|discriminate].
  apply (artworkDue_spec sd md) in Ed. destruct Ed as [_ Hne].
  rewrite (part_updateArtwork_effects env sd md _ Hne). cbn [snd].
  destruct (nilRequest env md.(ArtURL)); discriminate.
Qed.

Lemma part_loop_terminating rt evs : forall sd,
  snd (Part000.loop rt sd evs) = Terminating -> Exists isQuit evs.
Proof.
  induction evs as [| ev evs IH]; intros sd H; [discriminate H|].
  cbn [Part000.loop] in H.
  destruct (Part000.step rt sd ev) as [[sd' fx] st] eqn:Es.
  destruct st.
  - destruct (Part000.loop rt sd' evs) as [[sd2 fx2] st2] eqn:El.
    cbn [snd] in H. subst st2.
    apply Exists_cons_tl. apply (IH sd'). rewrite El. reflexivity.
  - apply Exists_cons_hd.
    destruct ev as [e | env |]; cbn [Part000.step] in Es.
    + destruct (evType e) eqn:Et; [|discriminate Es].
      destruct (Ascii.eqb_spec (evCh e) "q") as [Eq | _].
      * right. exists e. repeat split; assumption.
      * destruct (Part000.handleKeyboard sd e) as [sd1 [|]];
          discriminate Es.
    + exfalso. apply (part_tick_not_terminating rt env sd).
      rewrite Es. reflexivity.
    + left. reflexivity.
  - discriminate H.
Qed.

(** X19.  The exit status of the two programs.  [src/main.go] exits with
    status 1 exactly when the player runs and one of the five start-up
    steps fails (home directory, cache directory, session bus, terminal,
    log file); [src/unnamed/part_000] only for the session bus and the
    terminal, and goes on where main.go gives up on the others.  In both,
    an exit with status 0 means that the player was not running or that
    a quit key or a termination signal was among the events; when the
    player is not running both do the same, whatever the rest. *)
Theorem exit_status rt (env : StartupEnv) (evs : list LoopEvent) :
  (snd (MainGo.main rt env evs) = Exited 1
   <-> env.(spotifyRunning) = true /\ startupFails env)
  /\ (snd (Part000.main rt env evs) = Exited 1
      <-> env.(spotifyRunning) = true
          /\ (env.(busErr) <> None \/ env.(termboxErr) <> None))
  /\ (snd (MainGo.main rt env evs) = Exited 0 ->
      env.(spotifyRunning) = false \/ Exists isQuit evs)
  /\ (snd (Part000.main rt env evs) = Exited 0 ->
      env.(spotifyRunning) = false \/ Exists isQuit evs)
  /\ (env.(spotifyRunning) = false ->
      MainGo.main rt env evs = Part000.main rt env evs
      /\ snd (MainGo.main rt env evs) = Exited 0).
Proof.
  unfold MainGo.main, Part000.main, MainGo.NewSpotifyDisplay,
    Part000.NewSpotifyDisplay, MainGo.runError, MainGo.Run, Part000.Run,
    startupFails.
  split; [|split; [|split; [|split]]].
  - destruct (spotifyRunning env); cbn [negb snd].
    2: { split; [discriminate | intros [H _]; discriminate H]. }
    destruct (homeDirErr env) as [e1 |].
    { split; [intros _; split; [reflexivity | left; discriminate]
             | reflexivity]. }
    destruct (mkdirErr env) as [e2 |].
    { split; [intros _; split; [reflexivity | right; left; discriminate]
             | reflexivity]. }
    destruct (busErr env) as [e3 |].
    { split; [intros _; split; [reflexivity
                               | right; right; left; discriminate]
             | reflexivity]. }
    destruct (termboxErr env) as [e4 |].
    { split; [intros _; split; [reflexivity
                               | right; right; right; left; discriminate]
             | reflexivity]. }
    destruct (logFileErr env) as [e5 |].
    { split; [intros _; split; [reflexivity
                               | right; right; right; right; discriminate]
             | reflexivity]. }
    destruct (MainGo.loop rt _ evs) as [[sd' fx] st].
    split.
    + destruct st; discriminate.
    + intros [_ [H | [H | [H | [H | H]]]]]; now elim H.
  - destruct (spotifyRunning env); cbn [negb snd].
    2: { split; [discriminate | intros [H _]; discriminate H]. }
    destruct (busErr env) as [e3 |].
    { split; [intros _; split; [reflexivity | left; discriminate]
             | reflexivity]. }
    destruct (termboxErr env) as [e4 |].
    { split; [intros _; split; [reflexivity | right; discriminate]
             | reflexivity]. }
    destruct (Part000.loop rt _ evs) as [[sd' fx] st].
    split.
    + destruct st; discriminate.
    + intros [_ [H | H]]; now elim H.
  - destruct (spotifyRunning env); cbn [negb snd]; [|now left].
    destruct (homeDirErr env); [discriminate|].
    destruct (mkdirErr env); [discriminate|].
    destruct (busErr env); [discriminate|].
    destruct (termboxErr env); [discriminate|].
    destruct (logFileErr env); [discriminate|].
    pose proof (main_loop_terminating rt evs
                  (NewSpotifyDisplay env.(cachePath))) as Hq.
    destruct (MainGo.loop rt _ evs) as [[sd' fx] st].
    destruct st; try discriminate.
    intros _. right. now apply Hq.
  - destruct (spotifyRunning env); cbn [negb snd]; [|now left].
    destruct (busErr env); [discriminate|].
    destruct (termboxErr env); [discriminate|].
    pose proof (part_loop_terminating rt evs
                  (NewSpotifyDisplay env.(cachePath))) as Hq.
    destruct (Part000.loop rt _ evs) as [[sd' fx] st].
    destruct st; try discriminate.
    intros _. right. now apply Hq.
  - intros ->. split; reflexivity.
Qed.

Lemma exit_status_witness :
  MainGo.main rt_amd64
    {| spotifyRunning := false; homeDirErr := None; cachePath := "/c";
       mkdirErr := None; busErr := None; termboxErr := None;
       logFileErr := None |} [Signal]
  = Part000.main rt_amd64
      {| spotifyRunning := false; homeDirErr := None; cachePath := "/c";
         mkdirErr := None; busErr := None; termboxErr := None;
         logFileErr := None |} [Signal].
Proof.
  refine (proj1 (proj2 (proj2 (proj2 (proj2
    (exit_status rt_amd64
       {| spotifyRunning := false; homeDirErr := None; cachePath := "/c";
          mkdirErr := None; busErr := None; termboxErr := None;
          logFileErr := None |} [Signal])))) _)).
  reflexivity.
Defined.

Lemma filter_none {A : Type} (f : A -> bool) (l : list A) :
  Forall (fun x => f x = false) l -> filter f l = [].
Proof.
  induction 1 as [| x l Hx _ IH]; [reflexivity|].
  cbn [filter]. rewrite Hx. exact IH.
Qed.

Lemma main_loop_no_termbox rt sd evs :
  filter isTermbox (snd (fst (MainGo.loop rt sd evs))) = [].
Proof.
  apply filter_none.
  apply main_loop_envelope with (path := artworkPath sd);
    intros; reflexivity.
Qed.

Lemma part_loop_no_termbox rt sd evs :
  filter isTermbox (snd (fst (Part000.loop rt sd evs))) = [].
Proof.
  apply filter_none.
  apply part_loop_envelope with (path := artworkPath sd);
    intros; reflexivity.
Qed.

(** X20.  [Run] gives the terminal back on every way out.  At whatever
    point the loop ends (quit key, signal, a panic inside a tick, or the
    log file of [src/main.go] failing to open), the effects of [Run]
    open the terminal library exactly once, close it exactly once, and
    end with the show-cursor sequence followed by the close: the deferred
    calls, in reverse order.  When the library fails to open, nothing is
    printed and nothing is closed.  While the loop is still going, the
    library is open and not closed.  In both files. *)
Theorem run_releases_terminal rt (sd : SpotifyDisplay)
  (evs : list LoopEvent) (logErr : option string) :
  let m := MainGo.Run rt None logErr sd evs in
  let q := Part000.Run rt None sd evs in
  (snd m <> Running ->
   filter isTermbox (snd (fst m)) = [TermboxInit; TermboxClose]
   /\ exists body, snd (fst m)
                   = [TermboxInit] ++ hideCursor ++ clearScreen ++ body
                     ++ showCursor ++ [TermboxClose])
  /\ (snd m = Running -> filter isTermbox (snd (fst m)) = [TermboxInit])
  /\ (snd q <> Running ->
      filter isTermbox (snd (fst q)) = [TermboxInit; TermboxClose]
      /\ exists body, snd (fst q)
                      = [TermboxInit] ++ hideCursor ++ clearScreen ++ body
                        ++ showCursor ++ [TermboxClose])
  /\ (snd q = Running -> filter isTermbox (snd (fst q)) = [TermboxInit])
  /\ (forall e, MainGo.Run rt (Some e) logErr sd evs
                = (sd, [TermboxInit], Terminating)
                /\ Part000.Run rt (Some e) sd evs
                   = (sd, [TermboxInit], Terminating)).
Proof.
  cbv zeta. unfold MainGo.Run, Part000.Run.
  pose proof (main_loop_no_termbox rt sd evs) as Hm.
  pose proof (part_loop_no_termbox rt sd evs) as Hp.
  destruct (MainGo.loop rt sd evs) as [[sd1 fx1] st1].
  destruct (Part000.loop rt sd evs) as [[sd2 fx2] st2].
  cbn [fst snd] in Hm, Hp.
  split; [|split; [|split; [|split]]].
  - destruct logErr as [e |]; cbn [fst snd].
    + intros _. split; [reflexivity|]. exists []. reflexivity.
    + destruct st1; cbn [fst snd]; intros H; try (now elim H).
      * split; [|exists fx1; reflexivity].
        cbn [app filter isTermbox hideCursor clearScreen].
        rewrite filter_app, Hm. reflexivity.
      * split; [|exists fx1; reflexivity].
        cbn [app filter isTermbox hideCursor clearScreen].
        rewrite filter_app, Hm. reflexivity.
  - destruct logErr as [e |]; cbn [fst snd]; [discriminate|].
    destruct st1; cbn [fst snd]; try discriminate.
    intros _. cbn [app filter isTermbox hideCursor clearScreen].
    rewrite Hm. reflexivity.
  - destruct st2; cbn [fst snd]; intros H; try (now elim H).
    + split; [|exists fx2; reflexivity].
      cbn [app filter isTermbox hideCursor clearScreen].
      rewrite filter_app, Hp. reflexivity.
    + split; [|exists fx2; reflexivity].
      cbn [app filter isTermbox hideCursor clearScreen].
      rewrite filter_app, Hp. reflexivity.
  - destruct st2; cbn [fst snd]; try discriminate.
    intros _. cbn [app filter isTermbox hideCursor clearScreen].
    rewrite Hp. reflexivity.
  - intros e. split; reflexivity.
Qed.

Lemma run_releases_terminal_witness :
  filter isTermbox
    (snd (fst (MainGo.Run rt_amd64 None None (NewSpotifyDisplay "/c")
                 [Tick failingEnv; Signal])))
  = [TermboxInit; TermboxClose].
Proof.
  refine (proj1 (proj1 (run_releases_terminal rt_amd64
                          (NewSpotifyDisplay "/c")
                          [Tick failingEnv; Signal] None) _)).
  vm_compute. discriminate.
Defined.

(** A CDN address the HTTP library cannot parse: [src/main.go] logs the
    error and goes on; [src/unnamed/part_000] panics in the tick before
    anything is sent or rendered, the deferred calls of [Run] give the
    terminal back, and the process is brought down. *)
Lemma nil_request_brings_part000_down :
  snd (MainGo.tick rt_amd64 nilRequestEnv (NewSpotifyDisplay "/c")) = Running
  /\ Part000.tick rt_amd64 nilRequestEnv (NewSpotifyDisplay "/c")
     = (setArtURL (NewSpotifyDisplay "/c") "https://i.scdn.co/image/%zz",
        Part000.drawTrackInfo
          {| Title := quoted "Song"; Artist := "Band"; Album := "";
             Length := 240; Position := 0;
             ArtURL := "https://i.scdn.co/image/%zz" |}
          (Part000.getTerminalSize (NewSpotifyDisplay "/c") 80 24)
        ++ Part000.drawProgressBar rt_amd64
             {| Title := quoted "Song"; Artist := "Band"; Album := "";
                Length := 240; Position := 0;
                ArtURL := "https://i.scdn.co/image/%zz" |}
             (Part000.getTerminalSize (NewSpotifyDisplay "/c") 80 24),
        Crashed)
  /\ commands (snd (fst (Part000.Run rt_amd64 None (NewSpotifyDisplay "/c")
                           [Tick nilRequestEnv; Signal]))) = []
  /\ filter isTermbox
       (snd (fst (Part000.Run rt_amd64 None (NewSpotifyDisplay "/c")
                    [Tick nilRequestEnv; Signal])))
     = [TermboxInit; TermboxClose]
  /\ snd (Part000.main rt_amd64 sampleStartup [Tick nilRequestEnv; Signal])
     = Panicked.
Proof. repeat apply conj; vm_compute; reflexivity. Qed.

(** ** From start-up to the first picture *)

(** X21.  The display [NewSpotifyDisplay] of [src/main.go] returns records
    no art reference, so the first tick whose metadata arrive treats any
    non-empty reference as new: it attempts exactly one transfer and
    records the reference; with an empty reference it attempts none and
    the record stays empty. *)
Theorem first_tick_fetches rt (startup : StartupEnv) (env : TickEnv)
  (sd : SpotifyDisplay) logs (md : Metadata) :
  MainGo.NewSpotifyDisplay startup = Ok sd ->
  MainGo.getMetadata rt env = (logs, Ok md) ->
  let r := MainGo.tick rt env sd in
  (fst (fst r)).(currentArtURL) = md.(ArtURL)
  /\ (md.(ArtURL) <> "" -> fetchCount (snd (fst r)) = 1%nat)
  /\ (md.(ArtURL) = "" -> fetchCount (snd (fst r)) = O)
  /\ snd r = Running.
Proof.
  intros Hnew Hg r. subst r.
  assert (E0 : sd.(currentArtURL) = "").
  { unfold MainGo.NewSpotifyDisplay in Hnew.
    destruct (homeDirErr startup); [discriminate|].
    destruct (mkdirErr startup); [discriminate|].
    destruct (busErr startup); [discriminate|].
    now injection Hnew as <-. }
  pose proof (main_tick_fetch rt env sd logs md Hg) as Hf.
  rewrite (main_tick_ok rt env sd logs md Hg) in *.
  unfold MainGo.artworkDue in *. rewrite E0 in *.
  destruct (String.eqb_spec md.(ArtURL) "") as [E | Hne];
    cbn [negb andb fst snd] in *.
  - split; [now rewrite E0, E|]. split; [intros H; contradiction|].
    split; [intros _; exact Hf | reflexivity].
  - split; [reflexivity|]. split; [intros _; exact Hf|].
    split; [intros H; contradiction | reflexivity].
Qed.

Lemma first_tick_fetches_witness :
  fetchCount (snd (fst (MainGo.tick rt_amd64
     (sampleEnv (VInt64 300000000) (VInt64 125000000)
        (quoted "https://i.scdn.co/image/ab67") None)
     (NewSpotifyDisplay "/c")))) = 1%nat.
Proof.
  refine (proj1 (proj2 (first_tick_fetches rt_amd64
    {| spotifyRunning := true; homeDirErr := None; cachePath := "/c";
       mkdirErr := None; busErr := None; termboxErr := None;
       logFileErr := None |}
    (sampleEnv (VInt64 300000000) (VInt64 125000000)
       (quoted "https://i.scdn.co/image/ab67") None)
    (NewSpotifyDisplay "/c")
    (MainGo.artURLLog (quoted "https://i.scdn.co/image/ab67"))
    {| Title := quoted "Song"; Artist := "Band"; Album := quoted "Album";
       Length := 300; Position := 125;
       ArtURL := "https://i.scdn.co/image/ab67" |} _ _)) _).
  - reflexivity.
  - vm_compute. reflexivity.
  - cbn. discriminate.
Defined.

(** ** Negative seconds on the label *)

(** X22.  [formatTime] has no case for a negative count.  Go's division
    and remainder truncate towards zero, so for a count between -59 and
    -1 the minutes are 0 and the remainder keeps the sign: the label reads
    [00:-] followed by the digits of the absolute value, five or six bytes
    instead of five. *)
Theorem formatTime_negative (s : Z) :
  - 60 < s < 0 ->
  MainGo.formatTime s = ("00:-" ++ Fmt.digits (Z.to_N (- s)))%string
  /\ (5 <= String.length (MainGo.formatTime s) <= 6)%nat.
Proof.
  intros Hs.
  assert (Hall : forallb
            (fun k =>
               String.eqb (MainGo.formatTime (- Z.of_nat k))
                          ("00:-" ++ Fmt.digits (Z.to_N (Z.of_nat k)))
               && (5 <=? String.length (MainGo.formatTime (- Z.of_nat k)))%nat
               && (String.length (MainGo.formatTime (- Z.of_nat k)) <=? 6)%nat)
            (seq 1 59) = true) by (vm_compute; reflexivity).
  rewrite forallb_forall in Hall.
  specialize (Hall (Z.to_nat (- s))).
  rewrite Z2Nat.id in Hall by lia.
  replace (- - s) with s in Hall by lia.
  assert (Hin : In (Z.to_nat (- s)) (seq 1 59)) by (apply in_seq; lia).
  specialize (Hall Hin).
  apply andb_prop in Hall. destruct Hall as [Hall H6].
  apply andb_prop in Hall. destruct Hall as [He H5].
  apply String.eqb_eq in He. apply Nat.leb_le in H5, H6.
  split; [exact He | lia].
Qed.

Lemma formatTime_negative_witness :
  MainGo.formatTime (-5) = "00:-5".
Proof.
  refine (proj1 (formatTime_negative (-5) _)). lia.
Defined.

(** ** From the bus to the bar *)

(** X23.  End to end, for [src/main.go]: when the bus delivers a length
    of at least one second and a position that is not negative, both
    well-formed and counted in microseconds, the record [getMetadata]
    returns fills the bar with the integer part of 40 times the whole
    seconds played over the whole seconds of the track, at most 40, on
    every platform. *)
Theorem bar_from_bus_values rt (env : TickEnv) logs (md : Metadata)
  (l p : Z) :
  MainGo.getMetadata rt env = (logs, Ok md) ->
  wf_value (deliveredLength env) -> wf_value (deliveredPosition env) ->
  signed64 (deliveredLength env) = Some l ->
  signed64 (deliveredPosition env) = Some p ->
  1000000 <= l -> 0 <= p ->
  MainGo.progress rt md
  = Z.min 40 (40 * (p / 1000000) / (l / 1000000)).
Proof.
  intros Hg Hwl Hwp El Ep Hl Hp.
  destruct (main_getMetadata_signed rt env logs md Hg Hwl Hwp)
    as [l' [p' [El' [Ep' [Rl [Rp [HL HP]]]]]]].
  rewrite El in El'. injection El' as <-.
  rewrite Ep in Ep'. injection Ep' as <-.
  rewrite Z.quot_div_nonneg in HL, HP by lia.
  unfold GoInt.in_int64, GoInt.min_int64, GoInt.max_int64 in Rl, Rp.
  assert (1 <= l / 1000000) by (apply Z.div_le_lower_bound; lia).
  assert (l / 1000000 <= 2 ^ 44) by (apply Z.div_le_upper_bound; lia).
  assert (0 <= p / 1000000) by (apply Z.div_pos; lia).
  assert (p / 1000000 <= 2 ^ 44) by (apply Z.div_le_upper_bound; lia).
  rewrite <- HL, <- HP. apply main_progress_floor; lia.
Qed.

Lemma bar_from_bus_values_witness :
  MainGo.progress rt_amd64
    {| Title := quoted "Song"; Artist := "Band"; Album := quoted "Album";
       Length := 300; Position := 125; ArtURL := "" |}
  = Z.min 40 (40 * (125999999 / 1000000) / (300000000 / 1000000)).
Proof.
  refine (bar_from_bus_values rt_amd64
    (sampleEnv (VInt64 300000000) (VUint64 125999999) "" None)
    (MainGo.artURLLog "")
    {| Title := quoted "Song"; Artist := "Band"; Album := quoted "Album";
       Length := 300; Position := 125; ArtURL := "" |}
    300000000 125999999 _ _ _ _ _ _ _).
  - vm_compute. reflexivity.
  - cbn. unfold GoInt.in_int64, GoInt.min_int64, GoInt.max_int64. lia.
  - cbn. unfold GoInt.in_uint64, GoInt.max_uint64. lia.
  - reflexivity.
  - reflexivity.
  - lia.
  - lia.
Defined.

(** ** The blanking of the progress area *)

(** X24.  [drawProgressBar] of [src/main.go] first blanks the two rows
    of the progress area with 60 spaces each, from the column of the
    text, 20 columns right of the origin.  The run thus ends 80 columns
    right of the origin, 20 columns beyond the 60-column block.  With the
    start-up geometry (block of 60, margin of 2) and the block aligned
    right, the run ends 18 columns beyond the last column of the terminal,
    whatever its width; aligned left, it fits only on terminals of 82
    columns or more. *)
Theorem blank_run_overruns_block rt (md : Metadata) (sd : SpotifyDisplay)
  (w h : Z) :
  sd.(minWidth) = 60 -> sd.(margin) = 2 -> 0 <= w <= 2 ^ 61 ->
  let t := MainGo.getTerminalSize sd w h in
  let col := GoInt.add t.(startX) 20 in
  (exists rest,
      MainGo.drawProgressBar rt md t
      = moveCursor col (GoInt.add t.(startY) 4) ++ [Stdout blankRun]
        ++ moveCursor col (GoInt.add t.(startY) 5) ++ [Stdout blankRun]
        ++ rest)
  /\ GoStrings.len blankRun = 60
  /\ col + GoStrings.len blankRun = t.(startX) + sd.(minWidth) + 20
  /\ (sd.(horizontalAlign) = "right" ->
      col + GoStrings.len blankRun = w + 18)
  /\ (sd.(horizontalAlign) = "left" ->
      col + GoStrings.len blankRun = 82).
Proof.
  intros Hn Hm Hw t col. subst t col.
  assert (Hx : (MainGo.getTerminalSize sd w h).(startX) = originX_spec sd w).
  { apply main_startX_math; unfold small; rewrite ?Hn, ?Hm; lia. }
  assert (Hr : - 2 ^ 61 <= originX_spec sd w <= 2 ^ 61).
  { unfold originX_spec. rewrite Hn, Hm.
    pose proof (Z.quot_rem' (w - 60) 2) as E.
    pose proof (Z.rem_bound_abs (w - 60) 2 ltac:(lia)).
    destruct (String.eqb _ "left"); [lia|].
    destruct (String.eqb _ "right"); lia. }
  assert (Hc : GoInt.add (MainGo.getTerminalSize sd w h).(startX) 20
               = originX_spec sd w + 20).
  { rewrite Hx. apply wrap64_small.
    unfold GoInt.in_int64, GoInt.min_int64, GoInt.max_int64. lia. }
  split; [|split; [|split; [|split]]].
  - eexists. unfold MainGo.drawProgressBar. cbv zeta. reflexivity.
  - reflexivity.
  - rewrite Hc, Hx, Hn. change (GoStrings.len blankRun) with 60. lia.
  - intros Ha. rewrite Hc. change (GoStrings.len blankRun) with 60.
    unfold originX_spec. rewrite Ha, Hn, Hm. cbn [String.eqb Ascii.eqb].
    cbn. lia.
  - intros Ha. rewrite Hc. change (GoStrings.len blankRun) with 60.
    unfold originX_spec. rewrite Ha, Hm. cbn. lia.
Qed.

Lemma blank_run_overruns_block_witness :
  GoInt.add (MainGo.getTerminalSize
               (setHorizontal (NewSpotifyDisplay "/c") "right") 80 24).(startX)
            20
  + GoStrings.len blankRun = 80 + 18.
Proof.
  refine (proj1 (proj2 (proj2 (proj2
    (blank_run_overruns_block rt_amd64 (sampleTrack 300 125)
       (setHorizontal (NewSpotifyDisplay "/c") "right") 80 24 _ _ _)))) _).
  - reflexivity.
  - reflexivity.
  - lia.
  - reflexivity.
Defined.
